(** * acme-accounting: the report engine of [src/reports/reports.service.ts]

    A shallow embedding of [ReportsService] (file loading, the three report
    jobs, the status query and the run orchestrator) together with the part
    of the JavaScript run time the service relies on: strings as sequences
    of UTF-16 code units, Numbers as IEEE 754 binary64 values, [parseFloat],
    [Number.prototype.toFixed], property enumeration order of ordinary
    objects, and [Date] for date-only ISO strings. *)

From Stdlib Require Import String Ascii.
From Stdlib Require Import ZArith List Bool Lia.
From Stdlib Require Import Permutation Sorted.
From Stdlib Require Import Floats.SpecFloat.
Import ListNotations.

Local Open Scope Z_scope.

(** ** JavaScript strings *)

Module JsString.

(** A JavaScript string is a finite sequence of UTF-16 code units. *)
Definition jsstring := list N.

(** String literals of the source, written as Rocq strings. *)
Fixpoint lit (s : string) : jsstring :=
  match s with
  | EmptyString => []
  | String a s' => N_of_ascii a :: lit s'
  end.

Fixpoint eqb (s t : jsstring) : bool :=
  match s, t with
  | [], [] => true
  | a :: s', b :: t' => N.eqb a b && eqb s' t'
  | _, _ => false
  end.

(** [x < y] on strings (IsLessThan): lexicographic on code units. *)
Fixpoint ltb (s t : jsstring) : bool :=
  match s, t with
  | [], [] => false
  | [], _ :: _ => true
  | _ :: _, [] => false
  | a :: s', b :: t' => N.ltb a b || (N.eqb a b && ltb s' t')
  end.

Definition leb (s t : jsstring) : bool := negb (ltb t s).

(** WhiteSpace and LineTerminator code points, as [String.prototype.trim]
    and [parseFloat] strip them. *)
Definition isWhiteSpace (c : N) : bool :=
  existsb (N.eqb c)
    [9; 10; 11; 12; 13; 32; 160; 5760; 8192; 8193; 8194; 8195; 8196; 8197;
     8198; 8199; 8200; 8201; 8202; 8232; 8233; 8239; 8287; 12288; 65279]%N.

Fixpoint trimStart (s : jsstring) : jsstring :=
  match s with
  | c :: s' => if isWhiteSpace c then trimStart s' else s
  | [] => []
  end.

Definition trimEnd (s : jsstring) : jsstring := rev (trimStart (rev s)).

Definition trim (s : jsstring) : jsstring := trimEnd (trimStart s).

(** [s.split(sep)] for a separator of one code unit.  The result is never
    empty: the empty string splits into one empty piece. *)
Fixpoint split (sep : N) (s : jsstring) : list jsstring :=
  match s with
  | [] => [[]]
  | c :: s' =>
      if N.eqb c sep then [] :: split sep s'
      else match split sep s' with
           | piece :: rest => (c :: piece) :: rest
           | [] => [[c]]
           end
  end.

(** [lines.join(sep)]. *)
Fixpoint join (sep : jsstring) (l : list jsstring) : jsstring :=
  match l with
  | [] => []
  | [s] => s
  | s :: rest => s ++ sep ++ join sep rest
  end.

Fixpoint startsWith (p s : jsstring) : bool :=
  match p, s with
  | [], _ => true
  | a :: p', b :: s' => N.eqb a b && startsWith p' s'
  | _ :: _, [] => false
  end.

Definition endsWith (s suffix : jsstring) : bool :=
  startsWith (rev suffix) (rev s).

Definition isDigit (c : N) : bool := (N.leb 48 c && N.leb c 57)%N.

Definition digitVal (c : N) : Z := Z.of_N c - 48.

(** The mathematical value of a run of decimal digits. *)
Definition digitsVal (ds : jsstring) : Z :=
  fold_left (fun acc c => 10 * acc + digitVal c) ds 0.

Fixpoint spanDigits (s : jsstring) : jsstring * jsstring :=
  match s with
  | c :: s' =>
      if isDigit c then let (ds, r) := spanDigits s' in (c :: ds, r)
      else ([], s)
  | [] => ([], [])
  end.

(** Decimal digits of a non-negative integer, most significant first. *)
Fixpoint posDigits (fuel : nat) (n : Z) (acc : jsstring) : jsstring :=
  match fuel with
  | O => acc
  | S fuel' =>
      let acc' := Z.to_N (48 + n mod 10) :: acc in
      if n <? 10 then acc' else posDigits fuel' (n / 10) acc'
  end.

Definition natDigits (n : Z) : jsstring :=
  posDigits (S (Z.to_nat (Z.log2 n))) n [].

(** Number::toString of an integral Number below 10^21. *)
Definition intToString (n : Z) : jsstring :=
  if n <? 0 then lit "-" ++ natDigits (- n) else natDigits n.

End JsString.

(** ** JavaScript Numbers: IEEE 754 binary64, round to nearest, ties to even *)

Module JsNumber.
Import JsString.

Definition number := spec_float.

Definition prec : Z := 53.
Definition emax : Z := 1024.

Definition pzero : number := S754_zero false.
Definition NaN : number := S754_nan.

Definition add (x y : number) : number := SFadd prec emax x y.
Definition sub (x y : number) : number := SFsub prec emax x y.

(** ToBoolean of a Number: false for +0, -0 and NaN. *)
Definition truthy (x : number) : bool :=
  match x with
  | S754_zero _ | S754_nan => false
  | _ => true
  end.

Definition isNaN (x : number) : bool :=
  match x with S754_nan => true | _ => false end.

(** [x || 0] on Numbers, as written in the statement job. *)
Definition orZero (x : number) : number := if truthy x then x else pzero.

(** The Number nearest to the integer [n]. *)
Definition ofZ (n : Z) : number := binary_normalize prec emax n 0 false.

(** The Number nearest to [m * 10^e], for a non-negative integer [m]. *)
Definition ofDecimal (m : Z) (e : Z) : number :=
  match m with
  | Zpos p =>
      if 0 <=? e then ofZ (m * 10 ^ e)
      else SFdiv prec emax (S754_finite false p 0)
                           (S754_finite false (Z.to_pos (10 ^ (- e))) 0)
  | _ => pzero
  end.

(** *** parseFloat

    The longest prefix of the input, after leading white space, that is a
    StrDecimalLiteral; NaN when there is none. *)

Definition chPlus : N := 43.
Definition chMinus : N := 45.
Definition chDot : N := 46.
Definition chComma : N := 44.
Definition chLF : N := 10.

(** ExponentPart: [e] or [E], an optional sign, one digit or more.  The
    result is the exponent's value, 0 when no exponent part is there. *)
Definition exponentPart (s : jsstring) : Z :=
  match s with
  | c :: s1 =>
      if (N.eqb c 101 || N.eqb c 69)%bool then
        let '(neg, s2) :=
          match s1 with
          | d :: s2 =>
              if N.eqb d chMinus then (true, s2)
              else if N.eqb d chPlus then (false, s2)
              else (false, s1)
          | [] => (false, s1)
          end in
        match fst (spanDigits s2) with
        | [] => 0
        | ds => if neg then - digitsVal ds else digitsVal ds
        end
      else 0
  | [] => 0
  end.

(** StrUnsignedDecimalLiteral other than [Infinity]: the mantissa digits
    as an integer and the decimal exponent. *)
Definition unsignedDecimal (s : jsstring) : option (Z * Z) :=
  let (ip, r1) := spanDigits s in
  match r1 with
  | c :: r2 =>
      if N.eqb c chDot then
        let (fp, r3) := spanDigits r2 in
        match ip, fp with
        | [], [] => None
        | _, _ =>
            Some (digitsVal (ip ++ fp),
                  exponentPart r3 - Z.of_nat (length fp))
        end
      else
        match ip with
        | [] => None
        | _ => Some (digitsVal ip, exponentPart r1)
        end
  | [] =>
      match ip with
      | [] => None
      | _ => Some (digitsVal ip, 0)
      end
  end.

Definition unsignedLiteral (s : jsstring) : number :=
  if startsWith (lit "Infinity") s then S754_infinity false
  else match unsignedDecimal s with
       | Some (m, e) => ofDecimal m e
       | None => NaN
       end.

Definition parseFloat (input : jsstring) : number :=
  match trimStart input with
  | c :: s' =>
      if N.eqb c chMinus then SFopp (unsignedLiteral s')
      else if N.eqb c chPlus then unsignedLiteral s'
      else unsignedLiteral (c :: s')
  | [] => NaN
  end.

(** *** Number.prototype.toFixed(2) *)

(** Number::toString for a finite Number of magnitude 10^21 or more (an
    integer [x]): the shortest digit string [s] (of [k] digits) such that
    [s * 10^(n-k)] rounds to the Number, the nearest to it among those,
    printed in exponential notation. *)
Definition numDecimalDigits (x : Z) : Z := Z.of_nat (length (natDigits x)).

Definition roundsTo (v : Z) (x : number) : bool :=
  match SFcompare (ofZ v) x with Some Eq => true | _ => false end.

Definition shortestCandidates (x : number) (xv : Z) (k : Z) : list (Z * Z) :=
  flat_map (fun n =>
    let scale := 10 ^ (n - k) in
    filter (fun sn : Z * Z =>
              let s := fst sn in
              (10 ^ (k - 1) <=? s) && (s <? 10 ^ k) && roundsTo (s * scale) x)
           [(xv / scale, n); (xv / scale + 1, n)])
    [numDecimalDigits xv; numDecimalDigits xv + 1].

Definition closest (xv : Z) (k : Z) (cs : list (Z * Z)) : option (Z * Z) :=
  fold_left (fun best sn =>
    match best with
    | None => Some sn
    | Some b =>
        if Z.abs (fst sn * 10 ^ (snd sn - k) - xv)
             <? Z.abs (fst b * 10 ^ (snd b - k) - xv)
        then Some sn else Some b
    end) cs None.

Fixpoint shortest (fuel : nat) (x : number) (xv : Z) (k : Z) : Z * Z * Z :=
  match closest xv k (shortestCandidates x xv k) with
  | Some (s, n) => (s, n, k)
  | None =>
      match fuel with
      | O => (xv, numDecimalDigits xv, numDecimalDigits xv)
      | S fuel' => shortest fuel' x xv (k + 1)
      end
  end.

Definition exponentialString (x : number) (xv : Z) : jsstring :=
  let '(s, n, k) := shortest 17 x xv 1 in
  let ds := natDigits s in
  match ds with
  | d :: [] => [d] ++ lit "e+" ++ natDigits (n - 1)
  | d :: rest => [d] ++ lit "." ++ rest ++ lit "e+" ++ natDigits (n - 1)
  | [] => []
  end.

(** The integer [n] for which [n / 100 - x] is as close to zero as
    possible, the larger one when there are two, for [x = m * 2^e > 0]. *)
Definition scaled100 (m : positive) (e : Z) : Z :=
  if 0 <=? e then Zpos m * 100 * 2 ^ e
  else (Zpos m * 200 + 2 ^ (- e)) / 2 ^ (1 - e).

(** [a.b] with two fraction digits, from the integer [n = 100 * a.b]. *)
Definition fixed2Digits (n : Z) : jsstring :=
  let frac := n mod 100 in
  natDigits (n / 100) ++ lit "." ++ natDigits (frac / 10) ++ natDigits (frac mod 10).

(** [x.toFixed(2)].  A Number of magnitude 10^21 or more has a
    non-negative exponent and is printed by Number::toString. *)
Definition toFixed2 (x : number) : jsstring :=
  match x with
  | S754_nan => lit "NaN"
  | S754_infinity false => lit "Infinity"
  | S754_infinity true => lit "-Infinity"
  | S754_zero _ => lit "0.00"
  | S754_finite s m e =>
      let sign := if s then lit "-" else [] in
      if (0 <=? e) && (10 ^ 21 <=? Zpos m * 2 ^ e)
      then sign ++ exponentialString (S754_finite false m e) (Zpos m * 2 ^ e)
      else sign ++ fixed2Digits (scaled100 m e)
  end.

End JsNumber.

(** ** Ordinary objects used as maps *)

Module JsObject.
Import JsString.

(** Insertion sort; the sorts of the run time are only ever applied here to
    lists of distinct keys, on which every correct sort agrees. *)
Section Sort.
Context {A : Type} (le : A -> A -> bool).

Fixpoint insert (x : A) (l : list A) : list A :=
  match l with
  | [] => [x]
  | y :: l' => if le x y then x :: l else y :: insert x l'
  end.

Fixpoint sort (l : list A) : list A :=
  match l with
  | [] => []
  | x :: l' => insert x (sort l')
  end.
End Sort.

(** An array index: a canonical numeric string whose value is below
    2^32 - 1. *)
Definition arrayIndex (k : jsstring) : option Z :=
  match k with
  | [] => None
  | c :: rest =>
      if forallb isDigit k
         && (negb (N.eqb c 48) || match rest with [] => true | _ => false end)
         && (digitsVal k <? 2 ^ 32 - 1)
      then Some (digitsVal k) else None
  end.

Definition isArrayIndex (k : jsstring) : bool :=
  match arrayIndex k with Some _ => true | None => false end.

Definition indexOf (k : jsstring) : Z :=
  match arrayIndex k with Some i => i | None => 0 end.

Section Obj.
Context {V : Type}.

(** The own properties of an object created by [{}], in creation order. *)
Definition obj := list (jsstring * V).

Fixpoint getOwn (o : obj) (k : jsstring) : option V :=
  match o with
  | [] => None
  | (k', v) :: o' => if eqb k k' then Some v else getOwn o' k
  end.

(** [o[k] = v]: an existing own property keeps its place, a new one is
    created last. *)
Fixpoint setOwn (o : obj) (k : jsstring) (v : V) : obj :=
  match o with
  | [] => [(k, v)]
  | (k', v') :: o' =>
      if eqb k k' then (k', v) :: o' else (k', v') :: setOwn o' k v
  end.

(** OrdinaryOwnPropertyKeys: array indices in ascending numeric order,
    then the other string keys in creation order. *)
Definition entries (o : obj) : list (jsstring * V) :=
  sort (fun a b => indexOf (fst a) <=? indexOf (fst b))
       (filter (fun e => isArrayIndex (fst e)) o)
  ++ filter (fun e => negb (isArrayIndex (fst e))) o.

Definition keys (o : obj) : list jsstring := map fst (entries o).
Definition values (o : obj) : list V := map snd (entries o).
End Obj.

Arguments obj V : clear implicits.

(** The properties every ordinary object inherits from [Object.prototype]:
    data properties holding functions, and the accessor [__proto__]. *)
Definition inheritedFunctions : list jsstring :=
  map lit ["constructor"; "hasOwnProperty"; "isPrototypeOf";
           "propertyIsEnumerable"; "toLocaleString"; "toString"; "valueOf";
           "__defineGetter__"; "__defineSetter__"; "__lookupGetter__";
           "__lookupSetter__"]%string.

Definition protoAccessor : jsstring := lit "__proto__".

Definition isInherited (k : jsstring) : bool :=
  existsb (eqb k) (protoAccessor :: inheritedFunctions).

(** ToPropertyKey of a value that is a string or [undefined]. *)
Definition propertyKey (x : option jsstring) : jsstring :=
  match x with Some s => s | None => lit "undefined" end.

End JsObject.

(** ** Dates: date-only ISO strings and the local calendar year *)

Module JsDate.
Import JsString.

Definition msPerDay : Z := 86400000.

Definition Day (t : Z) : Z := t / msPerDay.

Definition DayFromYear (y : Z) : Z :=
  365 * (y - 1970) + (y - 1969) / 4 - (y - 1901) / 100 + (y - 1601) / 400.

Definition TimeFromYear (y : Z) : Z := msPerDay * DayFromYear y.

Definition InLeapYear (y : Z) : bool :=
  ((y mod 4 =? 0) && negb (y mod 100 =? 0)) || (y mod 400 =? 0).

(** The largest year [y] with [TimeFromYear y <= t]. *)
Definition YearFromTime (t : Z) : Z :=
  let d := Day t in
  let y := 1970 + (400 * d) / 146097 in
  if DayFromYear (y + 1) <=? d then y + 1
  else if DayFromYear y <=? d then y
  else y - 1.

Definition DaysInMonth (y m : Z) : Z :=
  if m =? 2 then (if InLeapYear y then 29 else 28)
  else if (m =? 4) || (m =? 6) || (m =? 9) || (m =? 11) then 30
  else 31.

Fixpoint daysBefore (y : Z) (m : nat) : Z :=
  match m with
  | O => 0
  | S m' => daysBefore y m' + DaysInMonth y (Z.of_nat m)
  end.

(** MakeDay for a month number [m] in 1..12 and a day of the month [d]. *)
Definition MakeDay (y m d : Z) : Z :=
  DayFromYear y + daysBefore y (Z.to_nat (m - 1)) + (d - 1).

(** The date-only form [YYYY-MM-DD] of the Date Time String Format, with a
    month and a day that exist: the time value of that day's UTC midnight. *)
Definition isoDateOnly (s : jsstring) : option Z :=
  match s with
  | [y1; y2; y3; y4; h1; m1; m2; h2; d1; d2] =>
      if forallb isDigit [y1; y2; y3; y4; m1; m2; d1; d2]
         && N.eqb h1 45 && N.eqb h2 45 then
        let y := digitsVal [y1; y2; y3; y4] in
        let m := digitsVal [m1; m2] in
        let d := digitsVal [d1; d2] in
        if (1 <=? m) && (m <=? 12) && (1 <=? d) && (d <=? DaysInMonth y m)
        then Some (msPerDay * MakeDay y m d) else None
      else None
  | _ => None
  end.

(** What the host decides: the offset of local time from UTC, in
    milliseconds, at a given time value, and the time value (within the
    range of Date) of a string outside the form above, [None] being NaN,
    an invalid date. *)
Record host := {
  localTZA : Z -> Z;
  parseOther : jsstring -> option Z
}.

(** [new Date(s)]: the time value, [None] for an invalid date. *)
Definition newDate (h : host) (s : jsstring) : option Z :=
  match isoDateOnly s with
  | Some t => Some t
  | None => parseOther h s
  end.

(** [date.getFullYear()]: the year of the local time, [None] for NaN. *)
Definition getFullYear (h : host) (tv : option Z) : option Z :=
  match tv with
  | Some t => Some (YearFromTime (t + localTZA h t))
  | None => None
  end.

(** ToString of the Number that [getFullYear] returns. *)
Definition yearToString (y : option Z) : jsstring :=
  match y with
  | Some n => intToString n
  | None => lit "NaN"
  end.

(** A host on UTC that accepts no other date format. *)
Definition utcHost : host :=
  {| localTZA := fun _ => 0; parseOther := fun _ => None |}.

(** A host five hours behind UTC all year. *)
Definition westHost : host :=
  {| localTZA := fun _ => -18000000; parseOther := fun _ => None |}.

End JsDate.

(** ** ReportsService *)

Module Reports.
Import JsString JsNumber JsObject JsDate.

(** One parsed line: the fields of [line.split(',')]. *)
Definition row := list jsstring.

(** [this.parsedFiles]: file name to parsed lines. *)
Definition cache := obj (list row).

(** What a job completes with: its value, or a thrown TypeError. *)
Inductive completion (A : Type) :=
  | Normal (a : A)
  | TypeError.
Arguments Normal {A} a.
Arguments TypeError {A}.

(** *** loadFiles *)

(** [content.trim().split('\n').map((line) => line.split(','))] *)
Definition parseContent (content : jsstring) : list row :=
  map (split chComma) (split chLF (trim content)).

(** The directory listing of [tmp]: distinct file names with their text. *)
Definition directory := list (jsstring * jsstring).

Fixpoint readFile (dir : directory) (file : jsstring) : option jsstring :=
  match dir with
  | [] => None
  | (f, content) :: dir' => if eqb file f then Some content else readFile dir' file
  end.

(** [files.filter((file) => file.endsWith('.csv'))] *)
Definition csvFiles (dir : directory) : list jsstring :=
  filter (fun file => endsWith file (lit ".csv")) (map fst dir).

(** The body of the [map] callback once [readFile] has resolved:
    [this.parsedFiles[file] = lines]. *)
Definition storeFile (dir : directory) (c : cache) (file : jsstring) : cache :=
  match readFile dir file with
  | Some content => setOwn c file (parseContent content)
  | None => c
  end.

(** [loadFiles] run alone: the cache is emptied, then each file is stored
    when its read completes; [order] is the order in which the reads
    complete. *)
Definition loadFiles (dir : directory) (order : list jsstring) : cache :=
  fold_left (storeFile dir) order [].

(** *** The amount of a line *)

(** [x || '0'] on a field that may be [undefined]. *)
Definition orZeroText (x : option jsstring) : jsstring :=
  match x with
  | None | Some [] => lit "0"
  | Some s => s
  end.

Definition debitOf (line : row) : number := parseFloat (orZeroText (nth_error line 3)).
Definition creditOf (line : row) : number := parseFloat (orZeroText (nth_error line 4)).

(** [parseFloat(debit || '0') - parseFloat(credit || '0')] *)
Definition amount (line : row) : number := sub (debitOf line) (creditOf line).

(** The key under which the account field of a line is stored. *)
Definition accountKey (line : row) : jsstring := propertyKey (nth_error line 1).

(** *** accounts *)

(** What [accountBalances] can hold at run time: a Number, or the string
    that [+=] builds when the property read was an inherited function or
    object (its text is never looked at). *)
Inductive slot :=
  | Num (x : number)
  | Str.

(** The body of the inner loop of [accounts]:
    [if (!accountBalances[account]) accountBalances[account] = 0;
     accountBalances[account] += amount].
    The read goes through the prototype chain.  An own Number that is falsy
    is first set to 0; an own string is truthy and [+=] appends to it; a
    missing property is [undefined], unless [Object.prototype] defines the
    name: an inherited function is truthy and [+=] stores a string as a new
    own property, and for [__proto__] the string goes to the inherited
    setter, which ignores a value that is not an object. *)
Definition accountsStep (bal : obj slot) (line : row) : obj slot :=
  let account := accountKey line in
  match getOwn bal account with
  | Some (Num b) =>
      setOwn bal account (Num (add (if truthy b then b else pzero) (amount line)))
  | Some Str => setOwn bal account Str
  | None =>
      if eqb account protoAccessor then bal
      else if isInherited account then setOwn bal account Str
      else setOwn bal account (Num (add pzero (amount line)))
  end.

Definition accountBalances (c : cache) : obj slot :=
  fold_left (fun bal lines => fold_left accountsStep lines bal) (values c) [].

(** [`${account},${balance.toFixed(2)}`] *)
Definition balanceLine (account : jsstring) (balance : number) : jsstring :=
  account ++ lit "," ++ toFixed2 balance.

(** The output loop: [balance.toFixed] of a string is not a function. *)
Fixpoint accountLines (es : list (jsstring * slot)) : completion (list jsstring) :=
  match es with
  | [] => Normal []
  | (account, Num balance) :: es' =>
      match accountLines es' with
      | Normal out => Normal (balanceLine account balance :: out)
      | TypeError => TypeError
      end
  | (_, Str) :: _ => TypeError
  end.

(** The lines that [accounts] joins and writes to [out/accounts.csv]. *)
Definition accounts (c : cache) : completion (list jsstring) :=
  match accountLines (entries (accountBalances c)) with
  | Normal out => Normal (lit "Account,Balance" :: out)
  | TypeError => TypeError
  end.

(** *** yearly *)

(** Files other than the one named [skip], in enumeration order. *)
Definition filesExcept (skip : jsstring) (c : cache) : list (list row) :=
  map snd (filter (fun e => negb (eqb (fst e) skip)) (entries c)).

(** [new Date(date).getFullYear()], as the property key it becomes; a
    missing date field is [undefined], which makes an invalid date. *)
Definition yearOf (h : host) (line : row) : jsstring :=
  yearToString (getFullYear h (match nth_error line 0 with
                               | Some date => newDate h date
                               | None => None
                               end)).

(** The body of the inner loop of [yearly].  The keys are texts of
    Numbers, none of which [Object.prototype] defines. *)
Definition yearlyStep (h : host) (cashByYear : obj number) (line : row) : obj number :=
  match nth_error line 1 with
  | Some account =>
      if eqb account (lit "Cash") then
        let year := yearOf h line in
        let b := match getOwn cashByYear year with
                 | Some b => if truthy b then b else pzero
                 | None => pzero
                 end in
        setOwn cashByYear year (add b (amount line))
      else cashByYear
  | None => cashByYear
  end.

Definition cashByYear (h : host) (c : cache) : obj number :=
  fold_left (fun o lines => fold_left (yearlyStep h) lines o)
            (filesExcept (lit "yearly.csv") c) [].

(** The lines that [yearly] joins and writes to [out/yearly.csv]; every
    key of the loop is an own property, so the read finds a Number. *)
Definition yearly (h : host) (c : cache) : list jsstring :=
  let o := cashByYear h c in
  lit "Financial Year,Cash Balance"
  :: map (fun year =>
            balanceLine year (match getOwn o year with Some b => b | None => NaN end))
         (sort leb (keys o)).

(** *** fs *)

Definition Revenues : list jsstring := map lit ["Sales Revenue"]%string.
Definition Expenses : list jsstring :=
  map lit ["Cost of Goods Sold"; "Salaries Expense"; "Rent Expense";
           "Utilities Expense"; "Interest Expense"; "Tax Expense"]%string.
Definition Assets : list jsstring :=
  map lit ["Cash"; "Accounts Receivable"; "Inventory"; "Fixed Assets";
           "Prepaid Expenses"]%string.
Definition Liabilities : list jsstring :=
  map lit ["Accounts Payable"; "Loan Payable"; "Sales Tax Payable";
           "Accrued Liabilities"; "Unearned Revenue"; "Dividends Payable"]%string.
Definition Equity : list jsstring :=
  map lit ["Common Stock"; "Retained Earnings"]%string.

(** [categories], section by section, group by group. *)
Definition categories : list (list (list jsstring)) :=
  [[Revenues; Expenses]; [Assets; Liabilities; Equity]].

(** Every account of the taxonomy starts at 0. *)
Definition seedBalances : obj number :=
  fold_left (fun o section =>
    fold_left (fun o group =>
      fold_left (fun o account => setOwn o account pzero) group o) section o)
    categories [].

(** The body of the inner loop of [fs]; [Object.hasOwn(balances, account)]
    holds exactly when the own property is there. *)
Definition fsStep (balances : obj number) (line : row) : obj number :=
  let account := accountKey line in
  match getOwn balances account with
  | Some b => setOwn balances account (add b (amount line))
  | None => balances
  end.

Definition fsBalances (c : cache) : obj number :=
  fold_left (fun o lines => fold_left fsStep lines o)
            (filesExcept (lit "fs.csv") c) seedBalances.

(** [balances[account] || 0] *)
Definition valueOf (balances : obj number) (account : jsstring) : number :=
  match getOwn balances account with
  | Some b => orZero b
  | None => pzero
  end.

(** The body of the loops over a group: push the account's line, add its
    value to the running total. *)
Definition pushAccount (balances : obj number)
    (st : list jsstring * number) (account : jsstring) : list jsstring * number :=
  let value := valueOf balances account in
  (fst st ++ [balanceLine account value], add (snd st) value).

(** The lines that [fs] joins and writes to [out/fs.csv]. *)
Definition fsLines (balances : obj number) : list jsstring :=
  let output := [lit "Basic Financial Statement"; []; lit "Income Statement"] in
  let '(output, totalRevenue) :=
    fold_left (pushAccount balances) Revenues (output, pzero) in
  let '(output, totalExpenses) :=
    fold_left (pushAccount balances) Expenses (output, pzero) in
  let output :=
    output ++ [lit "Net Income," ++ toFixed2 (sub totalRevenue totalExpenses);
               []; lit "Balance Sheet"] in
  let output := output ++ [lit "Assets"] in
  let '(output, totalAssets) :=
    fold_left (pushAccount balances) Assets (output, pzero) in
  let output :=
    output ++ [lit "Total Assets," ++ toFixed2 totalAssets; []; lit "Liabilities"] in
  let '(output, totalLiabilities) :=
    fold_left (pushAccount balances) Liabilities (output, pzero) in
  let output :=
    output ++ [lit "Total Liabilities," ++ toFixed2 totalLiabilities;
               []; lit "Equity"] in
  let '(output, totalEquity) :=
    fold_left (pushAccount balances) Equity (output, pzero) in
  let output :=
    output ++ [lit "Retained Earnings (Net Income),"
               ++ toFixed2 (sub totalRevenue totalExpenses)] in
  let totalEquity := add totalEquity (sub totalRevenue totalExpenses) in
  let output := output ++ [lit "Total Equity," ++ toFixed2 totalEquity; []] in
  output ++ [lit "Assets = Liabilities + Equity, " ++ toFixed2 totalAssets
             ++ lit " = " ++ toFixed2 (add totalLiabilities totalEquity)].

Definition fs (c : cache) : list jsstring := fsLines (fsBalances c).

(** *** state *)

(** [this.states] *)
Record States := {
  st_accounts : jsstring;
  st_yearly : jsstring;
  st_fs : jsstring
}.

Definition idleStates : States :=
  {| st_accounts := lit "idle"; st_yearly := lit "idle"; st_fs := lit "idle" |}.

(** [keyof typeof this.states] *)
Inductive Scope := ScopeAccounts | ScopeYearly | ScopeFs.

Definition scopeName (scope : Scope) : jsstring :=
  match scope with
  | ScopeAccounts => lit "accounts"
  | ScopeYearly => lit "yearly"
  | ScopeFs => lit "fs"
  end.

(** [state(scope)] as the type checker admits it. *)
Definition state (st : States) (scope : Scope) : jsstring :=
  match scope with
  | ScopeAccounts => st_accounts st
  | ScopeYearly => st_yearly st
  | ScopeFs => st_fs st
  end.

(** What [this.states[scope]] can evaluate to once types are erased. *)
Inductive value :=
  | VString (s : jsstring)
  | VUndefined
  | VInherited.

(** [state(scope)] as it runs, on any string: a property read, which
    completes normally whatever the key. *)
Definition stateAt (st : States) (scope : jsstring) : completion value :=
  if eqb scope (lit "accounts") then Normal (VString (st_accounts st))
  else if eqb scope (lit "yearly") then Normal (VString (st_yearly st))
  else if eqb scope (lit "fs") then Normal (VString (st_fs st))
  else if isInherited scope then Normal VInherited
  else Normal VUndefined.

(** *** The service and its runs *)

(** The fields of a [ReportsService]. *)
Record service := {
  states : States;
  parsedFiles : cache
}.

(** The status query in state-passing form. *)
Definition stateQuery (sv : service) (scope : Scope) : jsstring * service :=
  (state (states sv) scope, sv).

(** The three files under [out], [None] while a file does not exist. *)
Record outputs := {
  accountsCsv : option jsstring;
  yearlyCsv : option jsstring;
  fsCsv : option jsstring
}.

Record world := {
  svc : service;
  out : outputs
}.

(** The elapsed seconds each job reports, already formatted. *)
Record timing := {
  t_accounts : jsstring;
  t_yearly : jsstring;
  t_fs : jsstring
}.

Definition finished (elapsed : jsstring) : jsstring := lit "finished in " ++ elapsed.

(** [output.join('\n')] *)
Definition joinLines (lines : list jsstring) : jsstring := join [chLF] lines.

(** [generateAllReports] run alone, all reads and writes succeeding: load,
    then the three jobs over the loaded cache; the result is the world once
    the three jobs have settled.  When [accounts] throws, its status stays
    at [starting] and its file as it was, and the promise that
    [generateAllReports] returns rejects at once, while [yearly] and [fs]
    are still at [starting] with their writes pending: nothing cancels the
    two, and the world given here is the one they leave when their writes
    have completed, after the call has returned. *)
Definition generateAllReports (h : host) (tm : timing) (dir : directory)
    (order : list jsstring) (w : world) : world :=
  let c := loadFiles dir order in
  let acc := accounts c in
  {| svc := {| states :=
                 {| st_accounts := match acc with
                                   | Normal _ => finished (t_accounts tm)
                                   | TypeError => lit "starting"
                                   end;
                    st_yearly := finished (t_yearly tm);
                    st_fs := finished (t_fs tm) |};
               parsedFiles := c |};
     out := {| accountsCsv := match acc with
                              | Normal lines => Some (joinLines lines)
                              | TypeError => accountsCsv (out w)
                              end;
               yearlyCsv := Some (joinLines (yearly h c));
               fsCsv := Some (joinLines (fs c)) |} |}.

(** *** Runs that overlap

    The service is one object on one thread: between two [await]s a run
    is not interrupted, and at an [await] any other run may go on.  A run
    is awaiting [readdir], or some [readFile]s, or has handed the cache to
    its jobs, which read it through before their first [await]. *)
Inductive phase :=
  | AwaitReaddir
  | Loading (pending : list jsstring)
  | Reporting (seen : cache).

Record sys := {
  cacheNow : cache;
  phases : list (nat * phase)
}.

Inductive event :=
  | Start (r : nat)
  | ReaddirDone (r : nat)
  | ReadDone (r : nat) (file : jsstring).

Definition isStart (e : event) : bool :=
  match e with Start _ => true | _ => false end.

Fixpoint phaseOf (ps : list (nat * phase)) (r : nat) : option phase :=
  match ps with
  | [] => None
  | (r', p) :: ps' => if Nat.eqb r r' then Some p else phaseOf ps' r
  end.

Fixpoint setPhase (ps : list (nat * phase)) (r : nat) (p : phase) : list (nat * phase) :=
  match ps with
  | [] => [(r, p)]
  | (r', p') :: ps' =>
      if Nat.eqb r r' then (r', p) :: ps' else (r', p') :: setPhase ps' r p
  end.

Definition removeFile (file : jsstring) (pending : list jsstring) : list jsstring :=
  filter (fun f => negb (eqb f file)) pending.

(** What a run does next once its awaited files are [pending]: wait, or,
    none being left, go on to the jobs with the cache as it is now. *)
Definition afterLoad (c : cache) (pending : list jsstring) : phase :=
  match pending with
  | [] => Reporting c
  | _ => Loading pending
  end.

(** One event; [None] when the event cannot happen in this state. *)
Definition step (dir : directory) (s : sys) (e : event) : option sys :=
  match e with
  | Start r =>
      match phaseOf (phases s) r with
      | None => Some {| cacheNow := []; phases := (r, AwaitReaddir) :: phases s |}
      | Some _ => None
      end
  | ReaddirDone r =>
      match phaseOf (phases s) r with
      | Some AwaitReaddir =>
          Some {| cacheNow := cacheNow s;
                  phases := setPhase (phases s) r (afterLoad (cacheNow s) (csvFiles dir)) |}
      | _ => None
      end
  | ReadDone r file =>
      match phaseOf (phases s) r with
      | Some (Loading pending) =>
          if existsb (eqb file) pending then
            let c := storeFile dir (cacheNow s) file in
            Some {| cacheNow := c;
                    phases := setPhase (phases s) r (afterLoad c (removeFile file pending)) |}
          else None
      | _ => None
      end
  end.

Fixpoint exec (dir : directory) (s : sys) (tr : list event) : option sys :=
  match tr with
  | [] => Some s
  | e :: tr' =>
      match step dir s e with
      | Some s' => exec dir s' tr'
      | None => None
      end
  end.

(** A service on which no run has started. *)
Definition initial (c : cache) : sys := {| cacheNow := c; phases := [] |}.

End Reports.

(** ** The properties, in the words of the specification *)

Module Spec.
Import JsString JsNumber JsObject JsDate Reports.

(** All lines of the cache, file after file. *)
Definition allRows (c : cache) : list row := concat (values c).

(** The lines of every file but [skip]. *)
Definition rowsExcept (skip : jsstring) (c : cache) : list row :=
  concat (filesExcept skip c).

(** The distinct elements of a list, each at its first occurrence. *)
Fixpoint firstSeen (seen ks : list jsstring) : list jsstring :=
  match ks with
  | [] => []
  | k :: ks' =>
      if existsb (eqb k) seen then firstSeen seen ks'
      else k :: firstSeen (k :: seen) ks'
  end.

(** The accounts of the lines, in first-seen order. *)
Definition accountsSeen (rows : list row) : list jsstring :=
  firstSeen [] (map accountKey rows).

(** The order in which an object enumerates keys created in the order
    [ks]: array indices ascending, then the rest as created. *)
Definition enumeration (ks : list jsstring) : list jsstring :=
  sort (fun a b => indexOf a <=? indexOf b) (filter isArrayIndex ks)
  ++ filter (fun k => negb (isArrayIndex k)) ks.

(** The amounts of the lines of one account, in order. *)
Definition amountsOf (account : jsstring) (rows : list row) : list number :=
  map amount (filter (fun line => eqb (accountKey line) account) rows).

(** The binary64 sum taken left to right from 0. *)
Definition total (xs : list number) : number := fold_left add xs pzero.

(** No running total of the sum is NaN. *)
Fixpoint noNaNTotal (acc : number) (xs : list number) : bool :=
  match xs with
  | [] => true
  | x :: xs' => negb (isNaN (add acc x)) && noNaNTotal (add acc x) xs'
  end.

(** The lines whose account field is [Cash]. *)
Definition isCash (line : row) : bool :=
  match nth_error line 1 with
  | Some account => eqb account (lit "Cash")
  | None => false
  end.

Definition cashRows (rows : list row) : list row := filter isCash rows.

(** The lines of a group of the statement, and its total. *)
Definition groupLines (v : jsstring -> number) (group : list jsstring) : list jsstring :=
  map (fun account => balanceLine account (v account)) group.

Definition groupTotal (v : jsstring -> number) (group : list jsstring) : number :=
  fold_left (fun t account => add t (v account)) group pzero.

(** The layout of the statement for the account values [v]. *)
Definition statement (v : jsstring -> number) : list jsstring :=
  let netIncome := sub (groupTotal v Revenues) (groupTotal v Expenses) in
  let totalEquity := add (groupTotal v Equity) netIncome in
  [lit "Basic Financial Statement"; []; lit "Income Statement"]
  ++ groupLines v Revenues
  ++ groupLines v Expenses
  ++ [lit "Net Income," ++ toFixed2 netIncome; []; lit "Balance Sheet"; lit "Assets"]
  ++ groupLines v Assets
  ++ [lit "Total Assets," ++ toFixed2 (groupTotal v Assets); []; lit "Liabilities"]
  ++ groupLines v Liabilities
  ++ [lit "Total Liabilities," ++ toFixed2 (groupTotal v Liabilities); []; lit "Equity"]
  ++ groupLines v Equity
  ++ [lit "Retained Earnings (Net Income)," ++ toFixed2 netIncome;
      lit "Total Equity," ++ toFixed2 totalEquity; [];
      lit "Assets = Liabilities + Equity, " ++ toFixed2 (groupTotal v Assets)
      ++ lit " = " ++ toFixed2 (add (groupTotal v Liabilities) totalEquity)].

(** *** What the specification says of the formats *)

(** A finite Number that [toFixed] prints in fixed notation. *)
Definition fixedNotation (x : number) : bool :=
  match x with
  | S754_zero _ => true
  | S754_finite _ m e => negb ((0 <=? e) && (10 ^ 21 <=? Zpos m * 2 ^ e))
  | _ => false
  end.

(** An optional minus sign, digits, a point, exactly two digits. *)
Definition twoDecimals (s : jsstring) : Prop :=
  exists sign ip d1 d2,
    s = sign ++ ip ++ [chDot; d1; d2]
    /\ (sign = [] \/ sign = lit "-")
    /\ ip <> []
    /\ forallb isDigit (ip ++ [d1; d2]) = true.

(** The Account Balances lines as the specification words them: one line
    per account, in first-seen order. *)
Definition accountsSpecified (c : cache) : list jsstring :=
  lit "Account,Balance"
  :: map (fun a => balanceLine a (total (amountsOf a (allRows c))))
         (accountsSeen (allRows c)).

(** *** Example directories *)

(** The text of a file, from its lines. *)
Definition text (ls : list string) : jsstring := join [chLF] (map lit ls).

Definition aCsv : jsstring := lit "a.csv".
Definition bCsv : jsstring := lit "b.csv".

Definition dirScenario : directory :=
  [(aCsv, text ["2023-01-01,Cash,,100,0"; "2023-02-01,Sales Revenue,,0,100"]%string)].

Definition dirIndexNames : directory :=
  [(aCsv, text ["2023-01-01,2,,1,0"; "2023-01-02,1,,1,0"]%string)].


Definition dirRestart : directory :=
  [(aCsv, text ["2023-01-01,Rent,,5,0"; "2023-01-02,Rent,,abc,0";
                "2023-01-03,Rent,,3,0"]%string)].

Definition dirSubCent : directory :=
  [(aCsv, text ["2023-01-01,Cash,,0.004,0";
                "2023-01-01,Accounts Receivable,,0.004,0"]%string)].

Definition dirYears : directory :=
  [(aCsv, text ["2023-01-01,Cash,,1,0"; "0999-01-01,Cash,,2,0"]%string);
   (lit "yearly.csv", text ["2024-01-01,Cash,,5,0"]%string)].

Definition dirTwoFiles : directory :=
  [(aCsv, text ["2023-01-01,Cash,,1,0"]%string);
   (bCsv, text ["2023-01-01,Rent Expense,,2,0"]%string)].

Definition dirEmptyFile : directory := [(aCsv, [])].

(** The cache of the scenario of the specification. *)
Definition cacheScenario : cache := loadFiles dirScenario [aCsv].

(** Two runs overlap: the second starts while the first awaits [b.csv]. *)
Definition overlappingRuns : list event :=
  [Start 1; ReaddirDone 1; ReadDone 1 aCsv; Start 2; ReadDone 1 bCsv].

(** One run alone, [b.csv] read before [a.csv]. *)
Definition runAlone : list event :=
  [ReaddirDone 1; ReadDone 1 bCsv; ReadDone 1 aCsv].

(** The time value of 2023-01-01T00:00:00Z. *)
Definition newYear2023 : Z := 1672531200000.

(** A service that has not run, and no output file yet. *)
Definition freshWorld : world :=
  {| svc := {| states := idleStates; parsedFiles := [] |};
     out := {| accountsCsv := None; yearlyCsv := None; fsCsv := None |} |}.

Definition someTiming : timing :=
  {| t_accounts := lit "0.01"; t_yearly := lit "0.01"; t_fs := lit "0.02" |}.

(** *** Auxiliary definitions of the proofs *)

(** [g] applied to every value of an object. *)
Definition mapValues {V W : Type} (g : V -> W) (o : obj V) : obj W :=
  map (fun e => (fst e, g (snd e))) o.

(** The value a falsy or missing property is restarted from. *)
Definition restart (cur : option number) : number :=
  match cur with
  | Some b => if truthy b then b else pzero
  | None => pzero
  end.

Section Accum.
Context {R : Type} (key : R -> jsstring) (val : R -> number).
Context (f : option number -> number -> number).

(** [if (!o[k]) o[k] = 0; o[k] += v], and its like. *)
Definition accum (o : obj number) (r : R) : obj number :=
  setOwn o (key r) (f (getOwn o (key r)) (val r)).

Definition valuesOf (k : jsstring) (rows : list R) : list number :=
  map val (filter (fun r => eqb (key r) k) rows).

End Accum.

(** Equal, or zeros of either sign. *)
Definition sameValue (x y : number) : Prop :=
  x = y \/ (exists s t, x = S754_zero s /\ y = S754_zero t).

(** [if (!b[k]) b[k] = 0; b[k] += x] on Numbers. *)
Definition restartAdd (cur : option number) (x : number) : number :=
  add (restart cur) x.

Definition numBalances (rows : list row) : obj number :=
  fold_left (accum accountKey amount restartAdd) rows [].

(** The accounts of the taxonomy, in the order of the statement. *)
Definition taxonomy : list jsstring :=
  Revenues ++ Expenses ++ Assets ++ Liabilities ++ Equity.

Section Dir.
Variable dir : directory.

(** What a file of the directory parses to. *)
Definition parsed (file : jsstring) : option (list row) :=
  option_map parseContent (readFile dir file).

(** The cache that holds each [.csv] file with its lines, and no more. *)
Definition loaded (c : cache) : Prop :=
  forall file,
    getOwn c file =
    if existsb (eqb file) (csvFiles dir) then parsed file else None.

(** Whatever the cache holds is a [.csv] file with its lines. *)
Definition sound (c : cache) : Prop :=
  forall file rows,
    getOwn c file = Some rows ->
    existsb (eqb file) (csvFiles dir) = true /\ parsed file = Some rows.

Definition pendingOk (s : sys) : Prop :=
  forall r p, phaseOf (phases s) r = Some (Loading p) -> incl p (csvFiles dir).

Definition runOk (r : nat) (s : sys) : Prop :=
  match phaseOf (phases s) r with
  | Some AwaitReaddir => True
  | Some (Loading p) =>
      forall file, In file (csvFiles dir) ->
                   In file p \/ getOwn (cacheNow s) file = parsed file
  | Some (Reporting seen) => loaded seen
  | None => False
  end.

(** The invariant of a run while no other run starts. *)
Definition inv (r : nat) (s : sys) : Prop :=
  sound (cacheNow s) /\ pendingOk s /\ runOk r s.

End Dir.

End Spec.

(** ** Further properties of the service, in words of the code *)

Module MoreSpec.
Import JsString JsNumber JsObject JsDate Reports Spec.

(** The year keys of the Cash lines, in first-seen order. *)
Definition yearsSeen (h : host) (rows : list row) : list jsstring :=
  firstSeen [] (map (yearOf h) (cashRows rows)).

(** The amounts of the Cash lines of one year key, in order. *)
Definition amountsOfYear (h : host) (year : jsstring) (rows : list row) : list number :=
  map amount (filter (fun line => eqb (yearOf h line) year) (cashRows rows)).

(** The lines whose account is not [__proto__]. *)
Definition notProto (line : row) : bool := negb (eqb (accountKey line) protoAccessor).

(** What the balances object keeps while lines are processed: distinct
    keys, no own [__proto__], strings under the names of inherited
    functions only and Numbers under other names only. *)
Definition balancesOk (bal : obj slot) : Prop :=
  NoDup (map fst bal)
  /\ getOwn bal protoAccessor = None
  /\ (forall k, getOwn bal k = Some Str -> In k inheritedFunctions)
  /\ (forall k b, getOwn bal k = Some (Num b) -> ~ In k inheritedFunctions).

(** The year, the month and the day that a date of ten characters writes. *)
Definition writtenYear (date : jsstring) : Z := digitsVal (firstn 4 date).
Definition writtenMonth (date : jsstring) : Z := digitsVal (firstn 2 (skipn 5 date)).
Definition writtenDay (date : jsstring) : Z := digitsVal (skipn 8 date).

(** *** Ledgers of whole amounts *)

(** The binary64 number that holds the integer [n], for [|n| < 2^53]. *)
Definition wholeNumber (n : Z) : number :=
  match n with
  | Z0 => S754_zero false
  | Zpos p =>
      S754_finite false (Z.to_pos (Zpos p * 2 ^ (53 - Zpos (digits2_pos p))))
                  (Zpos (digits2_pos p) - 53)
  | Zneg p =>
      S754_finite true (Z.to_pos (Zpos p * 2 ^ (53 - Zpos (digits2_pos p))))
                  (Zpos (digits2_pos p) - 53)
  end.

(** [debit || '0'] and [credit || '0'], the texts that [parseFloat] reads. *)
Definition debitText (line : row) : jsstring := orZeroText (nth_error line 3).
Definition creditText (line : row) : jsstring := orZeroText (nth_error line 4).

(** Both amount fields are missing, empty or runs of decimal digits. *)
Definition isWhole (line : row) : bool :=
  forallb isDigit (debitText line) && forallb isDigit (creditText line).

(** Debit minus credit of such a line, as an integer. *)
Definition wholeAmount (line : row) : Z :=
  digitsVal (debitText line) - digitsVal (creditText line).

(** The sum of all debit and credit figures of the lines. *)
Definition turnover (rows : list row) : Z :=
  fold_right (fun line t => digitsVal (debitText line) + digitsVal (creditText line) + t)
             0 rows.

(** The integer balance of an account: the sum of debit minus credit over
    its lines. *)
Definition wholeBalance (account : jsstring) (rows : list row) : Z :=
  fold_right Z.add 0
    (map wholeAmount (filter (fun line => eqb (accountKey line) account) rows)).

(** The integer [n] with two zero decimals, [n.00]. *)
Definition wholeText (n : Z) : jsstring := intToString n ++ lit ".00".

(** [label,n.00] *)
Definition wholeLine (label : jsstring) (n : Z) : jsstring :=
  label ++ lit "," ++ wholeText n.

(** The sum of the integer balances of a group of accounts. *)
Definition groupWhole (w : jsstring -> Z) (group : list jsstring) : Z :=
  fold_right Z.add 0 (map w group).

(** The statement for integer account balances [w], every figure computed
    in the integers. *)
Definition wholeStatement (w : jsstring -> Z) : list jsstring :=
  let netIncome := groupWhole w Revenues - groupWhole w Expenses in
  let totalEquity := groupWhole w Equity + netIncome in
  [lit "Basic Financial Statement"; []; lit "Income Statement"]
  ++ map (fun a => wholeLine a (w a)) Revenues
  ++ map (fun a => wholeLine a (w a)) Expenses
  ++ [wholeLine (lit "Net Income") netIncome; []; lit "Balance Sheet"; lit "Assets"]
  ++ map (fun a => wholeLine a (w a)) Assets
  ++ [wholeLine (lit "Total Assets") (groupWhole w Assets); []; lit "Liabilities"]
  ++ map (fun a => wholeLine a (w a)) Liabilities
  ++ [wholeLine (lit "Total Liabilities") (groupWhole w Liabilities); []; lit "Equity"]
  ++ map (fun a => wholeLine a (w a)) Equity
  ++ [wholeLine (lit "Retained Earnings (Net Income)") netIncome;
      wholeLine (lit "Total Equity") totalEquity; [];
      lit "Assets = Liabilities + Equity, "
      ++ wholeText (groupWhole w Assets) ++ lit " = "
      ++ wholeText (groupWhole w Liabilities + totalEquity)].

(** The integer Cash balance of a year: the sum of debit minus credit over
    the Cash lines of that year. *)
Definition wholeYear (h : host) (year : jsstring) (rows : list row) : Z :=
  fold_right Z.add 0
    (map wholeAmount (filter (fun line => eqb (yearOf h line) year) (cashRows rows))).

(** *** Files with CRLF line ends *)

Definition chCR : N := 13.

(** A row whose last field has a carriage return appended. *)
Definition withCR (r : row) : row := removelast r ++ [last r [] ++ [chCR]].

End MoreSpec.

(** ** The ticket controller of [src/tickets/tickets.controller.ts] *)

Module Tickets.

(** The members of the enums that the controller names.  The enums are
    declared with the models, in [db/models]: a request may carry any other
    type, and a stored ticket any other status or category. *)
Inductive TicketType :=
  | managementReport
  | registrationAddressChange
  | strikeOff
  | otherType.

Inductive TicketCategory := accounting | corporate | management | otherCategory.

Inductive TicketStatus := open | resolved | otherStatus.

Inductive UserRole := accountant | corporateSecretary | director.

(** What the controller reads of a [User]: its [id]. *)
Record User := { user_id : Z }.

(** What the controller reads of a [Ticket]. *)
Record Ticket := {
  ticket_id : Z;
  ticket_type : TicketType;
  ticket_companyId : Z;
  ticket_assigneeId : Z;
  ticket_status : TicketStatus;
  ticket_category : TicketCategory
}.

(** [newTicketDto] *)
Record newTicketDto := {
  type : TicketType;
  companyId : Z
}.

(** [TicketDto] *)
Record TicketDto := {
  dto_id : Z;
  dto_type : TicketType;
  dto_companyId : Z;
  dto_assigneeId : Z;
  dto_status : TicketStatus;
  dto_category : TicketCategory
}.

(** The values handed to [Ticket.create]. *)
Record ticketValues := {
  new_companyId : Z;
  new_assigneeId : Z;
  new_category : TicketCategory;
  new_type : TicketType;
  new_status : TicketStatus
}.

(** The calls the controller makes on the models, over a database [DB];
    each call succeeds.
    - [User_findOne db c r]: [User.findOne] where [companyId] is [c] and
      [role] is [r], ordered by [createdAt] descending;
    - [User_findAll db c r]: [User.findAll] with the same condition;
    - [Ticket_findOne db c t s]: [Ticket.findOne] where [companyId], [type]
      and [status] are [c], [t] and [s];
    - [Ticket_create db v]: [Ticket.create(v)], the instance and the
      database after it;
    - [Ticket_resolve db c]: [Ticket.update({status: resolved})] where
      [companyId] is [c] and [status] is [open];
    - [Ticket_findAll db]: [Ticket.findAll]. *)
Record orm (DB : Type) := {
  User_findOne : DB -> Z -> UserRole -> option User;
  User_findAll : DB -> Z -> UserRole -> list User;
  Ticket_findOne : DB -> Z -> TicketType -> TicketStatus -> option Ticket;
  Ticket_create : DB -> ticketValues -> Ticket * DB;
  Ticket_resolve : DB -> Z -> DB;
  Ticket_findAll : DB -> list Ticket
}.

Arguments User_findOne {DB}.
Arguments User_findAll {DB}.
Arguments Ticket_findOne {DB}.
Arguments Ticket_create {DB}.
Arguments Ticket_resolve {DB}.
Arguments Ticket_findAll {DB}.

(** The [ConflictException]s of [create], by their message. *)
Inductive conflict :=
  | CannotFindUser (role : UserRole)
  | AlreadyOpen
  | MultipleUsers (role : UserRole)
  | MultipleUsersStrikeOff
  | NotSupported.

(** How a request ends: the response, a [ConflictException], or the
    [TypeError] of reading [id] of [undefined]. *)
Inductive outcome :=
  | Created (dto : TicketDto)
  | Conflict (reason : conflict)
  | TypeError.

(** The [switch] of [create]: the category and the assignee, which is
    [undefined] ([None]) when [directors[0]] is read of an empty array. *)
Definition choose {DB : Type} (o : orm DB) (db : DB) (ty : TicketType) (c : Z)
    : conflict + TicketCategory * option User :=
  match ty with
  | managementReport =>
      match User_findOne o db c accountant with
      | None => inl (CannotFindUser accountant)
      | Some accountants => inr (accounting, Some accountants)
      end
  | registrationAddressChange =>
      match Ticket_findOne o db c registrationAddressChange open with
      | Some _ => inl AlreadyOpen
      | None =>
          let corporateSecretaries := User_findAll o db c corporateSecretary in
          if (1 <? length corporateSecretaries)%nat then
            inl (MultipleUsers corporateSecretary)
          else if (length corporateSecretaries =? 0)%nat then
            let assigneeDirectors := User_findAll o db c director in
            if (1 <? length assigneeDirectors)%nat then
              inl (MultipleUsers director)
            else if (length assigneeDirectors =? 0)%nat then
              inl (CannotFindUser director)
            else inr (corporate, nth_error assigneeDirectors 0)
          else inr (corporate, nth_error corporateSecretaries 0)
      end
  | strikeOff =>
      let directors := User_findAll o db c director in
      if (1 <? length directors)%nat then inl MultipleUsersStrikeOff
      else inr (management, nth_error directors 0)
  | otherType => inl NotSupported
  end.

Definition isStrikeOff (ty : TicketType) : bool :=
  match ty with strikeOff => true | _ => false end.

Definition dtoOf (ticket : Ticket) : TicketDto :=
  {| dto_id := ticket_id ticket;
     dto_type := ticket_type ticket;
     dto_companyId := ticket_companyId ticket;
     dto_assigneeId := ticket_assigneeId ticket;
     dto_status := ticket_status ticket;
     dto_category := ticket_category ticket |}.

(** [create], one request run alone: how it ends and the database after
    it. *)
Definition create {DB : Type} (o : orm DB) (db : DB) (body : newTicketDto)
    : outcome * DB :=
  let ty := type body in
  let c := companyId body in
  match choose o db ty c with
  | inl reason => (Conflict reason, db)
  | inr (_, None) => (TypeError, db)
  | inr (category, Some assignee) =>
      let (ticket, db1) :=
        Ticket_create o db
          {| new_companyId := c;
             new_assigneeId := user_id assignee;
             new_category := category;
             new_type := ty;
             new_status := open |} in
      let db2 := if isStrikeOff ty then Ticket_resolve o db1 c else db1 in
      (Created (dtoOf ticket), db2)
  end.

(** [findAll]: the tickets, their included company and users left out. *)
Definition findAll {DB : Type} (o : orm DB) (db : DB) : list Ticket :=
  Ticket_findAll o db.

(** *** Models over tables in memory, for the examples *)

Record userRow := {
  row_user : User;
  row_companyId : Z;
  row_role : UserRole;
  row_createdAt : Z
}.

Record tables := {
  users : list userRow;
  tickets : list Ticket
}.

Definition roleEqb (a b : UserRole) : bool :=
  match a, b with
  | accountant, accountant | corporateSecretary, corporateSecretary
  | director, director => true
  | _, _ => false
  end.

Definition typeEqb (a b : TicketType) : bool :=
  match a, b with
  | managementReport, managementReport
  | registrationAddressChange, registrationAddressChange
  | strikeOff, strikeOff | otherType, otherType => true
  | _, _ => false
  end.

Definition statusEqb (a b : TicketStatus) : bool :=
  match a, b with
  | open, open | resolved, resolved | otherStatus, otherStatus => true
  | _, _ => false
  end.

Definition usersWhere (db : tables) (c : Z) (r : UserRole) : list userRow :=
  filter (fun u => (row_companyId u =? c) && roleEqb (row_role u) r) (users db).

(** The row created last, the first of them in table order. *)
Definition latest (rows : list userRow) : option userRow :=
  fold_left (fun best u =>
               match best with
               | None => Some u
               | Some b => if row_createdAt b <? row_createdAt u then Some u else Some b
               end) rows None.

Definition resolveOpen (c : Z) (t : Ticket) : Ticket :=
  if (ticket_companyId t =? c) && statusEqb (ticket_status t) open then
    {| ticket_id := ticket_id t;
       ticket_type := ticket_type t;
       ticket_companyId := ticket_companyId t;
       ticket_assigneeId := ticket_assigneeId t;
       ticket_status := resolved;
       ticket_category := ticket_category t |}
  else t.

Definition tableOrm : orm tables :=
  {| User_findOne := fun db c r => option_map row_user (latest (usersWhere db c r));
     User_findAll := fun db c r => map row_user (usersWhere db c r);
     Ticket_findOne := fun db c t s =>
       find (fun k => (ticket_companyId k =? c) && typeEqb (ticket_type k) t
                      && statusEqb (ticket_status k) s) (tickets db);
     Ticket_create := fun db v =>
       let ticket :=
         {| ticket_id := 1 + Z.of_nat (length (tickets db));
            ticket_type := new_type v;
            ticket_companyId := new_companyId v;
            ticket_assigneeId := new_assigneeId v;
            ticket_status := new_status v;
            ticket_category := new_category v |} in
       (ticket, {| users := users db; tickets := tickets db ++ [ticket] |});
     Ticket_resolve := fun db c =>
       {| users := users db; tickets := map (resolveOpen c) (tickets db) |};
     Ticket_findAll := tickets |}.

(** The open registration address change tickets of a company. *)
Definition isOpenAddressChange (c : Z) (t : Ticket) : bool :=
  (ticket_companyId t =? c) && typeEqb (ticket_type t) registrationAddressChange
  && statusEqb (ticket_status t) open.

Definition openAddressChanges (c : Z) (ts : list Ticket) : list Ticket :=
  filter (isOpenAddressChange c) ts.

(** No company has two open registration address change tickets. *)
Definition atMostOneOpen (ts : list Ticket) : Prop :=
  forall c, (length (openAddressChanges c ts) <= 1)%nat.

(** What the controller relies on of the models: [findOne] finds a ticket
    when one matches, [create] stores one ticket more, which carries the
    values given, and [update] changes the status of the open tickets of the
    company and nothing else.  The order of the stored tickets is left
    open. *)
Record lawful {DB : Type} (o : orm DB) : Prop := {
  law_findOne : forall db c,
    Ticket_findOne o db c registrationAddressChange open = None ->
    openAddressChanges c (Ticket_findAll o db) = [];
  law_create : forall db v,
    Permutation (Ticket_findAll o (snd (Ticket_create o db v)))
                (fst (Ticket_create o db v) :: Ticket_findAll o db);
  law_created : forall db v,
    ticket_type (fst (Ticket_create o db v)) = new_type v
    /\ ticket_companyId (fst (Ticket_create o db v)) = new_companyId v
    /\ ticket_status (fst (Ticket_create o db v)) = new_status v;
  law_resolve : forall db c,
    Permutation (Ticket_findAll o (Ticket_resolve o db c))
                (map (resolveOpen c) (Ticket_findAll o db))
}.

(** A company with one director, and nothing else. *)
Definition oneDirector : tables :=
  {| users := [{| row_user := {| user_id := 7 |}; row_companyId := 1;
                  row_role := director; row_createdAt := 0 |}];
     tickets := [] |}.

Definition noTables : tables := {| users := []; tickets := [] |}.

End Tickets.

(** ** Facts about the run-time model *)

Module Facts.
Import JsString JsNumber JsObject JsDate Reports Spec.

Lemma eqb_eq (s t : jsstring) : eqb s t = true <-> s = t.
Proof.
  revert t; induction s as [|a s IH]; intros [|b t]; simpl; split;
    try congruence; try reflexivity.
  - intros H. apply andb_true_iff in H as [Hab Hst].
    apply N.eqb_eq in Hab. apply IH in Hst. congruence.
  - intros H. injection H as -> ->. rewrite N.eqb_refl. simpl. now apply IH.
Qed.

Lemma eqb_refl (s : jsstring) : eqb s s = true.
Proof. now apply eqb_eq. Qed.

Lemma eqb_neq (s t : jsstring) : eqb s t = false <-> s <> t.
Proof.
  split.
  - intros H E. apply eqb_eq in E. congruence.
  - intros H. destruct (eqb s t) eqn:E; [|reflexivity].
    apply eqb_eq in E. contradiction.
Qed.

Lemma existsb_eqb_In (k : jsstring) (l : list jsstring) :
  existsb (eqb k) l = true <-> In k l.
Proof.
  rewrite existsb_exists. split.
  - intros (x & Hx & E). apply eqb_eq in E. now subst.
  - intros H. exists k. split; [assumption | apply eqb_refl].
Qed.

(** *** Sorting *)

Section SortFacts.
Context {A : Type} (le : A -> A -> bool).

Lemma insert_perm (x : A) (l : list A) : Permutation (x :: l) (insert le x l).
Proof.
  induction l as [|y l IH]; simpl; [reflexivity|].
  destruct (le x y); [reflexivity|].
  rewrite perm_swap. now constructor.
Qed.

Lemma sort_perm (l : list A) : Permutation l (sort le l).
Proof.
  induction l as [|x l IH]; simpl; [constructor|].
  rewrite <- insert_perm. now constructor.
Qed.

Lemma sort_In (x : A) (l : list A) : In x (sort le l) <-> In x l.
Proof.
  split; apply Permutation_in;
    [symmetry; apply sort_perm | apply sort_perm].
Qed.

Hypothesis le_total : forall a b, le a b = true \/ le b a = true.

Lemma insert_sorted (x : A) (l : list A) :
  Sorted (fun a b => le a b = true) l ->
  Sorted (fun a b => le a b = true) (insert le x l).
Proof.
  induction 1 as [|y l Hs IH Hhd]; simpl.
  - repeat constructor.
  - destruct (le x y) eqn:E.
    + constructor; [constructor; assumption | constructor; assumption].
    + constructor; [assumption|].
      destruct l as [|z l]; simpl in *.
      * constructor. destruct (le_total x y); congruence.
      * destruct (le x z); constructor.
        -- destruct (le_total x y); congruence.
        -- now inversion Hhd.
Qed.

Lemma sort_sorted (l : list A) : Sorted (fun a b => le a b = true) (sort le l).
Proof.
  induction l as [|x l IH]; simpl; [constructor|]. now apply insert_sorted.
Qed.
End SortFacts.

(** Sorting by a key commutes with projecting the key. *)
Lemma insert_map {A B : Type} (g : A -> B) (le : B -> B -> bool) (x : A) (l : list A) :
  map g (insert (fun a b => le (g a) (g b)) x l) = insert le (g x) (map g l).
Proof.
  induction l as [|y l IH]; simpl; [reflexivity|].
  destruct (le (g x) (g y)); simpl; [reflexivity | now rewrite IH].
Qed.

Lemma sort_map {A B : Type} (g : A -> B) (le : B -> B -> bool) (l : list A) :
  map g (sort (fun a b => le (g a) (g b)) l) = sort le (map g l).
Proof.
  induction l as [|x l IH]; simpl; [reflexivity|].
  now rewrite insert_map, IH.
Qed.

Lemma filter_map_comm {A B : Type} (g : A -> B) (p : B -> bool) (l : list A) :
  map g (filter (fun a => p (g a)) l) = filter p (map g l).
Proof.
  induction l as [|x l IH]; simpl; [reflexivity|].
  destruct (p (g x)); simpl; now rewrite IH.
Qed.

(** *** Objects *)

Section ObjFacts.
Context {V : Type}.
Implicit Types (o : obj V) (k : jsstring) (v : V).

Lemma getOwn_setOwn_same o k v : getOwn (setOwn o k v) k = Some v.
Proof.
  induction o as [|[k' v'] o IH]; simpl.
  - now rewrite eqb_refl.
  - destruct (eqb k k') eqn:E; simpl; rewrite E; [reflexivity | assumption].
Qed.

Lemma getOwn_setOwn_other o k k' v :
  k' <> k -> getOwn (setOwn o k v) k' = getOwn o k'.
Proof.
  intros Hne. induction o as [|[k0 v0] o IH]; simpl.
  - apply eqb_neq in Hne. now rewrite Hne.
  - destruct (eqb k k0) eqn:E; simpl.
    + apply eqb_eq in E. subst k0.
      apply eqb_neq in Hne. now rewrite Hne.
    + now rewrite IH.
Qed.

Lemma keys_setOwn o k v :
  map fst (setOwn o k v) =
  if existsb (eqb k) (map fst o) then map fst o else map fst o ++ [k].
Proof.
  induction o as [|[k' v'] o IH]; simpl; [reflexivity|].
  destruct (eqb k k') eqn:E; simpl; [reflexivity|].
  rewrite IH. now destruct (existsb (eqb k) (map fst o)).
Qed.

Lemma In_getOwn o k v :
  NoDup (map fst o) -> In (k, v) o -> getOwn o k = Some v.
Proof.
  induction o as [|[k' v'] o IH]; simpl; [tauto|].
  intros Hnd [E|Hin].
  - injection E as -> ->. now rewrite eqb_refl.
  - inversion Hnd as [|? ? Hnotin Hnd']; subst.
    destruct (eqb k k') eqn:E.
    + apply eqb_eq in E. subst. exfalso. apply Hnotin.
      change k' with (fst (k', v)). now apply in_map.
    + now apply IH.
Qed.

Lemma entries_In o (e : jsstring * V) : In e (entries o) <-> In e o.
Proof.
  unfold entries. rewrite in_app_iff, sort_In, !filter_In.
  destruct (isArrayIndex (fst e)); simpl; intuition congruence.
Qed.

Lemma keys_entries o :
  keys o =
  sort (fun a b => indexOf a <=? indexOf b) (filter isArrayIndex (map fst o))
  ++ filter (fun k => negb (isArrayIndex k)) (map fst o).
Proof.
  unfold keys, entries. rewrite map_app.
  rewrite (sort_map fst (fun a b => indexOf a <=? indexOf b)).
  rewrite (filter_map_comm fst isArrayIndex).
  now rewrite (filter_map_comm fst (fun k => negb (isArrayIndex k))).
Qed.

(** Of an object with distinct keys, the entries are the keys, in
    enumeration order, each with its value. *)
Lemma entries_lookup o (d : V) :
  NoDup (map fst o) ->
  entries o =
  map (fun k => (k, match getOwn o k with Some v => v | None => d end)) (keys o).
Proof.
  intros Hnd. unfold keys. rewrite map_map.
  transitivity (map (fun e : jsstring * V => e) (entries o));
    [symmetry; apply map_id|].
  apply map_ext_in. intros [k v] Hin. simpl.
  apply (proj1 (entries_In _ _)) in Hin. now rewrite (In_getOwn _ _ _ Hnd Hin).
Qed.
End ObjFacts.

(** Keys that are not array indices are enumerated as created. *)
Lemma entries_no_index {V : Type} (o : obj V) :
  forallb (fun e => negb (isArrayIndex (fst e))) o = true -> entries o = o.
Proof.
  intros H. unfold entries.
  assert (E1 : filter (fun e => isArrayIndex (fst e)) o = []).
  { induction o as [|e o IH]; simpl in *; [reflexivity|].
    apply andb_true_iff in H as [H1 H2].
    apply negb_true_iff in H1. rewrite H1. now apply IH. }
  assert (E2 : filter (fun e => negb (isArrayIndex (fst e))) o = o).
  { induction o as [|e o IH]; simpl in *; [reflexivity|].
    apply andb_true_iff in H as [H1 H2]. rewrite H1. f_equal.
    apply IH; [assumption|].
    apply negb_true_iff in H1. rewrite H1 in E1. exact E1. }
  now rewrite E1, E2.
Qed.

Lemma entries_mapValues {V W : Type} (g : V -> W) (o : obj V) :
  entries (mapValues g o) = mapValues g (entries o).
Proof.
  unfold entries, mapValues. rewrite map_app. f_equal.
  - set (le := fun a b : jsstring => indexOf a <=? indexOf b).
    assert (Hins : forall (x : jsstring * V) l,
      insert (fun a b : jsstring * W => le (fst a) (fst b)) (fst x, g (snd x))
             (map (fun e => (fst e, g (snd e))) l)
      = map (fun e => (fst e, g (snd e)))
            (insert (fun a b : jsstring * V => le (fst a) (fst b)) x l)).
    { intros x l. induction l as [|y l IH]; simpl; [reflexivity|].
      destruct (le (fst x) (fst y)); simpl; [reflexivity | now rewrite IH]. }
    induction o as [|x o IH]; simpl; [reflexivity|].
    destruct (isArrayIndex (fst x)); simpl; [|assumption].
    fold le in IH |- *. rewrite IH. apply Hins.
  - induction o as [|x o IH]; simpl; [reflexivity|].
    destruct (isArrayIndex (fst x)); simpl; now rewrite IH.
Qed.

Lemma setOwn_mapValues {V W : Type} (g : V -> W) (o : obj V) k v :
  setOwn (mapValues g o) k (g v) = mapValues g (setOwn o k v).
Proof.
  induction o as [|[k' v'] o IH]; simpl; [reflexivity|].
  destruct (eqb k k'); simpl; [reflexivity | now rewrite IH].
Qed.

Lemma getOwn_mapValues {V W : Type} (g : V -> W) (o : obj V) k :
  getOwn (mapValues g o) k = option_map g (getOwn o k).
Proof.
  induction o as [|[k' v'] o IH]; simpl; [reflexivity|].
  destruct (eqb k k'); simpl; [reflexivity | assumption].
Qed.

End Facts.

(** ** Accumulating into an object, key by key *)

Module Accumulate.
Import JsString JsNumber JsObject JsDate Reports Spec Facts.

Lemma fold_concat {A B : Type} (f : A -> B -> A) (ls : list (list B)) (a : A) :
  fold_left (fun acc l => fold_left f l acc) ls a = fold_left f (concat ls) a.
Proof.
  revert a; induction ls as [|l ls IH]; intros a; simpl; [reflexivity|].
  now rewrite IH, fold_left_app.
Qed.

Section Accum.
Context {R : Type} (key : R -> jsstring) (val : R -> number).
Context (f : option number -> number -> number).

Lemma getOwn_accum (rows : list R) (o : obj number) (k : jsstring) :
  getOwn (fold_left (accum key val f) rows o) k =
  fold_left (fun cur x => Some (f cur x)) (valuesOf key val k rows) (getOwn o k).
Proof.
  revert o; induction rows as [|r rows IH]; intros o; simpl; [reflexivity|].
  rewrite IH. unfold valuesOf. simpl. unfold accum.
  destruct (eqb (key r) k) eqn:E; simpl.
  - apply eqb_eq in E. subst k. now rewrite getOwn_setOwn_same.
  - apply eqb_neq in E. rewrite getOwn_setOwn_other by congruence. reflexivity.
Qed.

Lemma keys_accum (rows : list R) (o : obj number) :
  map fst (fold_left (accum key val f) rows o) =
  map fst o ++ firstSeen (rev (map fst o)) (map key rows).
Proof.
  revert o; induction rows as [|r rows IH]; intros o; simpl.
  - now rewrite app_nil_r.
  - rewrite IH. unfold accum. rewrite keys_setOwn.
    assert (Hrev : existsb (eqb (key r)) (rev (map fst o))
                   = existsb (eqb (key r)) (map fst o)).
    { destruct (existsb (eqb (key r)) (map fst o)) eqn:E.
      - apply existsb_eqb_In. apply in_rev. rewrite rev_involutive.
        now apply existsb_eqb_In.
      - destruct (existsb (eqb (key r)) (rev (map fst o))) eqn:E'; [|reflexivity].
        apply existsb_eqb_In in E'. apply in_rev in E'.
        apply existsb_eqb_In in E'. congruence. }
    rewrite Hrev.
    destruct (existsb (eqb (key r)) (map fst o)); [reflexivity|].
    rewrite rev_app_distr. simpl. now rewrite <- app_assoc.
Qed.
End Accum.

(** [firstSeen] lists distinct keys, those of the list that are not
    already seen. *)
Lemma firstSeen_In (seen ks : list jsstring) (k : jsstring) :
  In k (firstSeen seen ks) <-> In k ks /\ ~ In k seen.
Proof.
  revert seen; induction ks as [|a ks IH]; intros seen; simpl; [tauto|].
  destruct (existsb (eqb a) seen) eqn:E.
  - apply existsb_eqb_In in E. rewrite IH. split.
    + tauto.
    + intros [[->|H] Hn]; [contradiction | tauto].
  - assert (Hn : ~ In a seen).
    { intros H. apply existsb_eqb_In in H. congruence. }
    simpl. rewrite IH. simpl. split.
    + intros [->|[H1 H2]]; [tauto|]. split; [tauto|]. tauto.
    + intros [[->|H1] H2]; [tauto|].
      destruct (list_eq_dec N.eq_dec a k) as [->|Hne]; [tauto|].
      right. split; [assumption|]. intros [H|H]; [contradiction | tauto].
Qed.

Lemma firstSeen_NoDup (seen ks : list jsstring) : NoDup (firstSeen seen ks).
Proof.
  revert seen; induction ks as [|a ks IH]; intros seen; simpl; [constructor|].
  destruct (existsb (eqb a) seen); [apply IH|].
  constructor; [|apply IH].
  rewrite firstSeen_In. simpl. tauto.
Qed.

Lemma keys_accum_NoDup {R : Type} (key : R -> jsstring) (val : R -> number)
    (f : option number -> number -> number) (rows : list R) :
  NoDup (map fst (fold_left (accum key val f) rows [])).
Proof.
  rewrite keys_accum. simpl. apply firstSeen_NoDup.
Qed.

(** *** Sums that restart, and plain sums *)

Lemma sameValue_refl (x : number) : sameValue x x.
Proof. now left. Qed.

Lemma add_sameValue (x y a : number) :
  sameValue x y -> sameValue (add x a) (add y a).
Proof.
  intros [->|(s & t & -> & ->)]; [now left|].
  destruct a as [sa| | |sa ma ea]; unfold add; simpl.
  - right. destruct s, t, sa; simpl; do 2 eexists; split; reflexivity.
  - now left.
  - now left.
  - now left.
Qed.

Lemma toFixed2_sameValue (x y : number) :
  sameValue x y -> toFixed2 x = toFixed2 y.
Proof. intros [->|(s & t & -> & ->)]; reflexivity. Qed.

Lemma restart_sameValue (b acc : number) :
  isNaN acc = false -> sameValue b acc -> sameValue (restart (Some b)) acc.
Proof.
  intros Hn [->|(s & t & -> & ->)]; simpl.
  - destruct acc as [s| | |]; simpl in *; try discriminate; try (now left).
    right. exists false, s. split; reflexivity.
  - right. exists false, t. split; reflexivity.
Qed.

(** While no running total is NaN, the sum that restarts from 0 at every
    falsy total and the plain sum differ at most in the sign of a zero. *)
Lemma restart_total_value (xs : list number) (b : number) :
  xs <> [] ->
  noNaNTotal pzero xs = true ->
  fold_left (fun cur x => Some (add (restart cur) x)) xs None = Some b ->
  sameValue b (total xs).
Proof.
  intros Hne Hok Hb.
  destruct xs as [|x xs]; [congruence|]. clear Hne.
  unfold total. simpl in *.
  apply andb_true_iff in Hok as [H1 H2]. apply negb_true_iff in H1.
  revert Hb H1 H2.
  generalize (add pzero x) as acc. intros acc.
  assert (G : forall ys a c d, isNaN a = false -> sameValue c a ->
            noNaNTotal a ys = true ->
            fold_left (fun cur x => Some (add (restart cur) x)) ys (Some c) = Some d ->
            sameValue d (fold_left add ys a)).
  { induction ys as [|y ys IH]; intros a c d Ha Hs Hok Hd; simpl in *.
    - injection Hd as <-. assumption.
    - apply andb_true_iff in Hok as [K1 K2]. apply negb_true_iff in K1.
      eapply IH; [exact K1 | | exact K2 | exact Hd].
      apply add_sameValue.
      now apply (restart_sameValue c a). }
  intros Hb H1 H2. eapply G; [exact H1 | apply sameValue_refl | exact H2 | exact Hb].
Qed.

End Accumulate.

(** ** The Account Balances job *)

Module AccountsFacts.
Import JsString JsNumber JsObject JsDate Reports Spec Facts Accumulate.

Lemma accountBalances_rows (c : cache) :
  accountBalances c = fold_left accountsStep (allRows c) [].
Proof. unfold accountBalances, allRows. apply fold_concat. Qed.

Lemma isInherited_proto (k : jsstring) :
  isInherited k = false -> eqb k protoAccessor = false.
Proof.
  unfold isInherited. simpl. intros H.
  apply orb_false_iff in H. tauto.
Qed.

(** As long as no account is a name that [Object.prototype] defines, the
    balances are Numbers and each line restarts or adds. *)
Lemma accountsStep_num (o : obj number) (line : row) :
  isInherited (accountKey line) = false ->
  accountsStep (mapValues Num o) line =
  mapValues Num (accum accountKey amount restartAdd o line).
Proof.
  intros H. unfold accountsStep, accum, restartAdd.
  rewrite getOwn_mapValues.
  destruct (getOwn o (accountKey line)) as [b|]; simpl.
  - apply setOwn_mapValues.
  - rewrite (isInherited_proto _ H), H. apply (setOwn_mapValues Num).
Qed.

Lemma accountsSteps_num (rows : list row) (o : obj number) :
  forallb (fun line => negb (isInherited (accountKey line))) rows = true ->
  fold_left accountsStep rows (mapValues Num o) =
  mapValues Num (fold_left (accum accountKey amount restartAdd) rows o).
Proof.
  revert o; induction rows as [|line rows IH]; intros o H; simpl in *; [reflexivity|].
  apply andb_true_iff in H as [H1 H2]. apply negb_true_iff in H1.
  rewrite accountsStep_num by assumption. now apply IH.
Qed.

Lemma accountLines_num (es : list (jsstring * number)) :
  accountLines (mapValues Num es) =
  Normal (map (fun e => balanceLine (fst e) (snd e)) es).
Proof.
  induction es as [|[k b] es IH]; [reflexivity|].
  change (accountLines (mapValues Num ((k, b) :: es)))
    with (match accountLines (mapValues Num es) with
          | Normal out => Normal (balanceLine k b :: out)
          | TypeError => TypeError
          end).
  now rewrite IH.
Qed.

Lemma keys_numBalances (rows : list row) :
  keys (numBalances rows) = enumeration (accountsSeen rows).
Proof.
  rewrite keys_entries. unfold numBalances. rewrite keys_accum. reflexivity.
Qed.

Lemma accountsSeen_rows (rows : list row) (a : jsstring) :
  In a (accountsSeen rows) -> amountsOf a rows <> [].
Proof.
  unfold accountsSeen. rewrite firstSeen_In. intros [H _].
  apply in_map_iff in H as (line & E & Hin).
  unfold amountsOf. intros Hnil. apply map_eq_nil in Hnil.
  assert (Hf : In line (filter (fun l => eqb (accountKey l) a) rows)).
  { apply filter_In. split; [assumption|]. apply eqb_eq. assumption. }
  rewrite Hnil in Hf. contradiction.
Qed.

Lemma enumeration_In (ks : list jsstring) (k : jsstring) :
  In k (enumeration ks) <-> In k ks.
Proof.
  unfold enumeration. rewrite in_app_iff, sort_In, !filter_In.
  destruct (isArrayIndex k); simpl; intuition congruence.
Qed.

Lemma fold_Some_nonempty (xs : list number) (cur : option number) :
  xs <> [] ->
  exists b, fold_left (fun cur x => Some (restartAdd cur x)) xs cur = Some b.
Proof.
  revert cur; induction xs as [|x xs IH]; intros cur H; [congruence|]. simpl.
  destruct xs as [|y ys].
  - simpl. eauto.
  - apply IH. discriminate.
Qed.

(** The lines of the job, account by account. *)
Lemma accounts_lines (c : cache) :
  forallb (fun line => negb (isInherited (accountKey line))) (allRows c) = true ->
  forallb (fun a => noNaNTotal pzero (amountsOf a (allRows c)))
          (accountsSeen (allRows c)) = true ->
  accounts c =
  Normal (lit "Account,Balance"
          :: map (fun a => balanceLine a (total (amountsOf a (allRows c))))
                 (enumeration (accountsSeen (allRows c)))).
Proof.
  intros H1 H2. unfold accounts. rewrite accountBalances_rows.
  change (@nil (jsstring * slot)) with (mapValues Num (@nil (jsstring * number))).
  rewrite accountsSteps_num by assumption.
  fold (numBalances (allRows c)).
  rewrite entries_mapValues, accountLines_num.
  do 2 f_equal.
  rewrite (entries_lookup _ NaN) by apply keys_accum_NoDup.
  rewrite map_map, keys_numBalances. simpl.
  apply map_ext_in. intros a Ha.
  unfold balanceLine. do 2 f_equal.
  apply (proj1 (enumeration_In _ _)) in Ha.
  rewrite forallb_forall in H2. specialize (H2 a Ha).
  pose proof (accountsSeen_rows _ _ Ha) as Hne.
  unfold numBalances. rewrite getOwn_accum. simpl.
  change (valuesOf accountKey amount a (allRows c)) with (amountsOf a (allRows c)).
  destruct (fold_Some_nonempty (amountsOf a (allRows c)) None Hne) as [b Hb].
  rewrite Hb. apply toFixed2_sameValue.
  eapply restart_total_value; eassumption.
Qed.

Lemma enumeration_perm (ks : list jsstring) : Permutation (enumeration ks) ks.
Proof.
  unfold enumeration. rewrite <- sort_perm.
  induction ks as [|k ks IH]; simpl; [constructor|].
  destruct (isArrayIndex k); simpl.
  - now constructor.
  - rewrite <- Permutation_middle. now constructor.
Qed.

Lemma enumeration_no_index (ks : list jsstring) :
  forallb (fun k => negb (isArrayIndex k)) ks = true -> enumeration ks = ks.
Proof.
  intros H. unfold enumeration.
  assert (E : filter isArrayIndex ks = [] /\
              filter (fun k => negb (isArrayIndex k)) ks = ks).
  { induction ks as [|k ks IH]; simpl in *; [split; reflexivity|].
    apply andb_true_iff in H as [H1 H2]. destruct (IH H2) as [E1 E2].
    rewrite H1. apply negb_true_iff in H1. rewrite H1. split; congruence. }
  destruct E as [E1 E2]. now rewrite E1, E2.
Qed.

End AccountsFacts.

(** ** The order of strings *)

Module OrderFacts.
Import JsString JsNumber JsObject JsDate Reports Spec Facts.

Lemma ltb_irrefl (s : jsstring) : ltb s s = false.
Proof.
  induction s as [|a s IH]; simpl; [reflexivity|].
  now rewrite N.ltb_irrefl, N.eqb_refl, IH.
Qed.

Lemma ltb_trichotomy (s t : jsstring) :
  ltb s t = true \/ s = t \/ ltb t s = true.
Proof.
  revert t; induction s as [|a s IH]; intros [|b t]; simpl; auto.
  destruct (N.compare_spec a b) as [->|Hlt|Hgt].
  - rewrite N.ltb_irrefl, N.eqb_refl. simpl.
    destruct (IH t) as [H|[->|H]]; auto.
  - apply N.ltb_lt in Hlt. rewrite Hlt. auto.
  - apply N.ltb_lt in Hgt. rewrite Hgt. simpl. auto.
Qed.

Lemma ltb_trans (s t u : jsstring) :
  ltb s t = true -> ltb t u = true -> ltb s u = true.
Proof.
  revert t u; induction s as [|a s IH]; intros [|b t] [|c u]; simpl;
    try congruence.
  intros H1 H2.
  apply orb_true_iff in H1. apply orb_true_iff in H2. apply orb_true_iff.
  destruct H1 as [H1|H1], H2 as [H2|H2].
  - left. apply N.ltb_lt in H1, H2. apply N.ltb_lt. lia.
  - apply andb_true_iff in H2 as [E _]. apply N.eqb_eq in E. subst. now left.
  - apply andb_true_iff in H1 as [E _]. apply N.eqb_eq in E. subst. now left.
  - apply andb_true_iff in H1 as [E1 L1]. apply andb_true_iff in H2 as [E2 L2].
    apply N.eqb_eq in E1, E2. subst. right. rewrite N.eqb_refl. simpl.
    now apply (IH t u).
Qed.

Lemma ltb_asym (s t : jsstring) : ltb s t = true -> ltb t s = false.
Proof.
  intros H. destruct (ltb t s) eqn:E; [|reflexivity].
  pose proof (ltb_trans _ _ _ H E) as C. rewrite ltb_irrefl in C. discriminate.
Qed.

Lemma leb_total (s t : jsstring) : leb s t = true \/ leb t s = true.
Proof.
  unfold leb. destruct (ltb t s) eqn:E; [|now left].
  right. now rewrite (ltb_asym _ _ E).
Qed.

Lemma leb_trans (s t u : jsstring) :
  leb s t = true -> leb t u = true -> leb s u = true.
Proof.
  unfold leb. intros H1 H2.
  apply negb_true_iff in H1, H2. apply negb_true_iff.
  destruct (ltb u s) eqn:E; [|reflexivity].
  destruct (ltb_trichotomy s t) as [H|[->|H]]; try congruence.
  pose proof (ltb_trans _ _ _ E H). congruence.
Qed.

Lemma leb_neq_ltb (s t : jsstring) : leb s t = true -> s <> t -> ltb s t = true.
Proof.
  unfold leb. intros H Hne. apply negb_true_iff in H.
  destruct (ltb_trichotomy s t) as [H'|[->|H']]; congruence.
Qed.

(** A sorted list of distinct strings is strictly increasing. *)
Lemma sorted_strict (l : list jsstring) :
  NoDup l ->
  Sorted (fun a b => leb a b = true) l ->
  StronglySorted (fun a b => ltb a b = true) l.
Proof.
  intros Hnd Hs.
  apply Sorted_StronglySorted in Hs;
    [|intros a b c; apply leb_trans].
  induction Hs as [|a l Hs IH Hall]; [constructor|].
  inversion Hnd as [|? ? Hnotin Hnd']; subst.
  constructor; [now apply IH|].
  rewrite Forall_forall in *. intros b Hb.
  apply leb_neq_ltb; [now apply Hall|]. intros ->. contradiction.
Qed.

(** *** Digit strings of one length are ordered as their values *)

Lemma digitsVal_acc (s : jsstring) (acc : Z) :
  fold_left (fun acc c => 10 * acc + digitVal c) s acc
  = acc * 10 ^ Z.of_nat (length s) + digitsVal s.
Proof.
  unfold digitsVal. revert acc; induction s as [|c s IH]; intros acc.
  - simpl. lia.
  - cbn [fold_left length]. rewrite IH, (IH (10 * 0 + digitVal c)).
    rewrite Nat2Z.inj_succ, Z.pow_succ_r by lia. ring.
Qed.

Lemma digitVal_bounds (c : N) : isDigit c = true -> 0 <= digitVal c <= 9.
Proof.
  unfold isDigit, digitVal. intros H. apply andb_true_iff in H as [H1 H2].
  apply N.leb_le in H1, H2. lia.
Qed.

Lemma digitsVal_bounds (s : jsstring) :
  forallb isDigit s = true -> 0 <= digitsVal s < 10 ^ Z.of_nat (length s).
Proof.
  induction s as [|c s IH]; intros H.
  - unfold digitsVal. simpl. lia.
  - simpl in H. apply andb_true_iff in H as [Hc Hs].
    specialize (IH Hs). pose proof (digitVal_bounds c Hc) as Hd.
    unfold digitsVal in *. cbn [fold_left length].
    rewrite digitsVal_acc. unfold digitsVal.
    rewrite Nat2Z.inj_succ, Z.pow_succ_r by lia. nia.
Qed.

Lemma ltb_digits (s t : jsstring) :
  forallb isDigit s = true -> forallb isDigit t = true ->
  length s = length t ->
  ltb s t = true -> digitsVal s < digitsVal t.
Proof.
  revert t; induction s as [|a s IH]; intros [|b t] Hs Ht Hlen Hlt;
    simpl in *; try discriminate.
  apply andb_true_iff in Hs as [Ha Hs]. apply andb_true_iff in Ht as [Hb Ht].
  injection Hlen as Hlen.
  pose proof (digitsVal_bounds s Hs) as Bs.
  pose proof (digitsVal_bounds t Ht) as Bt.
  pose proof (digitVal_bounds a Ha) as Da.
  pose proof (digitVal_bounds b Hb) as Db.
  unfold digitsVal. cbn [fold_left]. rewrite !digitsVal_acc.
  rewrite <- Hlen in *.
  apply orb_true_iff in Hlt as [Hlt|Hlt].
  - apply N.ltb_lt in Hlt. unfold digitVal in *. nia.
  - apply andb_true_iff in Hlt as [E L]. apply N.eqb_eq in E. subst b.
    specialize (IH t Hs Ht Hlen L). lia.
Qed.

End OrderFacts.

(** ** The Yearly Cash Flow job *)

Module YearlyFacts.
Import JsString JsNumber JsObject JsDate Reports Spec Facts Accumulate.
Import AccountsFacts OrderFacts.

Lemma yearlyStep_cash (h : host) (o : obj number) (line : row) :
  yearlyStep h o line =
  if isCash line then accum (yearOf h) amount restartAdd o line else o.
Proof.
  unfold yearlyStep, isCash.
  destruct (nth_error line 1) as [account|]; [|reflexivity].
  destruct (eqb account (lit "Cash")); [|reflexivity].
  unfold accum, restartAdd, restart.
  destruct (getOwn o (yearOf h line)); reflexivity.
Qed.

Lemma yearlySteps (h : host) (rows : list row) (o : obj number) :
  fold_left (yearlyStep h) rows o =
  fold_left (accum (yearOf h) amount restartAdd) (cashRows rows) o.
Proof.
  revert o; induction rows as [|line rows IH]; intros o; [reflexivity|].
  unfold cashRows. cbn [fold_left filter].
  rewrite yearlyStep_cash. fold (cashRows rows).
  destruct (isCash line); cbn [fold_left]; apply IH.
Qed.

Lemma cashByYear_rows (h : host) (c : cache) :
  cashByYear h c =
  fold_left (accum (yearOf h) amount restartAdd)
            (cashRows (rowsExcept (lit "yearly.csv") c)) [].
Proof.
  unfold cashByYear, rowsExcept. rewrite fold_concat. apply yearlySteps.
Qed.

Lemma cashByYear_keys (h : host) (c : cache) (y : jsstring) :
  In y (keys (cashByYear h c)) <->
  exists line, In line (cashRows (rowsExcept (lit "yearly.csv") c))
            /\ yearOf h line = y.
Proof.
  rewrite keys_entries. fold (enumeration (map fst (cashByYear h c))).
  rewrite enumeration_In, cashByYear_rows, keys_accum. simpl.
  rewrite firstSeen_In, in_map_iff. simpl. split.
  - intros [(line & E & Hin) _]. eauto.
  - intros (line & Hin & E). split; [eauto | tauto].
Qed.

Lemma cashByYear_NoDup (h : host) (c : cache) : NoDup (keys (cashByYear h c)).
Proof.
  rewrite keys_entries. fold (enumeration (map fst (cashByYear h c))).
  eapply Permutation_NoDup; [symmetry; apply enumeration_perm|].
  rewrite cashByYear_rows. apply keys_accum_NoDup.
Qed.

(** The job reads the host only through the years of the Cash lines. *)
Lemma yearly_host (h h' : host) (c : cache) :
  (forall line, In line (cashRows (rowsExcept (lit "yearly.csv") c)) ->
                yearOf h line = yearOf h' line) ->
  yearly h c = yearly h' c.
Proof.
  intros H. unfold yearly.
  assert (E : cashByYear h c = cashByYear h' c).
  { rewrite !cashByYear_rows.
    generalize (@nil (jsstring * number)) as o.
    induction (cashRows (rowsExcept (lit "yearly.csv") c)) as [|line rows IH];
      intros o; simpl; [reflexivity|].
    rewrite IH by (intros l Hl; apply H; now right).
    unfold accum. rewrite (H line) by now left. reflexivity. }
  now rewrite E.
Qed.

End YearlyFacts.

(** ** The Financial Statement job *)

Module FsFacts.
Import JsString JsNumber JsObject JsDate Reports Spec Facts Accumulate.

Lemma fsSteps (rows : list row) (o : obj number) (k : jsstring) :
  getOwn (fold_left fsStep rows o) k =
  option_map (fun b => fold_left add (amountsOf k rows) b) (getOwn o k).
Proof.
  revert o; induction rows as [|line rows IH]; intros o; simpl.
  - now destruct (getOwn o k).
  - rewrite IH. unfold fsStep, amountsOf. simpl.
    destruct (eqb (accountKey line) k) eqn:E.
    + apply eqb_eq in E. subst k.
      destruct (getOwn o (accountKey line)) as [b|] eqn:G.
      * now rewrite getOwn_setOwn_same.
      * now rewrite G.
    + apply eqb_neq in E.
      destruct (getOwn o (accountKey line)) as [b|] eqn:G; [|reflexivity].
      rewrite getOwn_setOwn_other by congruence. reflexivity.
Qed.

Lemma seedBalances_taxonomy (a : jsstring) :
  In a taxonomy -> getOwn seedBalances a = Some pzero.
Proof.
  intros H.
  assert (E : forallb (fun a => match getOwn seedBalances a with
                                | Some (S754_zero false) => true
                                | _ => false
                                end) taxonomy = true) by (vm_compute; reflexivity).
  rewrite forallb_forall in E. specialize (E a H).
  destruct (getOwn seedBalances a) as [[[|]| | |]|]; try discriminate. reflexivity.
Qed.

Lemma fsBalances_value (c : cache) (a : jsstring) :
  In a taxonomy ->
  valueOf (fsBalances c) a = orZero (total (amountsOf a (rowsExcept (lit "fs.csv") c))).
Proof.
  intros H. unfold valueOf, fsBalances. rewrite fold_concat.
  fold (rowsExcept (lit "fs.csv") c).
  rewrite fsSteps, (seedBalances_taxonomy a H). reflexivity.
Qed.

Lemma fold_pushAccount (bal : obj number) (group : list jsstring)
    (output : list jsstring) (t : number) :
  fold_left (pushAccount bal) group (output, t) =
  (output ++ map (fun a => balanceLine a (valueOf bal a)) group,
   fold_left (fun t a => add t (valueOf bal a)) group t).
Proof.
  revert output t; induction group as [|a group IH]; intros output t; simpl.
  - now rewrite app_nil_r.
  - unfold pushAccount at 2. simpl. rewrite IH. now rewrite <- app_assoc.
Qed.

Lemma fsLines_statement (bal : obj number) :
  fsLines bal = statement (valueOf bal).
Proof.
  unfold fsLines. rewrite !fold_pushAccount.
  unfold statement, groupLines, groupTotal.
  repeat rewrite <- app_assoc. reflexivity.
Qed.

Lemma statement_ext (v v' : jsstring -> number) :
  (forall a, In a taxonomy -> v a = v' a) -> statement v = statement v'.
Proof.
  intros H.
  assert (L : forall g, incl g taxonomy -> groupLines v g = groupLines v' g).
  { intros g Hg. apply map_ext_in. intros a Ha. now rewrite (H a (Hg a Ha)). }
  assert (T : forall g, incl g taxonomy -> groupTotal v g = groupTotal v' g).
  { intros g Hg. unfold groupTotal. generalize pzero as t.
    induction g as [|a g IH]; intros t; simpl; [reflexivity|].
    rewrite (H a) by (apply Hg; now left).
    apply IH. intros b Hb. apply Hg. now right. }
  assert (I1 : incl Revenues taxonomy) by (unfold taxonomy; auto using incl_appl, incl_refl).
  assert (I2 : incl Expenses taxonomy)
    by (unfold taxonomy; auto using incl_appl, incl_appr, incl_refl).
  assert (I3 : incl Assets taxonomy)
    by (unfold taxonomy; auto using incl_appl, incl_appr, incl_refl).
  assert (I4 : incl Liabilities taxonomy)
    by (unfold taxonomy; auto 6 using incl_appl, incl_appr, incl_refl).
  assert (I5 : incl Equity taxonomy)
    by (unfold taxonomy; auto 6 using incl_appl, incl_appr, incl_refl).
  unfold statement.
  rewrite !(L _ I1), !(L _ I2), !(L _ I3), !(L _ I4), !(L _ I5).
  rewrite !(T _ I1), !(T _ I2), !(T _ I3), !(T _ I4), !(T _ I5).
  reflexivity.
Qed.

End FsFacts.

(** ** Runs of the service *)

Module RunFacts.
Import JsString JsNumber JsObject JsDate Reports Spec Facts.

Lemma phaseOf_setPhase (ps : list (nat * phase)) (r r' : nat) (p : phase) :
  phaseOf (setPhase ps r p) r' = if Nat.eqb r' r then Some p else phaseOf ps r'.
Proof.
  induction ps as [|[r0 p0] ps IH]; simpl.
  - reflexivity.
  - destruct (Nat.eqb r r0) eqn:E; simpl.
    + apply Nat.eqb_eq in E. subst r0.
      destruct (Nat.eqb r' r); reflexivity.
    + rewrite IH. destruct (Nat.eqb r' r0) eqn:E'; [|reflexivity].
      apply Nat.eqb_eq in E'. subst r0.
      destruct (Nat.eqb r' r) eqn:E''; [|reflexivity].
      apply Nat.eqb_eq in E''. subst. rewrite Nat.eqb_refl in E. discriminate.
Qed.

Lemma exec_app (dir : directory) (s : sys) (t1 t2 : list event) :
  exec dir s (t1 ++ t2) =
  match exec dir s t1 with
  | Some s1 => exec dir s1 t2
  | None => None
  end.
Proof.
  revert s; induction t1 as [|e t1 IH]; intros s; simpl; [reflexivity|].
  destruct (step dir s e); [apply IH | reflexivity].
Qed.

Section Dir.
Variable dir : directory.

Lemma csv_readFile (file : jsstring) :
  In file (csvFiles dir) -> exists content, readFile dir file = Some content.
Proof.
  unfold csvFiles. rewrite filter_In. intros [H _].
  induction dir as [|[f content] d IH]; simpl in *; [contradiction|].
  destruct (eqb file f) eqn:E; [eauto|].
  destruct H as [->|H]; [rewrite eqb_refl in E; discriminate | now apply IH].
Qed.

Lemma storeFile_same (c : cache) (file : jsstring) :
  In file (csvFiles dir) -> getOwn (storeFile dir c file) file = parsed dir file.
Proof.
  intros H. destruct (csv_readFile file H) as [content E].
  unfold storeFile, parsed. rewrite E. simpl. apply getOwn_setOwn_same.
Qed.

Lemma storeFile_other (c : cache) (file file' : jsstring) :
  file' <> file -> getOwn (storeFile dir c file) file' = getOwn c file'.
Proof.
  intros H. unfold storeFile.
  destruct (readFile dir file); [now apply getOwn_setOwn_other | reflexivity].
Qed.

Lemma storeFile_sound (c : cache) (file : jsstring) :
  In file (csvFiles dir) -> sound dir c -> sound dir (storeFile dir c file).
Proof.
  intros Hin Hs f rows Hget.
  destruct (list_eq_dec N.eq_dec f file) as [->|Hne].
  - rewrite storeFile_same in Hget by assumption.
    split; [now apply existsb_eqb_In | assumption].
  - rewrite storeFile_other in Hget by assumption. now apply Hs.
Qed.

Lemma sound_loaded (c : cache) :
  sound dir c ->
  (forall file, In file (csvFiles dir) -> getOwn c file = parsed dir file) ->
  loaded dir c.
Proof.
  intros Hs Hall file.
  destruct (existsb (eqb file) (csvFiles dir)) eqn:E.
  - apply Hall. now apply existsb_eqb_In.
  - destruct (getOwn c file) as [rows|] eqn:G; [|reflexivity].
    destruct (Hs _ _ G) as [E' _]. congruence.
Qed.

Lemma removeFile_In (file f : jsstring) (p : list jsstring) :
  In f (removeFile file p) <-> In f p /\ f <> file.
Proof.
  unfold removeFile. rewrite filter_In, negb_true_iff, eqb_neq. tauto.
Qed.

Lemma pendingOk_step (s s' : sys) (e : event) :
  pendingOk dir s -> step dir s e = Some s' -> pendingOk dir s'.
Proof.
  intros Hp Hstep r p. destruct e as [r0|r0|r0 file]; simpl in Hstep.
  - destruct (phaseOf (phases s) r0); [discriminate|].
    injection Hstep as <-. simpl.
    destruct (Nat.eqb r r0); [discriminate | apply Hp].
  - destruct (phaseOf (phases s) r0) as [[| |]|]; try discriminate.
    injection Hstep as <-. simpl. rewrite phaseOf_setPhase.
    destruct (Nat.eqb r r0); [|apply Hp].
    unfold afterLoad. destruct (csvFiles dir) eqn:E; [discriminate|].
    intros [= <-]. apply incl_refl.
  - destruct (phaseOf (phases s) r0) as [[|p0|]|] eqn:Ph; try discriminate.
    destruct (existsb (eqb file) p0); [|discriminate].
    injection Hstep as <-. simpl. rewrite phaseOf_setPhase.
    destruct (Nat.eqb r r0); [|apply Hp].
    unfold afterLoad. destruct (removeFile file p0) eqn:E; [discriminate|].
    intros [= <-]. rewrite <- E. intros f Hf.
    apply removeFile_In in Hf. apply (Hp r0 p0 Ph). tauto.
Qed.

Lemma pendingOk_exec (tr : list event) (s s' : sys) :
  pendingOk dir s -> exec dir s tr = Some s' -> pendingOk dir s'.
Proof.
  revert s; induction tr as [|e tr IH]; intros s Hp H; simpl in H.
  - now injection H as <-.
  - destruct (step dir s e) as [s1|] eqn:E; [|discriminate].
    eapply IH; [eapply pendingOk_step; eassumption | assumption].
Qed.

Lemma inv_start (r : nat) (s s' : sys) :
  pendingOk dir s -> step dir s (Start r) = Some s' -> inv dir r s'.
Proof.
  intros Hp Hstep. split; [|split].
  - simpl in Hstep. destruct (phaseOf (phases s) r); [discriminate|].
    injection Hstep as <-. intros file rows H. discriminate.
  - eapply pendingOk_step; eassumption.
  - simpl in Hstep. destruct (phaseOf (phases s) r); [discriminate|].
    injection Hstep as <-. unfold runOk. simpl. now rewrite Nat.eqb_refl.
Qed.

Lemma inv_step (r : nat) (s s' : sys) (e : event) :
  isStart e = false -> inv dir r s -> step dir s e = Some s' -> inv dir r s'.
Proof.
  intros Hns (Hs & Hp & Hr) Hstep.
  split; [|split; [eapply pendingOk_step; eassumption|]].
  - destruct e as [r0|r0|r0 file]; simpl in Hstep; [discriminate| |].
    + destruct (phaseOf (phases s) r0) as [[| |]|]; try discriminate.
      now injection Hstep as <-.
    + destruct (phaseOf (phases s) r0) as [[|p0|]|] eqn:Ph; try discriminate.
      destruct (existsb (eqb file) p0) eqn:Ex; [|discriminate].
      injection Hstep as <-. simpl.
      apply storeFile_sound; [|assumption].
      apply (Hp r0 p0 Ph). now apply existsb_eqb_In.
  - unfold runOk in *.
    destruct e as [r0|r0|r0 file]; simpl in Hstep; [discriminate| |].
    + destruct (phaseOf (phases s) r0) as [[| |]|] eqn:Ph; try discriminate.
      injection Hstep as <-. simpl. rewrite phaseOf_setPhase.
      destruct (Nat.eqb r r0) eqn:E; [|exact Hr].
      unfold afterLoad. destruct (csvFiles dir) as [|f fs] eqn:Ec.
      * apply sound_loaded; [assumption|]. rewrite Ec. intros file [].
      * intros file Hin. now left.
    + destruct (phaseOf (phases s) r0) as [[|p0|]|] eqn:Ph; try discriminate.
      destruct (existsb (eqb file) p0) eqn:Ex; [|discriminate].
      injection Hstep as <-. simpl. rewrite phaseOf_setPhase.
      assert (Hfile : In file (csvFiles dir)).
      { apply (Hp r0 p0 Ph). now apply existsb_eqb_In. }
      destruct (Nat.eqb r r0) eqn:E.
      * apply Nat.eqb_eq in E. subst r0. rewrite Ph in Hr.
        assert (Hall : forall f, In f (csvFiles dir) ->
                  In f (removeFile file p0)
                  \/ getOwn (storeFile dir (cacheNow s) file) f = parsed dir f).
        { intros f Hf.
          destruct (list_eq_dec N.eq_dec f file) as [->|Hne].
          - right. now apply storeFile_same.
          - destruct (Hr f Hf) as [H|H].
            + left. apply removeFile_In. tauto.
            + right. now rewrite storeFile_other. }
        unfold afterLoad. destruct (removeFile file p0) as [|f fs] eqn:Er.
        -- apply sound_loaded; [now apply storeFile_sound|].
           intros f Hf. destruct (Hall f Hf) as [[]|H]. exact H.
        -- exact Hall.
      * destruct (phaseOf (phases s) r) as [[|p|seen]|]; try exact Hr.
        intros f Hf.
        destruct (list_eq_dec N.eq_dec f file) as [->|Hne].
        -- right. now apply storeFile_same.
        -- rewrite storeFile_other by assumption. now apply Hr.
Qed.

Lemma inv_exec (r : nat) (tr : list event) (s s' : sys) :
  forallb (fun e => negb (isStart e)) tr = true ->
  inv dir r s -> exec dir s tr = Some s' -> inv dir r s'.
Proof.
  revert s; induction tr as [|e tr IH]; intros s Hns Hi H; simpl in *.
  - now injection H as <-.
  - apply andb_true_iff in Hns as [H1 H2]. apply negb_true_iff in H1.
    destruct (step dir s e) as [s1|] eqn:E; [|discriminate].
    eapply IH; [assumption | eapply inv_step; eassumption | assumption].
Qed.
End Dir.

(** The name of a [.csv] file is no array index, so the cache enumerates
    its files in the order in which they were stored. *)
Lemma csv_not_index (file : jsstring) :
  endsWith file (lit ".csv") = true -> isArrayIndex file = false.
Proof.
  unfold endsWith. intros H.
  assert (Hin : In 118%N file).
  { apply in_rev. destruct (rev file) as [|c t]; [discriminate|].
    change (rev (lit ".csv")) with [118%N; 115%N; 99%N; 46%N] in H.
    cbn [startsWith] in H. apply andb_true_iff in H as [Hc _].
    apply N.eqb_eq in Hc. subst c. now left. }
  unfold isArrayIndex, arrayIndex. destruct file as [|c rest]; [reflexivity|].
  assert (Hd : forallb isDigit (c :: rest) = false).
  { destruct (forallb isDigit (c :: rest)) eqn:E; [|reflexivity].
    rewrite forallb_forall in E. specialize (E _ Hin). discriminate. }
  now rewrite Hd.
Qed.

Lemma setOwn_no_index {V : Type} (o : obj V) (k : jsstring) (v : V) :
  isArrayIndex k = false ->
  forallb (fun e => negb (isArrayIndex (fst e))) o = true ->
  forallb (fun e => negb (isArrayIndex (fst e))) (setOwn o k v) = true.
Proof.
  intros Hk. induction o as [|[k' v'] o IH]; cbn [setOwn forallb fst]; intros H.
  - now rewrite Hk.
  - apply andb_true_iff in H as [H1 H2].
    destruct (eqb k k'); cbn [forallb fst]; rewrite H1; [assumption | now apply IH].
Qed.

Lemma loadFiles_entries (dir : directory) (order : list jsstring) :
  (forall f, In f order -> endsWith f (lit ".csv") = true) ->
  entries (loadFiles dir order) = loadFiles dir order.
Proof.
  intros H. apply entries_no_index. unfold loadFiles.
  assert (G : forall c : cache,
            forallb (fun e => negb (isArrayIndex (fst e))) c = true ->
            forallb (fun e => negb (isArrayIndex (fst e)))
                    (fold_left (storeFile dir) order c) = true).
  { induction order as [|f order IH]; intros c Hc; [assumption|].
    cbn [fold_left]. apply IH.
    - intros g Hg. apply H. now right.
    - unfold storeFile. destruct (readFile dir f); [|assumption].
      apply setOwn_no_index; [|assumption].
      apply csv_not_index. apply H. now left. }
  now apply G.
Qed.

(** [loadFiles] is what a run alone goes through: when the reads complete
    in the order [order], the jobs are handed [loadFiles dir order]. *)
Lemma reads_alone (dir : directory) (r : nat) (order : list jsstring) :
  forall (ps : list (nat * phase)) (c : cache) (pending : list jsstring),
    NoDup order ->
    (forall f, In f order <-> In f pending) ->
    pending <> [] ->
    phaseOf ps r = Some (Loading pending) ->
    exists s,
      exec dir {| cacheNow := c; phases := ps |} (map (ReadDone r) order) = Some s
      /\ phaseOf (phases s) r = Some (Reporting (fold_left (storeFile dir) order c)).
Proof.
  induction order as [|f order IH]; intros ps c pending Hnd Hin Hne Hp.
  - destruct pending as [|g pending]; [congruence|].
    exfalso. apply (proj2 (Hin g)). now left.
  - cbn [map exec step phases cacheNow]. rewrite Hp.
    assert (Hf : existsb (eqb f) pending = true).
    { apply existsb_eqb_In. apply Hin. now left. }
    rewrite Hf. inversion Hnd as [|? ? Hnotin Hnd']; subst.
    assert (Hin' : forall g, In g order <-> In g (removeFile f pending)).
    { intros g. rewrite removeFile_In, <- Hin. simpl. split.
      - intros H. split; [now right|]. intros ->. contradiction.
      - intros [[->|H] Hne']; [congruence | assumption]. }
    destruct (removeFile f pending) as [|g rest] eqn:Er.
    + destruct order as [|g order]; [|exfalso; apply (proj1 (Hin' g)); now left].
      cbn [map exec fold_left afterLoad]. eexists. split; [reflexivity|].
      cbn [phases]. now rewrite phaseOf_setPhase, Nat.eqb_refl.
    + cbn [afterLoad fold_left].
      apply (IH _ _ (g :: rest)); [assumption | assumption | discriminate|].
      now rewrite phaseOf_setPhase, Nat.eqb_refl.
Qed.

Lemma run_alone (dir : directory) (c0 : cache) (r : nat) (order : list jsstring) :
  NoDup order ->
  (forall f, In f order <-> In f (csvFiles dir)) ->
  exists s,
    exec dir (initial c0) (Start r :: ReaddirDone r :: map (ReadDone r) order) = Some s
    /\ phaseOf (phases s) r = Some (Reporting (loadFiles dir order)).
Proof.
  intros Hnd Hin. cbn [exec step initial phases phaseOf cacheNow].
  rewrite Nat.eqb_refl. cbn [setPhase]. rewrite Nat.eqb_refl.
  destruct (csvFiles dir) as [|g rest] eqn:Ec.
  - destruct order as [|f order]; [|exfalso; apply (proj1 (Hin f)); now left].
    cbn [afterLoad map exec]. eexists. split; [reflexivity|].
    cbn [phases phaseOf]. now rewrite Nat.eqb_refl.
  - cbn [afterLoad]. unfold loadFiles.
    apply (reads_alone dir r order _ _ (g :: rest)); try assumption; [discriminate|].
    cbn [phaseOf]. now rewrite Nat.eqb_refl.
Qed.

End RunFacts.

(** ** Numbers in print, and the calendar *)

Module FormatFacts.
Import JsString JsNumber JsObject JsDate Reports Spec Facts.

Lemma posDigits_digits (fuel : nat) (n : Z) (acc : jsstring) :
  0 <= n -> forallb isDigit acc = true ->
  forallb isDigit (posDigits fuel n acc) = true.
Proof.
  revert n acc; induction fuel as [|fuel IH]; intros n acc Hn Hacc;
    cbn [posDigits].
  - assumption.
  - assert (Hd : isDigit (Z.to_N (48 + n mod 10)) = true).
    { unfold isDigit. pose proof (Z.mod_pos_bound n 10 ltac:(lia)).
      apply andb_true_iff. split; apply N.leb_le; lia. }
    destruct (n <? 10).
    + cbn [forallb]. now rewrite Hd.
    + apply IH.
      * apply Z.div_pos; lia.
      * cbn [forallb]. now rewrite Hd.
Qed.

Lemma posDigits_nonempty (fuel : nat) (n : Z) (acc : jsstring) :
  acc <> [] -> posDigits fuel n acc <> [].
Proof.
  revert n acc; induction fuel as [|fuel IH]; intros n acc H; cbn [posDigits].
  - assumption.
  - destruct (n <? 10); [discriminate | apply IH; discriminate].
Qed.

Lemma natDigits_digits (n : Z) : 0 <= n -> forallb isDigit (natDigits n) = true.
Proof. intros H. now apply posDigits_digits. Qed.

Lemma natDigits_nonempty (n : Z) : natDigits n <> [].
Proof.
  unfold natDigits. cbn [posDigits].
  destruct (n <? 10); [discriminate | apply posDigits_nonempty; discriminate].
Qed.

Lemma natDigits_one (d : Z) :
  0 <= d < 10 -> natDigits d = [Z.to_N (48 + d)].
Proof.
  intros H. unfold natDigits. cbn [posDigits].
  assert (E : (d <? 10) = true) by (apply Z.ltb_lt; lia).
  rewrite E. now rewrite Z.mod_small by lia.
Qed.

Lemma scaled100_nonneg (m : positive) (e : Z) : 0 <= scaled100 m e.
Proof.
  unfold scaled100. destruct (0 <=? e) eqn:E.
  - apply Z.leb_le in E. pose proof (Z.pow_pos_nonneg 2 e ltac:(lia) E). nia.
  - apply Z.leb_gt in E.
    pose proof (Z.pow_pos_nonneg 2 (- e) ltac:(lia) ltac:(lia)).
    pose proof (Z.pow_pos_nonneg 2 (1 - e) ltac:(lia) ltac:(lia)).
    apply Z.div_pos; lia.
Qed.

Lemma fixed2Digits_shape (n : Z) :
  0 <= n ->
  exists ip d1 d2,
    fixed2Digits n = ip ++ [chDot; d1; d2]
    /\ ip <> [] /\ forallb isDigit (ip ++ [d1; d2]) = true.
Proof.
  intros Hn. unfold fixed2Digits.
  pose proof (Z.mod_pos_bound n 100 ltac:(lia)) as Hf.
  set (frac := n mod 100) in *.
  assert (H1 : 0 <= frac / 10 < 10).
  { split; [apply Z.div_pos; lia | apply Z.div_lt_upper_bound; lia]. }
  pose proof (Z.mod_pos_bound frac 10 ltac:(lia)) as H2.
  rewrite (natDigits_one _ H1), (natDigits_one _ H2).
  exists (natDigits (n / 100)), (Z.to_N (48 + frac / 10)), (Z.to_N (48 + frac mod 10)).
  split; [reflexivity|]. split; [apply natDigits_nonempty|].
  rewrite forallb_app. apply andb_true_iff. split.
  - apply natDigits_digits. apply Z.div_pos; lia.
  - cbn [forallb]. unfold isDigit.
    generalize dependent (frac / 10). generalize dependent (frac mod 10).
    intros a Ha b Hb.
    repeat (apply andb_true_iff; split); try reflexivity; apply N.leb_le; lia.
Qed.

(** In fixed notation [toFixed(2)] prints exactly two decimals. *)
Lemma toFixed2_twoDecimals (x : number) :
  fixedNotation x = true -> twoDecimals (toFixed2 x).
Proof.
  destruct x as [s|s| |s m e]; simpl; try discriminate.
  - intros _. exists [], (lit "0"), 48%N, 48%N. repeat split; auto. discriminate.
  - intros H. apply negb_true_iff in H. rewrite H.
    destruct (fixed2Digits_shape (scaled100 m e) (scaled100_nonneg m e))
      as (ip & d1 & d2 & E & Hne & Hd).
    exists (if s then lit "-" else []), ip, d1, d2.
    rewrite E. repeat split; auto. destruct s; auto.
Qed.

(** [YearFromTime] is the year the time value falls in. *)
Lemma YearFromTime_spec (t : Z) :
  TimeFromYear (YearFromTime t) <= t < TimeFromYear (YearFromTime t + 1).
Proof.
  unfold YearFromTime, TimeFromYear, DayFromYear, Day, msPerDay.
  repeat match goal with
         | |- context [?a <=? ?b] => destruct (Z.leb_spec a b)
         end;
    Z.div_mod_to_equations; lia.
Qed.

(** Local times of the first day of 2023 are in 2023. *)
Lemma YearFromTime_2023 (z : Z) :
  0 <= z < msPerDay -> YearFromTime (newYear2023 + z) = 2023.
Proof.
  intros H. unfold YearFromTime.
  assert (E : Day (newYear2023 + z) = 19358).
  { unfold Day, newYear2023, msPerDay in *. symmetry.
    apply (Z.div_unique _ _ _ z); lia. }
  rewrite E. vm_compute. reflexivity.
Qed.

End FormatFacts.

(** ** The claims *)

Module Claims.
Import JsString JsNumber JsObject JsDate Reports Spec Facts Accumulate.
Import AccountsFacts OrderFacts YearlyFacts FsFacts RunFacts FormatFacts.

(** *** C1: Account Balances *)

(** C1, as amended.  When no account is a name that [Object.prototype]
    defines and no running total is NaN, the Account Balances job writes the
    header and then one line per distinct account key of the cached lines;
    the balance of a line is the binary64 sum, taken left to right in cache
    order, of debit minus credit over the lines of that account, printed by
    [toFixed(2)] (exactly two decimals whenever the sum is finite and of
    magnitude below 10^21); the lines come in the enumeration order of the
    accounts, which
    is first-seen order when no account name is an array index; and the
    output depends on the cache only through the sequence of its lines, not
    on how they are cut into files. *)
Theorem accounts_balances (c : cache) :
  forallb (fun line => negb (isInherited (accountKey line))) (allRows c) = true ->
  forallb (fun a => noNaNTotal pzero (amountsOf a (allRows c)))
          (accountsSeen (allRows c)) = true ->
  accounts c =
    Normal (lit "Account,Balance"
            :: map (fun a => balanceLine a (total (amountsOf a (allRows c))))
                   (enumeration (accountsSeen (allRows c))))
  /\ Permutation (enumeration (accountsSeen (allRows c))) (accountsSeen (allRows c))
  /\ NoDup (accountsSeen (allRows c))
  /\ (forall a, In a (accountsSeen (allRows c)) <->
                exists line, In line (allRows c) /\ accountKey line = a)
  /\ (forallb (fun a => negb (isArrayIndex a)) (accountsSeen (allRows c)) = true ->
      enumeration (accountsSeen (allRows c)) = accountsSeen (allRows c))
  /\ (forall a, fixedNotation (total (amountsOf a (allRows c))) = true ->
                twoDecimals (toFixed2 (total (amountsOf a (allRows c)))))
  /\ (forall c', allRows c' = allRows c -> accounts c' = accounts c).
Proof.
  intros H1 H2. repeat split.
  - now apply accounts_lines.
  - apply enumeration_perm.
  - apply firstSeen_NoDup.
  - unfold accountsSeen. rewrite firstSeen_In, in_map_iff.
    intros [(line & E & Hin) _]. eauto.
  - intros (line & Hin & E). unfold accountsSeen.
    rewrite firstSeen_In, in_map_iff. split; [eauto | tauto].
  - apply enumeration_no_index.
  - intros a. apply toFixed2_twoDecimals.
  - intros c' E. unfold accounts. now rewrite !accountBalances_rows, E.
Qed.

(** The scenario of the specification meets the conditions of C1. *)
Lemma accounts_balances_witness :
  accounts cacheScenario =
    Normal (lit "Account,Balance"
            :: map (fun a => balanceLine a (total (amountsOf a (allRows cacheScenario))))
                   (enumeration (accountsSeen (allRows cacheScenario)))).
Proof.
  refine (proj1 (accounts_balances cacheScenario _ _)); vm_compute; reflexivity.
Defined.

(** C1 as stated fails: accounts named [2] then [1] are written [1] first,
    which is not first-seen order. *)
Lemma accounts_order_counterexample :
  accountsSeen (allRows (loadFiles dirIndexNames [aCsv])) = [lit "2"; lit "1"]
  /\ accounts (loadFiles dirIndexNames [aCsv]) =
       Normal [lit "Account,Balance"; lit "1,1.00"; lit "2,1.00"]
  /\ accounts (loadFiles dirIndexNames [aCsv]) <>
       Normal (accountsSpecified (loadFiles dirIndexNames [aCsv])).
Proof.
  split; [vm_compute; reflexivity|]. split; [vm_compute; reflexivity|].
  vm_compute. discriminate.
Qed.

(** Outside the conditions of C1: an account named [__proto__] gets no
    line, and an account named [constructor] makes the job throw. *)
Remark proto_account_dropped :
  accounts [(aCsv, [[lit "2023-01-01"; lit "__proto__"; []; lit "5"; lit "0"];
                    [lit "2023-01-01"; lit "Cash"; []; lit "1"; lit "0"]])]
  = Normal [lit "Account,Balance"; lit "Cash,1.00"].
Proof. vm_compute. reflexivity. Qed.

(** A balance of magnitude 10^21 or more, of either sign, is printed in
    exponential notation. *)
Remark large_balance_exponential :
  accounts [(aCsv, [[lit "2023-01-01"; lit "G"; []; lit "0"; lit "5e21"]])]
  = Normal [lit "Account,Balance"; lit "G,-5e+21"].
Proof. vm_compute. reflexivity. Qed.

Remark constructor_account_throws :
  accounts [(aCsv, [[lit "2023-01-01"; lit "constructor"; []; lit "5"; lit "0"]])]
  = TypeError.
Proof. vm_compute. reflexivity. Qed.

(** *** C2: amounts that are missing or not numbers *)





(** *** C3: the Financial Statement *)

(** C3, as amended.  The Financial Statement has the fixed layout of the
    taxonomy; the value of an account is the binary64 sum of debit minus
    credit over the lines of that account in the files other than [fs.csv]
    (lines of other accounts do not enter), NaN and -0 shown as 0, so an
    account without lines shows [0.00]; the five asset lines show the five
    asset values as [toFixed(2)] prints them, and the Total Assets line
    shows, as [toFixed(2)] prints it, the binary64 sum of those five values
    taken from 0 in order, which is computed before rounding and so need not
    be the sum of the five figures shown; [toFixed(2)] prints exactly two
    decimals whenever the value is finite and of magnitude below 10^21. *)
Theorem fs_statement (c : cache) :
  fs c = statement (fun a => orZero (total (amountsOf a (rowsExcept (lit "fs.csv") c))))
  /\ firstn 5 (skipn 14 (fs c)) =
       map (fun a => balanceLine a
                       (orZero (total (amountsOf a (rowsExcept (lit "fs.csv") c)))))
           Assets
  /\ nth_error (fs c) 19 =
       Some (lit "Total Assets,"
             ++ toFixed2
                  (fold_left
                     (fun t a =>
                        add t (orZero (total (amountsOf a (rowsExcept (lit "fs.csv") c)))))
                     Assets pzero))
  /\ (forall a, amountsOf a (rowsExcept (lit "fs.csv") c) = [] ->
                balanceLine a (orZero (total (amountsOf a (rowsExcept (lit "fs.csv") c))))
                = a ++ lit ",0.00")
  /\ (forall a,
        fixedNotation (orZero (total (amountsOf a (rowsExcept (lit "fs.csv") c))))
        = true ->
        twoDecimals
          (toFixed2 (orZero (total (amountsOf a (rowsExcept (lit "fs.csv") c))))))
  /\ (fixedNotation
        (fold_left
           (fun t a =>
              add t (orZero (total (amountsOf a (rowsExcept (lit "fs.csv") c)))))
           Assets pzero) = true ->
      twoDecimals
        (toFixed2
           (fold_left
              (fun t a =>
                 add t (orZero (total (amountsOf a (rowsExcept (lit "fs.csv") c)))))
              Assets pzero))).
Proof.
  assert (E : fs c = statement
                (fun a => orZero (total (amountsOf a (rowsExcept (lit "fs.csv") c))))).
  { unfold fs. rewrite fsLines_statement. apply statement_ext.
    intros a Ha. now apply fsBalances_value. }
  split; [exact E|]. split; [rewrite E; reflexivity|].
  split; [rewrite E; reflexivity|].
  split; [intros a Ha; rewrite Ha; reflexivity|].
  split; [intros a; apply toFixed2_twoDecimals | apply toFixed2_twoDecimals].
Qed.

(** C3 as stated fails: with 0.004 in each of two asset accounts every
    asset line shows 0.00 and Total Assets shows 0.01. *)
Lemma total_assets_counterexample :
  firstn 7 (skipn 13 (fs (loadFiles dirSubCent [aCsv]))) =
    [lit "Assets"; lit "Cash,0.00"; lit "Accounts Receivable,0.00";
     lit "Inventory,0.00"; lit "Fixed Assets,0.00"; lit "Prepaid Expenses,0.00";
     lit "Total Assets,0.01"].
Proof. vm_compute. reflexivity. Qed.

(** A value of magnitude 10^21 or more is printed in exponential
    notation, on its line and in the total. *)
Remark large_asset_exponential :
  firstn 2 (skipn 14
              (fs [(aCsv, [[lit "2023-01-01"; lit "Cash"; []; lit "1e21"; lit "0"]])]))
  = [lit "Cash,1e+21"; lit "Accounts Receivable,0.00"]
  /\ nth_error (fs [(aCsv, [[lit "2023-01-01"; lit "Cash"; []; lit "1e21"; lit "0"]])])
               19
     = Some (lit "Total Assets,1e+21").
Proof. split; vm_compute; reflexivity. Qed.

(** *** C4: Yearly Cash Flow *)

Lemma StronglySorted_impl {A : Type} (P Q : A -> A -> Prop) (l : list A) :
  (forall a b, P a b -> Q a b) -> StronglySorted P l -> StronglySorted Q l.
Proof.
  intros H. induction 1 as [|a l Hs IH Hall]; constructor; [assumption|].
  eapply Forall_impl; [|exact Hall]. intros b. apply H.
Qed.

(** C4, as amended.  After its header the Yearly Cash Flow output has one
    line per distinct year key of the Cash lines of the cached files other
    than [yearly.csv], and no other line; the lines are in ascending order
    of the year keys compared as strings, which for keys that are digit
    strings of one length (four-digit years) is ascending numeric order. *)
Theorem yearly_rows (h : host) (c : cache) :
  exists ys : list jsstring,
    yearly h c =
      lit "Financial Year,Cash Balance"
      :: map (fun y => balanceLine y (match getOwn (cashByYear h c) y with
                                      | Some b => b
                                      | None => NaN
                                      end)) ys
    /\ NoDup ys
    /\ (forall y, In y ys <->
                  exists line,
                    In line (cashRows (rowsExcept (lit "yearly.csv") c))
                    /\ yearOf h line = y)
    /\ StronglySorted (fun a b => ltb a b = true) ys
    /\ StronglySorted
         (fun a b => forallb isDigit a = true -> forallb isDigit b = true ->
                     length a = length b -> digitsVal a < digitsVal b) ys.
Proof.
  exists (sort leb (keys (cashByYear h c))).
  assert (Hnd : NoDup (sort leb (keys (cashByYear h c)))).
  { eapply Permutation_NoDup; [apply sort_perm | apply cashByYear_NoDup]. }
  assert (Hs : StronglySorted (fun a b => ltb a b = true)
                              (sort leb (keys (cashByYear h c)))).
  { apply sorted_strict; [assumption|]. apply sort_sorted. apply leb_total. }
  split; [reflexivity|]. split; [assumption|]. split; [|split; [assumption|]].
  - intros y. rewrite sort_In. apply cashByYear_keys.
  - eapply StronglySorted_impl; [|exact Hs].
    intros a b Hlt Ha Hb Hlen. now apply ltb_digits.
Qed.

(** C4 as stated fails: the Cash line of 2024 in a cached file named
    [yearly.csv] gives no output line, and the year 999 is written after
    the year 2023. *)
Lemma yearly_counterexample :
  csvFiles dirYears = [aCsv; lit "yearly.csv"]
  /\ yearly utcHost (loadFiles dirYears [aCsv; lit "yearly.csv"]) =
       [lit "Financial Year,Cash Balance"; lit "2023,1.00"; lit "999,2.00"].
Proof. split; vm_compute; reflexivity. Qed.

(** *** C5: the scenario of the specification *)

(** C5, as amended.  On a host whose local time is UTC or ahead of it (by
    less than a day), the file a.csv of the scenario gives the Account
    Balances lines [Cash,100.00] and [Sales Revenue,-100.00], the Yearly
    Cash Flow line [2023,100.00], and a Net Income line of -100.00, with a
    total revenue of -100 and total expenses of 0. *)
Theorem scenario_outputs (h : host) :
  0 <= localTZA h newYear2023 < msPerDay ->
  accounts cacheScenario =
    Normal [lit "Account,Balance"; lit "Cash,100.00"; lit "Sales Revenue,-100.00"]
  /\ yearly h cacheScenario = [lit "Financial Year,Cash Balance"; lit "2023,100.00"]
  /\ In (lit "Net Income,-100.00") (fs cacheScenario)
  /\ fold_left (fun t a => add t (valueOf (fsBalances cacheScenario) a)) Revenues pzero
     = ofZ (-100)
  /\ fold_left (fun t a => add t (valueOf (fsBalances cacheScenario) a)) Expenses pzero
     = pzero.
Proof.
  intros Htz.
  split; [vm_compute; reflexivity|].
  split; [|split; [vm_compute; tauto|split; vm_compute; reflexivity]].
  transitivity (yearly utcHost cacheScenario); [|vm_compute; reflexivity].
  apply yearly_host.
  replace (cashRows (rowsExcept (lit "yearly.csv") cacheScenario))
    with [[lit "2023-01-01"; lit "Cash"; []; lit "100"; lit "0"]]
    by (vm_compute; reflexivity).
  intros line [<-|[]].
  unfold yearOf, newDate. cbn [nth_error].
  replace (isoDateOnly (lit "2023-01-01")) with (Some newYear2023)
    by (vm_compute; reflexivity).
  cbn [getFullYear]. rewrite (YearFromTime_2023 _ Htz).
  vm_compute. reflexivity.
Qed.

(** A host on UTC meets the condition of C5. *)
Lemma scenario_outputs_witness :
  yearly utcHost cacheScenario = [lit "Financial Year,Cash Balance"; lit "2023,100.00"].
Proof.
  refine (proj1 (proj2 (scenario_outputs utcHost _))).
  unfold msPerDay. simpl. lia.
Defined.

(** C5 as stated fails on a host behind UTC: the Cash line dated
    2023-01-01 is counted in the year 2022. *)
Lemma scenario_counterexample :
  yearly westHost cacheScenario = [lit "Financial Year,Cash Balance"; lit "2022,100.00"].
Proof. vm_compute. reflexivity. Qed.

(** *** C6: the load comes before the jobs *)

(** C6, as amended.  In every run during which no other run of the same
    service starts, the cache that the three jobs read holds every [.csv]
    file of the directory with its parsed lines, and nothing else: the jobs
    begin only once the last read has completed.  (Runs that started
    earlier may still be loading meanwhile.) *)
Theorem jobs_see_loaded_cache (dir : directory) (c0 : cache)
    (before : list event) (r : nat) (during : list event) (s : sys) (seen : cache) :
  exec dir (initial c0) (before ++ Start r :: during) = Some s ->
  forallb (fun e => negb (isStart e)) during = true ->
  phaseOf (phases s) r = Some (Reporting seen) ->
  forall file,
    getOwn seen file =
    if existsb (eqb file) (csvFiles dir)
    then option_map parseContent (readFile dir file)
    else None.
Proof.
  intros Hexec Hns Hph.
  rewrite exec_app in Hexec.
  destruct (exec dir (initial c0) before) as [s1|] eqn:E1; [|discriminate].
  assert (Hp1 : pendingOk dir s1).
  { eapply pendingOk_exec; [|exact E1]. intros r' p H. discriminate. }
  cbn [exec] in Hexec.
  destruct (step dir s1 (Start r)) as [s2|] eqn:E2; [|discriminate].
  pose proof (inv_start dir r s1 s2 Hp1 E2) as Hi.
  pose proof (inv_exec dir r during s2 s Hns Hi Hexec) as (_ & _ & Hr).
  unfold runOk in Hr. rewrite Hph in Hr. exact Hr.
Qed.

(** A run alone over two files meets the conditions of C6. *)
Lemma jobs_see_loaded_cache_witness :
  getOwn (loadFiles dirTwoFiles [bCsv; aCsv]) aCsv =
  if existsb (eqb aCsv) (csvFiles dirTwoFiles)
  then option_map parseContent (readFile dirTwoFiles aCsv)
  else None.
Proof.
  refine (jobs_see_loaded_cache dirTwoFiles [] [] 1 runAlone
            {| cacheNow := loadFiles dirTwoFiles [bCsv; aCsv];
               phases := [(1%nat, Reporting (loadFiles dirTwoFiles [bCsv; aCsv]))] |}
            (loadFiles dirTwoFiles [bCsv; aCsv]) _ _ _ aCsv);
    vm_compute; reflexivity.
Defined.

(** C6 as stated fails when runs overlap: a second run that starts while
    the first awaits b.csv empties the cache, and the jobs of the first
    run then read a cache without a.csv. *)
Lemma overlapping_runs_counterexample :
  exists s,
    exec dirTwoFiles (initial []) overlappingRuns = Some s
    /\ phaseOf (phases s) 1 =
         Some (Reporting [(bCsv, [[lit "2023-01-01"; lit "Rent Expense"; [];
                                   lit "2"; lit "0"]])])
    /\ csvFiles dirTwoFiles = [aCsv; bCsv].
Proof. eexists. repeat split; vm_compute; reflexivity. Qed.

(** *** C7: the record parser *)

Lemma trimStart_snoc (s : jsstring) (w : N) :
  isWhiteSpace w = true ->
  trimStart (s ++ [w]) =
  match trimStart s with
  | [] => []
  | t => t ++ [w]
  end.
Proof.
  intros Hw. induction s as [|c s IH]; cbn [app trimStart].
  - now rewrite Hw.
  - destruct (isWhiteSpace c); [exact IH | reflexivity].
Qed.

(** A trailing line break adds no row. *)
Lemma trailing_newline_no_row (content : jsstring) :
  parseContent (content ++ [chLF]) = parseContent content.
Proof.
  unfold parseContent. do 2 f_equal. unfold trim.
  rewrite (trimStart_snoc content chLF eq_refl).
  destruct (trimStart content) as [|c t]; [reflexivity|].
  unfold trimEnd. rewrite rev_app_distr. reflexivity.
Qed.

(** C7 at the failing input: the empty file parses to one row of one empty
    field, which Account Balances then reports as an account. *)
Theorem empty_file_yields_row :
  parseContent [] = [[[]]]
  /\ accounts (loadFiles dirEmptyFile [aCsv]) =
       Normal [lit "Account,Balance"; lit "undefined,0.00"].
Proof. split; vm_compute; reflexivity. Qed.

(** *** C8: the status query *)

(** C8, as amended.  Given one of the job names [accounts], [yearly] or
    [fs], the status query returns that job's current status string and
    leaves the service as it was; the type of its argument admits no other
    name, and at run time the property read completes normally for every
    string, with [undefined] for a name that is neither a job nor a
    property of [Object.prototype]. *)
Theorem state_query (sv : service) (scope : Scope) :
  stateQuery sv scope = (state (states sv) scope, sv)
  /\ stateAt (states sv) (scopeName scope) = Normal (VString (state (states sv) scope))
  /\ (forall name, stateAt (states sv) name <> TypeError)
  /\ (forall name,
        existsb (eqb name) [lit "accounts"; lit "yearly"; lit "fs"] = false ->
        isInherited name = false ->
        stateAt (states sv) name = Normal VUndefined).
Proof.
  split; [reflexivity|]. split; [destruct scope; reflexivity|]. split.
  - intros name. unfold stateAt.
    repeat match goal with
           | |- context [if ?b then _ else _] => destruct b
           end; discriminate.
  - intros name Hn Hi. cbn [existsb] in Hn.
    repeat (apply orb_false_iff in Hn as [? Hn]).
    unfold stateAt.
    replace (eqb name (lit "accounts")) with false by congruence.
    replace (eqb name (lit "yearly")) with false by congruence.
    replace (eqb name (lit "fs")) with false by congruence.
    now rewrite Hi.
Qed.

(** C8 as stated fails: for a name that is no job the query returns
    [undefined]; nothing is reported as an error. *)
Lemma unknown_scope_counterexample :
  stateAt idleStates (lit "ledger") = Normal VUndefined.
Proof. vm_compute. reflexivity. Qed.

(** *** C9: running twice *)

(** C9, as amended.  Two runs over the same directory on the same host
    whose reads complete in the same order leave the same three output
    files, whatever the service and the files were before the first run
    and whatever the jobs' timings. *)
Theorem same_order_same_outputs (h : host) (tm1 tm2 : timing) (dir : directory)
    (order : list jsstring) (w : world) :
  out (generateAllReports h tm2 dir order (generateAllReports h tm1 dir order w))
  = out (generateAllReports h tm1 dir order w).
Proof.
  unfold generateAllReports. cbn [out].
  destruct (accounts (loadFiles dir order)); reflexivity.
Qed.

(** C9 as stated fails: when the two reads complete in the other order in
    the second run, accounts.csv lists the accounts in the other order. *)
Lemma load_order_counterexample :
  accountsCsv (out (generateAllReports utcHost someTiming dirTwoFiles [aCsv; bCsv]
                      freshWorld))
    = Some (text ["Account,Balance"; "Cash,1.00"; "Rent Expense,2.00"]%string)
  /\ accountsCsv (out (generateAllReports utcHost someTiming dirTwoFiles [bCsv; aCsv]
                         (generateAllReports utcHost someTiming dirTwoFiles [aCsv; bCsv]
                            freshWorld)))
    = Some (text ["Account,Balance"; "Rent Expense,2.00"; "Cash,1.00"]%string).
Proof. split; vm_compute; reflexivity. Qed.

(** *** C10: a falsy balance restarts *)

(** C10.  When the balance stored for the account of a line is falsy (0, -0
    or NaN), processing the line stores 0 plus the line's debit minus
    credit, [0 + (parseFloat(debit || '0') - parseFloat(credit || '0'))]:
    whatever had been accumulated for the account is gone. *)
Theorem falsy_balance_restarts (bal : obj slot) (line : row) (b : number) :
  getOwn bal (accountKey line) = Some (Num b) ->
  truthy b = false ->
  getOwn (accountsStep bal line) (accountKey line)
  = Some (Num (add pzero
                 (sub (parseFloat (match nth_error line 3 with
                                   | Some (c :: s) => c :: s
                                   | _ => lit "0"
                                   end))
                      (parseFloat (match nth_error line 4 with
                                   | Some (c :: s) => c :: s
                                   | _ => lit "0"
                                   end))))).
Proof.
  intros Hget Hb. unfold accountsStep. rewrite Hget, Hb.
  rewrite getOwn_setOwn_same. unfold amount, debitOf, creditOf, orZeroText.
  destruct (nth_error line 3) as [[|c3 s3]|];
    destruct (nth_error line 4) as [[|c4 s4]|]; reflexivity.
Qed.

(** After a debit of 5 and a debit that is not a number the balance of
    Rent is NaN; the next line, a debit of 3, meets the conditions of C10,
    and the balance stored is the Number 3, 3 * 2^51 * 2^-51. *)
Lemma falsy_balance_restarts_witness :
  getOwn (accountsStep
            (fold_left accountsStep
               [[lit "2023-01-01"; lit "Rent"; []; lit "5"; lit "0"];
                [lit "2023-01-02"; lit "Rent"; []; lit "abc"; lit "0"]] [])
            [lit "2023-01-03"; lit "Rent"; []; lit "3"; lit "0"])
         (accountKey [lit "2023-01-03"; lit "Rent"; []; lit "3"; lit "0"])
  = Some (Num (S754_finite false 6755399441055744 (-51))).
Proof.
  refine (falsy_balance_restarts _ [lit "2023-01-03"; lit "Rent"; []; lit "3"; lit "0"]
            NaN _ _); vm_compute; reflexivity.
Defined.

(** An amount that is NaN makes the balance NaN, and the next line of the
    account starts again from 0. *)
Lemma add_NaN (x : number) : add x NaN = NaN.
Proof. now destruct x. Qed.

Lemma nan_then_restart (bal : obj slot) (line1 line2 : row) (b : number) :
  getOwn bal (accountKey line1) = Some (Num b) ->
  accountKey line2 = accountKey line1 ->
  amount line1 = NaN ->
  getOwn (accountsStep (accountsStep bal line1) line2) (accountKey line1)
  = Some (Num (add pzero (amount line2))).
Proof.
  intros Hget Hk Hnan.
  assert (E : getOwn (accountsStep bal line1) (accountKey line2) = Some (Num NaN)).
  { rewrite Hk. unfold accountsStep at 1. rewrite Hget, Hnan, add_NaN.
    apply getOwn_setOwn_same. }
  unfold accountsStep at 1. rewrite E. cbn [truthy NaN].
  rewrite <- Hk. apply getOwn_setOwn_same.
Qed.

(** The balance written for that file is that of the last line alone. *)
Lemma restart_example :
  accounts (loadFiles dirRestart [aCsv]) = Normal [lit "Account,Balance"; lit "Rent,3.00"].
Proof. vm_compute. reflexivity. Qed.

End Claims.

(** ** More of the service: the parser, the loader and the three jobs *)

Module ParserFacts.
Import JsString JsNumber JsObject JsDate Reports Spec Facts.

Lemma split_nonempty (sep : N) (s : jsstring) : split sep s <> [].
Proof.
  induction s as [|c s IH]; cbn [split]; [discriminate|].
  destruct (N.eqb c sep); [discriminate|].
  destruct (split sep s); [contradiction | discriminate].
Qed.

Lemma join_cons (sep : jsstring) (x : jsstring) (l : list jsstring) :
  l <> [] -> join sep (x :: l) = x ++ sep ++ join sep l.
Proof. destruct l; [contradiction | reflexivity]. Qed.

(** Joining the pieces of a split gives the string back. *)
Lemma join_split (sep : N) (s : jsstring) : join [sep] (split sep s) = s.
Proof.
  induction s as [|c s IH]; [reflexivity|].
  cbn [split]. destruct (N.eqb c sep) eqn:E.
  - apply N.eqb_eq in E. subst c.
    rewrite join_cons by apply split_nonempty. now rewrite IH.
  - pose proof (split_nonempty sep s) as Hne.
    destruct (split sep s) as [|piece rest]; [contradiction|].
    destruct rest as [|r rest].
    + cbn [join] in *. now rewrite IH.
    + rewrite <- IH. rewrite !join_cons by discriminate. reflexivity.
Qed.

(** No piece of a split contains the separator. *)
Lemma split_no_sep (sep : N) (s : jsstring) :
  Forall (fun piece => ~ In sep piece) (split sep s).
Proof.
  induction s as [|c s IH]; cbn [split].
  - constructor; [intros [] | constructor].
  - destruct (N.eqb c sep) eqn:E.
    + constructor; [intros [] | assumption].
    + destruct (split sep s) as [|piece rest]; [repeat constructor|].
      * intros [H|[]]. subst. rewrite N.eqb_refl in E. discriminate.
      * inversion IH as [|? ? Hp Hrest]; subst. constructor; [|assumption].
        intros [H|H]; [|contradiction].
        subst. rewrite N.eqb_refl in E. discriminate.
Qed.

Lemma split_piece (sep : N) (piece : jsstring) :
  ~ In sep piece -> split sep piece = [piece].
Proof.
  induction piece as [|c s IH]; intros H; [reflexivity|].
  cbn [split]. destruct (N.eqb c sep) eqn:E.
  - apply N.eqb_eq in E. subst. exfalso. apply H. now left.
  - rewrite IH by (intros Hin; apply H; now right). reflexivity.
Qed.

Lemma split_app (sep : N) (piece rest : jsstring) :
  ~ In sep piece ->
  split sep (piece ++ sep :: rest) = piece :: split sep rest.
Proof.
  induction piece as [|c s IH]; intros H; cbn [app split].
  - now rewrite N.eqb_refl.
  - destruct (N.eqb c sep) eqn:E.
    + apply N.eqb_eq in E. subst. exfalso. apply H. now left.
    + rewrite IH by (intros Hin; apply H; now right). reflexivity.
Qed.

(** Splitting the join of pieces that are free of the separator gives the
    pieces back. *)
Lemma split_join (sep : N) (pieces : list jsstring) :
  pieces <> [] ->
  Forall (fun piece => ~ In sep piece) pieces ->
  split sep (join [sep] pieces) = pieces.
Proof.
  induction pieces as [|p pieces IH]; intros Hne Hall; [contradiction|].
  inversion Hall as [|? ? Hp Hrest]; subst.
  destruct pieces as [|q pieces].
  - cbn [join]. now apply split_piece.
  - rewrite join_cons by discriminate. cbn [app].
    rewrite split_app by assumption. f_equal. apply IH; [discriminate | assumption].
Qed.

Lemma trimStart_ws (s : jsstring) :
  forallb isWhiteSpace s = true -> trimStart s = [].
Proof.
  induction s as [|c s IH]; cbn [forallb trimStart]; [reflexivity|].
  intros H. apply andb_true_iff in H as [Hc Hs]. rewrite Hc. now apply IH.
Qed.

Lemma join_in (sep x : N) (pieces : list jsstring) :
  In x (join [sep] pieces) -> x = sep \/ exists piece, In piece pieces /\ In x piece.
Proof.
  induction pieces as [|p pieces IH]; [intros []|].
  destruct pieces as [|q pieces].
  - cbn [join]. intros H. right. exists p. split; [now left | assumption].
  - rewrite join_cons by discriminate. rewrite in_app_iff. cbn [app In].
    intros [H|[H|H]].
    + right. exists p. split; [now left | assumption].
    + now left.
    + destruct (IH H) as [E|(piece & Hin & Hx)]; [now left|].
      right. exists piece. split; [now right | assumption].
Qed.

End ParserFacts.

Module DateFacts.
Import JsString JsDate MoreSpec FormatFacts.

(** ** Facts about the calendar of [Date] *)

Lemma DayFromYear_mono (a b : Z) : a < b -> DayFromYear a < DayFromYear b.
Proof.
  unfold DayFromYear. intros H. Z.div_mod_to_equations. lia.
Qed.

Lemma YearFromTime_unique (t y : Z) :
  DayFromYear y <= Day t < DayFromYear (y + 1) -> YearFromTime t = y.
Proof.
  intros [H1 H2]. pose proof (YearFromTime_spec t) as [S1 S2].
  set (Y := YearFromTime t) in *.
  assert (D1 : DayFromYear Y <= Day t).
  { unfold TimeFromYear, Day, msPerDay in *. Z.div_mod_to_equations. lia. }
  assert (D2 : Day t < DayFromYear (Y + 1)).
  { unfold TimeFromYear, Day, msPerDay in *. Z.div_mod_to_equations. lia. }
  destruct (Z.lt_trichotomy Y y) as [L|[E|L]]; [|assumption|].
  - assert (DayFromYear (Y + 1) <= DayFromYear y).
    { destruct (Z.eq_dec (Y + 1) y) as [->|]; [lia|].
      apply Z.lt_le_incl, DayFromYear_mono. lia. }
    lia.
  - assert (DayFromYear (y + 1) <= DayFromYear Y).
    { destruct (Z.eq_dec (y + 1) Y) as [->|]; [lia|].
      apply Z.lt_le_incl, DayFromYear_mono. lia. }
    lia.
Qed.

Lemma DaysInYear (y : Z) :
  DayFromYear (y + 1) - DayFromYear y = if InLeapYear y then 366 else 365.
Proof.
  unfold DayFromYear, InLeapYear.
  destruct (y mod 4 =? 0) eqn:E4; destruct (y mod 100 =? 0) eqn:E100;
    destruct (y mod 400 =? 0) eqn:E400; cbn [andb orb negb];
    rewrite ?Z.eqb_eq, ?Z.eqb_neq in *; Z.div_mod_to_equations; lia.
Qed.

Lemma MakeDay_bounds (y m d : Z) :
  1 <= m <= 12 -> 1 <= d <= DaysInMonth y m ->
  DayFromYear y <= MakeDay y m d < DayFromYear (y + 1)
  /\ (MakeDay y m d = DayFromYear y <-> m = 1 /\ d = 1).
Proof.
  intros Hm Hd. pose proof (DaysInYear y) as Hy. unfold MakeDay.
  assert (Cases : m = 1 \/ m = 2 \/ m = 3 \/ m = 4 \/ m = 5 \/ m = 6 \/ m = 7
                  \/ m = 8 \/ m = 9 \/ m = 10 \/ m = 11 \/ m = 12) by lia.
  repeat (destruct Cases as [->|Cases]); [..|subst m];
    match goal with
    | |- context [Z.to_nat ?e] =>
        let n := eval vm_compute in (Z.to_nat e) in change (Z.to_nat e) with n
    end;
    unfold DaysInMonth in *; cbn -[InLeapYear DayFromYear] in *;
    unfold DaysInMonth; cbn -[InLeapYear DayFromYear];
    destruct (InLeapYear y); lia.
Qed.

Lemma isoDateOnly_inv (s : jsstring) (t : Z) :
  isoDateOnly s = Some t ->
  length s = 10%nat
  /\ 1 <= writtenMonth s <= 12
  /\ 1 <= writtenDay s <= DaysInMonth (writtenYear s) (writtenMonth s)
  /\ t = msPerDay * MakeDay (writtenYear s) (writtenMonth s) (writtenDay s).
Proof.
  unfold isoDateOnly.
  do 10 (destruct s as [|? s]; [discriminate|]).
  destruct s; [|discriminate].
  match goal with |- context [if ?b then _ else _] => destruct b end; [|discriminate].
  unfold writtenYear, writtenMonth, writtenDay. cbn [firstn skipn].
  match goal with |- context [if ?b then _ else _] => destruct b eqn:E end;
    [|discriminate].
  intros [= <-].
  repeat (apply andb_true_iff in E as [E ?]).
  rewrite ?Z.leb_le in *. repeat split; auto.
Qed.

Lemma Day_shift (D off : Z) :
  Day (msPerDay * D + off) = D + off / msPerDay.
Proof.
  unfold Day, msPerDay. rewrite Z.mul_comm, Z.add_comm, Z.div_add by lia. lia.
Qed.

End DateFacts.

Module FloatFacts.
Import JsString JsNumber MoreSpec.

(** ** Facts about binary64 arithmetic on integers below 2^53 *)

Lemma digits2_size (p : positive) : digits2_pos p = Pos.size p.
Proof. induction p; cbn; congruence. Qed.

Lemma digits2_bounds (p : positive) :
  2 ^ (Zpos (digits2_pos p) - 1) <= Zpos p < 2 ^ Zpos (digits2_pos p).
Proof.
  rewrite digits2_size. split.
  - pose proof (Pos.size_le p) as H.
    assert (E : Zpos (2 ^ Pos.size p) = 2 ^ Zpos (Pos.size p)) by (now rewrite Pos2Z.inj_pow).
    assert (2 ^ Zpos (Pos.size p) <= 2 * Zpos p) by (rewrite <- E; exact H).
    replace (Zpos (Pos.size p)) with (Zpos (Pos.size p) - 1 + 1) in H0 by lia.
    rewrite Z.pow_add_r in H0 by lia. lia.
  - pose proof (Pos.size_gt p) as H.
    assert (E : Zpos (2 ^ Pos.size p) = 2 ^ Zpos (Pos.size p)) by (now rewrite Pos2Z.inj_pow).
    rewrite <- E. exact H.
Qed.

Lemma digits2_unique (p : positive) (d : Z) :
  2 ^ (d - 1) <= Zpos p < 2 ^ d -> Zpos (digits2_pos p) = d.
Proof.
  intros [H1 H2]. pose proof (digits2_bounds p) as [B1 B2].
  set (D := Zpos (digits2_pos p)) in *.
  assert (0 < d).
  { destruct (Z_lt_le_dec 0 d); [assumption|].
    assert (2 ^ d <= 2 ^ 0) by (destruct (Z.eq_dec d 0) as [->|]; [lia|rewrite Z.pow_neg_r by lia; cbn; lia]).
    cbn in *. lia. }
  destruct (Z.lt_trichotomy D d) as [L|[E|L]]; [|assumption|].
  - assert (2 ^ D <= 2 ^ (d - 1)) by (apply Z.pow_le_mono_r; lia). lia.
  - assert (2 ^ d <= 2 ^ (D - 1)) by (apply Z.pow_le_mono_r; lia). lia.
Qed.

Lemma iter_xO (p : positive) (d : positive) :
  Zpos (Pos.iter xO p d) = Zpos p * 2 ^ Zpos d.
Proof.
  induction d using Pos.peano_ind.
  - cbn. lia.
  - rewrite Pos.iter_succ, Pos2Z.inj_succ, Z.pow_succ_r by lia.
    rewrite Pos2Z.inj_xO, IHd. lia.
Qed.

Lemma iter_pos_nat {A : Type} (f : A -> A) (p : positive) (x : A) :
  iter_pos f p x = Nat.iter (Pos.to_nat p) f x.
Proof.
  revert x. induction p as [p IH|p IH|]; intros x; cbn [iter_pos].
  - rewrite !IH, Pos2Nat.inj_xI.
    rewrite <- Nat.iter_succ_r, <- Nat.iter_add. f_equal. lia.
  - rewrite !IH, Pos2Nat.inj_xO.
    rewrite <- Nat.iter_add. f_equal. lia.
  - reflexivity.
Qed.

Lemma shr_1_even (z : Z) :
  0 < z ->
  shr_1 {| shr_m := 2 * z; shr_r := false; shr_s := false |}
  = {| shr_m := z; shr_r := false; shr_s := false |}.
Proof. destruct z; [lia| |lia]. intros _. reflexivity. Qed.

Lemma shr_exact (n : nat) (z : Z) :
  0 < z ->
  Nat.iter n shr_1 {| shr_m := z * 2 ^ Z.of_nat n; shr_r := false; shr_s := false |}
  = {| shr_m := z; shr_r := false; shr_s := false |}.
Proof.
  intros Hz. induction n as [|n IH].
  - cbn [Nat.iter]. change (Z.of_nat 0) with 0. rewrite Z.pow_0_r, Z.mul_1_r. reflexivity.
  - rewrite Nat.iter_succ_r.
    replace (z * 2 ^ Z.of_nat (S n)) with (2 * (z * 2 ^ Z.of_nat n))
      by (rewrite Nat2Z.inj_succ, Z.pow_succ_r by lia; lia).
    rewrite shr_1_even by (apply Z.mul_pos_pos; [assumption | apply Z.pow_pos_nonneg; lia]).
    exact IH.
Qed.

Lemma fexp_small (d : Z) : 0 < d -> fexp prec emax d = d - 53.
Proof. unfold fexp, emin, prec, emax. lia. Qed.

Lemma digits2_shift (N m : positive) (j : Z) :
  0 <= j -> Zpos m = Zpos N * 2 ^ j ->
  Zpos (digits2_pos m) = Zpos (digits2_pos N) + j.
Proof.
  intros Hj Hm. pose proof (digits2_bounds N) as [B1 B2].
  apply digits2_unique. rewrite Hm.
  replace (Zpos (digits2_pos N) + j - 1) with (Zpos (digits2_pos N) - 1 + j) by lia.
  rewrite !Z.pow_add_r by lia.
  assert (0 < 2 ^ j) by (apply Z.pow_pos_nonneg; lia). nia.
Qed.

Lemma binary_round_whole (s : bool) (N : positive) (k : Z) (M : positive) :
  Zpos N < 2 ^ 53 -> 0 <= k ->
  Zpos M = Zpos N * 2 ^ k ->
  binary_round prec emax s M (- k)
  = S754_finite s (Z.to_pos (Zpos N * 2 ^ (53 - Zpos (digits2_pos N))))
                (Zpos (digits2_pos N) - 53).
Proof.
  intros HN Hk HM.
  pose proof (digits2_bounds N) as [B1 B2].
  set (d := Zpos (digits2_pos N)) in *.
  assert (Hd : 0 < d <= 53).
  { split; [unfold d; lia|].
    destruct (Z_le_gt_dec d 53); [assumption|].
    assert (2 ^ 53 <= 2 ^ (d - 1)) by (apply Z.pow_le_mono_r; lia). lia. }
  assert (DM : Zpos (digits2_pos M) = d + k).
  { now apply digits2_shift. }
  unfold binary_round. rewrite DM.
  replace (d + k + - k) with d by lia. rewrite fexp_small by lia.
  unfold shl_align.
  destruct (d - 53 - - k) as [|q|q] eqn:Eq.
  - (* already aligned *)
    unfold binary_round_aux, shr_fexp. cbn [Zdigits2]. rewrite DM.
    replace (d + k + - k) with d by lia. rewrite fexp_small by lia.
    replace (d - 53 - - k) with 0 by lia. cbn [shr shr_record_of_loc shr_m loc_of_shr_record round_nearest_even Zdigits2].
    rewrite DM. replace (d + k + - k) with d by lia. rewrite fexp_small by lia.
    replace (d - 53 - - k) with 0 by lia. cbn [shr shr_m].
    replace (- k <=? emax - prec) with true by (symmetry; apply Z.leb_le; unfold emax, prec; lia).
    f_equal; [|lia]. replace (53 - d) with k by lia. rewrite <- HM. reflexivity.
  - (* shift right *)
    unfold binary_round_aux, shr_fexp. cbn [Zdigits2]. rewrite DM.
    replace (d + k + - k) with d by lia. rewrite fexp_small by lia.
    rewrite Eq. cbn [shr shr_record_of_loc].
    rewrite iter_pos_nat.
    assert (HM' : Zpos M = (Zpos N * 2 ^ (53 - d)) * 2 ^ Z.of_nat (Pos.to_nat q)).
    { rewrite HM, positive_nat_Z, <- Z.mul_assoc, <- Z.pow_add_r by lia.
      do 2 f_equal. lia. }
    rewrite HM'. rewrite shr_exact
      by (apply Z.mul_pos_pos; [lia | apply Z.pow_pos_nonneg; lia]).
    cbn [shr_m loc_of_shr_record round_nearest_even].
    assert (P : 0 < Zpos N * 2 ^ (53 - d))
      by (apply Z.mul_pos_pos; [lia | apply Z.pow_pos_nonneg; lia]).
    destruct (Zpos N * 2 ^ (53 - d)) as [|m|m] eqn:Em; try lia.
    assert (Dm : Zpos (digits2_pos m) = 53).
    { rewrite (digits2_shift N m (53 - d)); [fold d; lia | lia | now rewrite Em]. }
    cbn [Zdigits2]. rewrite Dm.
    replace (53 + (- k + Zpos q)) with d by lia. rewrite fexp_small by lia.
    replace (d - 53 - (- k + Zpos q)) with 0 by lia. cbn [shr shr_m].
    replace (- k + Zpos q <=? emax - prec) with true
      by (symmetry; apply Z.leb_le; unfold emax, prec; lia).
    f_equal. lia.
  - (* shift left *)
    unfold binary_round_aux, shr_fexp. cbn [Zdigits2].
    assert (Em : Zpos (Pos.iter xO M q) = Zpos N * 2 ^ (53 - d)).
    { rewrite iter_xO, HM, <- Z.mul_assoc, <- Z.pow_add_r by lia.
      do 2 f_equal. lia. }
    assert (Dm : Zpos (digits2_pos (Pos.iter xO M q)) = 53).
    { rewrite (digits2_shift N _ (53 - d)); [fold d; lia | lia | exact Em]. }
    rewrite Dm. replace (53 + (d - 53)) with d by lia. rewrite fexp_small by lia.
    replace (d - 53 - (d - 53)) with 0 by lia.
    cbn [shr shr_record_of_loc shr_m loc_of_shr_record round_nearest_even Zdigits2].
    rewrite Dm. replace (53 + (d - 53)) with d by lia. rewrite fexp_small by lia.
    replace (d - 53 - (d - 53)) with 0 by lia. cbn [shr shr_m].
    replace (d - 53 <=? emax - prec) with true
      by (symmetry; apply Z.leb_le; unfold emax, prec; lia).
    f_equal. rewrite <- Em. reflexivity.
Qed.

Lemma normalize_whole (n k : Z) :
  Z.abs n < 2 ^ 53 -> 0 <= k ->
  binary_normalize prec emax (n * 2 ^ k) (- k) false = wholeNumber n.
Proof.
  intros Hn Hk. assert (P : 0 < 2 ^ k) by (apply Z.pow_pos_nonneg; lia).
  destruct n as [|p|p]; cbn [wholeNumber].
  - reflexivity.
  - destruct (Zpos p * 2 ^ k) as [|M|M] eqn:EM; try lia.
    cbn [binary_normalize]. apply binary_round_whole; [lia | lia | now rewrite EM].
  - destruct (Zneg p * 2 ^ k) as [|M|M] eqn:EM; try lia.
    cbn [binary_normalize]. apply binary_round_whole; [lia | lia | lia].
Qed.

Lemma ofZ_whole (n : Z) :
  Z.abs n < 2 ^ 53 -> binary_normalize prec emax n 0 false = wholeNumber n.
Proof.
  intros Hn. pose proof (normalize_whole n 0 Hn (Z.le_refl 0)) as H.
  rewrite Z.pow_0_r, Z.mul_1_r in H. exact H.
Qed.

Lemma wholeNumber_finite (n : Z) :
  n <> 0 -> Z.abs n < 2 ^ 53 ->
  exists m e,
    wholeNumber n = S754_finite (n <? 0) m e
    /\ -52 <= e <= 0
    /\ cond_Zopp (n <? 0) (Zpos m) = n * 2 ^ (- e).
Proof.
  intros Hn Hb.
  assert (G : forall p, Zpos p < 2 ^ 53 ->
            -52 <= Zpos (digits2_pos p) - 53 <= 0
            /\ Zpos (Z.to_pos (Zpos p * 2 ^ (53 - Zpos (digits2_pos p))))
               = Zpos p * 2 ^ (- (Zpos (digits2_pos p) - 53))).
  { intros p Hp. pose proof (digits2_bounds p) as [B1 B2].
    set (d := Zpos (digits2_pos p)) in *.
    assert (Hd : 0 < d <= 53).
    { split; [unfold d; lia|].
      destruct (Z_le_gt_dec d 53); [assumption|].
      assert (2 ^ 53 <= 2 ^ (d - 1)) by (apply Z.pow_le_mono_r; lia). lia. }
    split; [lia|].
    replace (- (d - 53)) with (53 - d) by lia.
    assert (0 < 2 ^ (53 - d)) by (apply Z.pow_pos_nonneg; lia).
    rewrite Z2Pos.id by nia. reflexivity. }
  destruct n as [|p|p]; [congruence| |]; cbn [wholeNumber].
  - destruct (G p) as [G1 G2]; [lia|].
    do 2 eexists. split; [reflexivity|]. split; [exact G1|].
    cbn [Z.ltb Z.compare cond_Zopp]. exact G2.
  - destruct (G p) as [G1 G2]; [lia|].
    do 2 eexists. split; [reflexivity|]. split; [exact G1|].
    change (Zneg p <? 0) with true. cbn [cond_Zopp]. rewrite G2. lia.
Qed.

Lemma shl_align_val (m : positive) (e e' : Z) :
  e' <= e -> Zpos (fst (shl_align m e e')) = Zpos m * 2 ^ (e - e').
Proof.
  intros H. unfold shl_align. destruct (e' - e) as [|q|q] eqn:E; cbn [fst].
  - replace (e - e') with 0 by lia. lia.
  - lia.
  - rewrite iter_xO. do 2 f_equal. lia.
Qed.

Lemma add_whole (a b : Z) :
  Z.abs a < 2 ^ 53 -> Z.abs b < 2 ^ 53 -> Z.abs (a + b) < 2 ^ 53 ->
  SFadd prec emax (wholeNumber a) (wholeNumber b) = wholeNumber (a + b).
Proof.
  intros Ha Hb Hab.
  destruct (Z.eq_dec a 0) as [->|Na].
  { cbn [wholeNumber Z.add]. destruct (Z.eq_dec b 0) as [->|Nb]; [reflexivity|].
    destruct (wholeNumber_finite b Nb Hb) as (m & e & -> & _). reflexivity. }
  destruct (Z.eq_dec b 0) as [->|Nb].
  { rewrite Z.add_0_r. destruct (wholeNumber_finite a Na Ha) as (m & e & -> & _).
    reflexivity. }
  destruct (wholeNumber_finite a Na Ha) as (ma & ea & -> & Ea & Va).
  destruct (wholeNumber_finite b Nb Hb) as (mb & eb & -> & Eb & Vb).
  cbn [SFadd]. cbv zeta.
  set (ez := Z.min ea eb).
  assert (Hz : -52 <= ez <= 0 /\ ez <= ea /\ ez <= eb) by (unfold ez; lia).
  assert (S : cond_Zopp (a <? 0) (Zpos (fst (shl_align ma ea ez)))
              + cond_Zopp (b <? 0) (Zpos (fst (shl_align mb eb ez)))
              = (a + b) * 2 ^ (- ez)).
  { rewrite !shl_align_val by lia.
    assert (Xa : cond_Zopp (a <? 0) (Zpos ma * 2 ^ (ea - ez)) = a * 2 ^ (- ez)).
    { replace (- ez) with (- ea + (ea - ez)) by lia. rewrite Z.pow_add_r by lia.
      rewrite Z.mul_assoc, <- Va. destruct (a <? 0); cbn [cond_Zopp]; lia. }
    assert (Xb : cond_Zopp (b <? 0) (Zpos mb * 2 ^ (eb - ez)) = b * 2 ^ (- ez)).
    { replace (- ez) with (- eb + (eb - ez)) by lia. rewrite Z.pow_add_r by lia.
      rewrite Z.mul_assoc, <- Vb. destruct (b <? 0); cbn [cond_Zopp]; lia. }
    rewrite Xa, Xb. lia. }
  rewrite S. replace ez with (- - ez) at 2 by lia.
  apply normalize_whole; lia.
Qed.

Lemma opp_whole (a : Z) : SFopp (wholeNumber a) = match a with 0 => S754_zero true | _ => wholeNumber (- a) end.
Proof. destruct a; reflexivity. Qed.

Lemma sub_whole (a b : Z) :
  Z.abs a < 2 ^ 53 -> Z.abs b < 2 ^ 53 -> Z.abs (a - b) < 2 ^ 53 ->
  SFsub prec emax (wholeNumber a) (wholeNumber b) = wholeNumber (a - b).
Proof.
  intros Ha Hb Hab.
  destruct (Z.eq_dec b 0) as [->|Nb].
  { rewrite Z.sub_0_r. cbn [wholeNumber]. destruct (Z.eq_dec a 0) as [->|Na]; [reflexivity|].
    destruct (wholeNumber_finite a Na Ha) as (m & e & -> & _). reflexivity. }
  destruct (Z.eq_dec a 0) as [->|Na].
  { cbn [wholeNumber Z.sub Z.add]. destruct b as [|p|p]; [congruence| |]; reflexivity. }
  destruct (wholeNumber_finite a Na Ha) as (ma & ea & -> & Ea & Va).
  destruct (wholeNumber_finite b Nb Hb) as (mb & eb & -> & Eb & Vb).
  cbn [SFsub]. cbv zeta.
  set (ez := Z.min ea eb).
  assert (Hz : -52 <= ez <= 0 /\ ez <= ea /\ ez <= eb) by (unfold ez; lia).
  assert (S : cond_Zopp (a <? 0) (Zpos (fst (shl_align ma ea ez)))
              - cond_Zopp (b <? 0) (Zpos (fst (shl_align mb eb ez)))
              = (a - b) * 2 ^ (- ez)).
  { rewrite !shl_align_val by lia.
    assert (Xa : cond_Zopp (a <? 0) (Zpos ma * 2 ^ (ea - ez)) = a * 2 ^ (- ez)).
    { replace (- ez) with (- ea + (ea - ez)) by lia. rewrite Z.pow_add_r by lia.
      rewrite Z.mul_assoc, <- Va. destruct (a <? 0); cbn [cond_Zopp]; lia. }
    assert (Xb : cond_Zopp (b <? 0) (Zpos mb * 2 ^ (eb - ez)) = b * 2 ^ (- ez)).
    { replace (- ez) with (- eb + (eb - ez)) by lia. rewrite Z.pow_add_r by lia.
      rewrite Z.mul_assoc, <- Vb. destruct (b <? 0); cbn [cond_Zopp]; lia. }
    rewrite Xa, Xb. lia. }
  rewrite S. replace ez with (- - ez) at 2 by lia.
  apply normalize_whole; lia.
Qed.

End FloatFacts.

Module Extras.
Import JsString JsNumber JsObject JsDate Reports Spec MoreSpec Facts Accumulate.
Import AccountsFacts OrderFacts YearlyFacts FsFacts RunFacts FormatFacts ParserFacts.
Import DateFacts FloatFacts.

(** *** The record parser *)

Lemma in_join (sep : jsstring) (x : N) (piece : jsstring) (pieces : list jsstring) :
  In piece pieces -> In x piece -> In x (join sep pieces).
Proof.
  induction pieces as [|p pieces IH]; [intros []|].
  intros Hin Hx. destruct pieces as [|q pieces].
  - destruct Hin as [->|[]]. exact Hx.
  - rewrite join_cons by discriminate. rewrite !in_app_iff.
    destruct Hin as [->|Hin]; [now left | right; right; now apply IH].
Qed.

(** X1.  The parser loses nothing but the white space around the text:
    joining the fields of each parsed row with commas and the rows with line
    feeds gives the trimmed text back. *)
Theorem parse_then_join (content : jsstring) :
  joinLines (map (join [chComma]) (parseContent content)) = trim content.
Proof.
  unfold joinLines, parseContent. rewrite map_map.
  rewrite (map_ext _ (fun line => line)) by (intros line; apply join_split).
  rewrite map_id. apply join_split.
Qed.

(** X2.  Rows written with commas and line feeds are read back as they
    were: when no field holds a comma or a line feed, every row has a field
    and the text has no white space around it, parsing the joined text gives
    the rows. *)
Theorem join_then_parse (rows : list row) :
  rows <> [] ->
  Forall (fun r => r <> []
                   /\ Forall (fun f => ~ In chComma f /\ ~ In chLF f) r) rows ->
  trim (joinLines (map (join [chComma]) rows)) = joinLines (map (join [chComma]) rows) ->
  parseContent (joinLines (map (join [chComma]) rows)) = rows.
Proof.
  intros Hne Hall Htrim. unfold parseContent. rewrite Htrim.
  unfold joinLines. rewrite split_join.
  - rewrite map_map. rewrite <- (map_id rows) at 2.
    apply map_ext_in. intros r Hr.
    rewrite Forall_forall in Hall. destruct (Hall r Hr) as [Hr1 Hr2].
    apply split_join; [assumption|].
    eapply Forall_impl; [|exact Hr2]. intros f [Hc _]. exact Hc.
  - destruct rows; [contradiction | discriminate].
  - rewrite Forall_forall. intros line Hline.
    apply in_map_iff in Hline as (r & <- & Hr).
    rewrite Forall_forall in Hall. destruct (Hall r Hr) as [_ Hr2].
    intros Hin. apply join_in in Hin as [E|(f & Hf & Hx)].
    + discriminate.
    + rewrite Forall_forall in Hr2. now apply (Hr2 f Hf).
Qed.

(** The rows of the scenario meet the conditions of X2. *)
Lemma join_then_parse_witness :
  parseContent
    (joinLines (map (join [chComma])
       [[lit "2023-01-01"; lit "Cash"; []; lit "100"; lit "0"];
        [lit "2023-02-01"; lit "Sales Revenue"; []; lit "0"; lit "100"]]))
  = [[lit "2023-01-01"; lit "Cash"; []; lit "100"; lit "0"];
     [lit "2023-02-01"; lit "Sales Revenue"; []; lit "0"; lit "100"]].
Proof.
  refine (join_then_parse _ _ _ _).
  - discriminate.
  - repeat constructor; try discriminate;
      (vm_compute; intuition discriminate).
  - vm_compute. reflexivity.
Defined.

(** X3.  Every text parses to at least one row, every row has at least one
    field (so the date field of a row is never missing), and no field holds
    a comma or a line feed. *)
Theorem parsed_rows_shape (content : jsstring) :
  parseContent content <> []
  /\ Forall (fun r => r <> []
                      /\ Forall (fun f => ~ In chComma f /\ ~ In chLF f) r)
            (parseContent content).
Proof.
  unfold parseContent. split.
  - intros H. apply map_eq_nil in H. now apply split_nonempty in H.
  - rewrite Forall_forall. intros r Hr.
    apply in_map_iff in Hr as (line & <- & Hline).
    split; [apply split_nonempty|].
    pose proof (split_no_sep chLF (trim content)) as Hlf.
    rewrite Forall_forall in Hlf. specialize (Hlf line Hline).
    pose proof (split_no_sep chComma line) as Hc.
    rewrite Forall_forall in Hc |- *. intros f Hf. split; [now apply Hc|].
    intros Hin. apply Hlf. rewrite <- (join_split chComma line).
    now apply (in_join _ _ f).
Qed.

(** X4.  A file of white space only, like the empty file, parses to one
    row whose only field is empty. *)
Theorem blank_file_one_row (content : jsstring) :
  forallb isWhiteSpace content = true -> parseContent content = [[[]]].
Proof.
  intros H. unfold parseContent, trim. now rewrite (trimStart_ws _ H).
Qed.

(** A file of two spaces and a line feed meets the condition of X4. *)
Lemma blank_file_one_row_witness : parseContent (lit "  " ++ [chLF]) = [[[]]].
Proof. refine (blank_file_one_row _ _). reflexivity. Defined.

(** *** The loader *)

Lemma sound_step (dir : directory) (s s' : sys) (e : event) :
  sound dir (cacheNow s) -> pendingOk dir s -> step dir s e = Some s' ->
  sound dir (cacheNow s').
Proof.
  intros Hs Hp Hstep. destruct e as [r|r|r file]; simpl in Hstep.
  - destruct (phaseOf (phases s) r); [discriminate|].
    injection Hstep as <-. intros f rows H. discriminate.
  - destruct (phaseOf (phases s) r) as [[| |]|]; try discriminate.
    now injection Hstep as <-.
  - destruct (phaseOf (phases s) r) as [[|p0|]|] eqn:Ph; try discriminate.
    destruct (existsb (eqb file) p0) eqn:Ex; [|discriminate].
    injection Hstep as <-. simpl.
    apply storeFile_sound; [|assumption].
    apply (Hp r p0 Ph). now apply existsb_eqb_In.
Qed.

Lemma sound_exec (dir : directory) (tr : list event) (s s' : sys) :
  sound dir (cacheNow s) -> pendingOk dir s -> exec dir s tr = Some s' ->
  sound dir (cacheNow s').
Proof.
  revert s; induction tr as [|e tr IH]; intros s Hs Hp H; simpl in H.
  - now injection H as <-.
  - destruct (step dir s e) as [s1|] eqn:E; [|discriminate].
    apply (IH s1); [eapply sound_step | eapply pendingOk_step |]; eassumption.
Qed.

(** X5.  However runs start and overlap on a fresh service, the cache only
    ever holds [.csv] files of the directory, each with the rows its text
    parses to: no other file is loaded and no row is made up. *)
Theorem cache_holds_only_csv (dir : directory) (tr : list event) (s : sys) :
  exec dir (initial []) tr = Some s ->
  forall file rows,
    getOwn (cacheNow s) file = Some rows ->
    existsb (eqb file) (csvFiles dir) = true
    /\ option_map parseContent (readFile dir file) = Some rows.
Proof.
  intros H. apply (sound_exec dir tr (initial []) s); [| |exact H].
  - intros f rows Hget. discriminate.
  - intros r p Hp. discriminate.
Qed.

(** The overlapping runs over two files meet the condition of X5. *)
Lemma cache_holds_only_csv_witness :
  existsb (eqb bCsv) (csvFiles dirTwoFiles) = true
  /\ option_map parseContent (readFile dirTwoFiles bCsv)
     = Some [[lit "2023-01-01"; lit "Rent Expense"; []; lit "2"; lit "0"]].
Proof.
  refine (cache_holds_only_csv dirTwoFiles overlappingRuns
            {| cacheNow := [(bCsv, [[lit "2023-01-01"; lit "Rent Expense"; [];
                                     lit "2"; lit "0"]])];
               phases := [(2%nat, AwaitReaddir);
                          (1%nat, Reporting
                                    [(bCsv, [[lit "2023-01-01"; lit "Rent Expense"; [];
                                              lit "2"; lit "0"]])])] |}
            _ bCsv _ _); vm_compute; reflexivity.
Defined.

(** X6.  A run that starts while no run is in flight, and during which no
    other run starts, hands its jobs the cache [loadFiles] builds from the
    completion order of its reads, whatever the cache held before the run:
    entries that earlier runs left do not survive. *)
Theorem run_alone_hands_over (dir : directory) (c0 : cache) (r : nat)
    (order : list jsstring) :
  NoDup order ->
  (forall f, In f order <-> In f (csvFiles dir)) ->
  exists s,
    exec dir (initial c0) (Start r :: ReaddirDone r :: map (ReadDone r) order) = Some s
    /\ phaseOf (phases s) r = Some (Reporting (loadFiles dir order)).
Proof. apply run_alone. Qed.

(** A run over two files, after a finished run that left a stale entry,
    meets the conditions of X6. *)
Lemma run_alone_hands_over_witness :
  exists s,
    exec dirTwoFiles (initial [(lit "old.csv", [])])
         (Start 1 :: ReaddirDone 1 :: map (ReadDone 1) [bCsv; aCsv]) = Some s
    /\ phaseOf (phases s) 1 = Some (Reporting (loadFiles dirTwoFiles [bCsv; aCsv])).
Proof.
  refine (run_alone_hands_over dirTwoFiles [(lit "old.csv", [])] 1 [bCsv; aCsv] _ _).
  - repeat constructor; vm_compute; intuition discriminate.
  - intros f. vm_compute. tauto.
Defined.

Lemma loadFiles_keys (dir : directory) (order : list jsstring) (c : cache) :
  NoDup order ->
  (forall f, In f order -> In f (csvFiles dir) /\ ~ In f (map fst c)) ->
  map fst (fold_left (storeFile dir) order c) = map fst c ++ order.
Proof.
  revert c; induction order as [|f order IH]; intros c Hnd H; cbn [fold_left].
  - now rewrite app_nil_r.
  - inversion Hnd as [|? ? Hnotin Hnd']; subst.
    destruct (H f (or_introl eq_refl)) as [Hcsv Hnew].
    destruct (csv_readFile dir f Hcsv) as [content E].
    assert (Hk : map fst (storeFile dir c f) = map fst c ++ [f]).
    { unfold storeFile. rewrite E, keys_setOwn.
      destruct (existsb (eqb f) (map fst c)) eqn:Ex; [|reflexivity].
      apply existsb_eqb_In in Ex. contradiction. }
    rewrite IH; [rewrite Hk, <- app_assoc; reflexivity | assumption |].
    intros g Hg. split; [apply H; now right|].
    rewrite Hk, in_app_iff. intros [Hin|[->|[]]]; [|contradiction].
    apply (proj2 (H g (or_intror Hg))). exact Hin.
Qed.

(** X7.  The cache keeps the completion order: when the reads of distinct
    [.csv] files complete in the order [order], the cache enumerates exactly
    these files in that order, each with the rows of its text. *)
Theorem loadFiles_in_completion_order (dir : directory) (order : list jsstring) :
  NoDup order ->
  (forall f, In f order -> In f (csvFiles dir)) ->
  keys (loadFiles dir order) = order
  /\ values (loadFiles dir order)
     = map (fun f => match readFile dir f with
                     | Some content => parseContent content
                     | None => []
                     end) order.
Proof.
  intros Hnd Hin.
  assert (Hcsv : forall f, In f order -> endsWith f (lit ".csv") = true).
  { intros f Hf. specialize (Hin f Hf). unfold csvFiles in Hin.
    apply filter_In in Hin. tauto. }
  assert (Hk : map fst (loadFiles dir order) = order).
  { unfold loadFiles. rewrite loadFiles_keys; [reflexivity | assumption|].
    intros f Hf. split; [now apply Hin | intros []]. }
  unfold keys, values. rewrite (loadFiles_entries dir order Hcsv).
  split; [exact Hk|].
  assert (Hnd' : NoDup (map fst (loadFiles dir order))) by now rewrite Hk.
  rewrite <- Hk at 2. rewrite map_map.
  apply map_ext_in. intros [f rows] He. cbn [fst snd].
  assert (Hf : In f order).
  { rewrite <- Hk. change f with (fst (f, rows)). now apply in_map. }
  pose proof (In_getOwn _ _ _ Hnd' He) as Hget.
  assert (Hl : getOwn (loadFiles dir order) f = parsed dir f).
  { assert (G : forall o c, In f o -> (forall g, In g o -> In g (csvFiles dir)) ->
                getOwn (fold_left (storeFile dir) o c) f = parsed dir f).
    { induction o as [|g o IHo]; intros c Hfo Hall; [contradiction|].
      cbn [fold_left].
      destruct (in_dec (list_eq_dec N.eq_dec) f o) as [Hin'|Hnin].
      - apply IHo; [assumption | intros x Hx; apply Hall; now right].
      - destruct Hfo as [->|Hfo]; [|contradiction].
        assert (K : forall o' c', ~ In f o' ->
                  getOwn (fold_left (storeFile dir) o' c') f = getOwn c' f).
        { induction o' as [|x o' IH']; intros c' Hn; [reflexivity|].
          cbn [fold_left]. rewrite IH' by (intros Hx; apply Hn; now right).
          apply storeFile_other. intros ->. apply Hn. now left. }
        rewrite K by assumption. apply storeFile_same. apply Hall. now left. }
    apply G; assumption. }
  rewrite Hl in Hget. unfold parsed in Hget.
  destruct (readFile dir f); simpl in Hget; congruence.
Qed.

(** Two files read in the order b.csv, a.csv meet the conditions of X7. *)
Lemma loadFiles_in_completion_order_witness :
  keys (loadFiles dirTwoFiles [bCsv; aCsv]) = [bCsv; aCsv].
Proof.
  refine (proj1 (loadFiles_in_completion_order dirTwoFiles [bCsv; aCsv] _ _)).
  - repeat constructor; vm_compute; intuition discriminate.
  - intros f. vm_compute. tauto.
Defined.

(** *** The Yearly Cash Flow job *)

(** Two strictly increasing lists with the same elements are equal. *)
Lemma sorted_unique (l1 l2 : list jsstring) :
  StronglySorted (fun a b => ltb a b = true) l1 ->
  StronglySorted (fun a b => ltb a b = true) l2 ->
  (forall x, In x l1 <-> In x l2) ->
  l1 = l2.
Proof.
  intros H1. revert l2. induction H1 as [|a l1 Hs1 IH Ha]; intros l2 H2 Hin.
  - destruct l2 as [|b l2]; [reflexivity|].
    exfalso. apply (proj2 (Hin b)). now left.
  - destruct H2 as [|b l2 Hs2 Hb].
    + exfalso. apply (proj1 (Hin a)). now left.
    + rewrite Forall_forall in Ha, Hb.
      assert (E : a = b).
      { destruct (proj1 (Hin a) (or_introl eq_refl)) as [E|Hal2]; [now symmetry|].
        destruct (proj2 (Hin b) (or_introl eq_refl)) as [E|Hbl1]; [assumption|].
        pose proof (Hb a Hal2) as L1. pose proof (Ha b Hbl1) as L2.
        rewrite (ltb_asym _ _ L1) in L2. discriminate. }
      subst b. f_equal. apply IH; [assumption|].
      intros x. split; intros Hx.
      * destruct (proj1 (Hin x) (or_intror Hx)) as [E|H]; [|assumption].
        subst x. pose proof (Ha a Hx) as L. rewrite ltb_irrefl in L. discriminate.
      * destruct (proj2 (Hin x) (or_intror Hx)) as [E|H]; [|assumption].
        subst x. pose proof (Hb a Hx) as L. rewrite ltb_irrefl in L. discriminate.
Qed.

Lemma sort_strict (l : list jsstring) :
  NoDup l -> StronglySorted (fun a b => ltb a b = true) (sort leb l).
Proof.
  intros Hnd. apply sorted_strict.
  - eapply Permutation_NoDup; [apply sort_perm | assumption].
  - apply sort_sorted. apply leb_total.
Qed.

Lemma yearly_keys_sorted (h : host) (c : cache) :
  sort leb (keys (cashByYear h c))
  = sort leb (yearsSeen h (rowsExcept (lit "yearly.csv") c)).
Proof.
  apply sorted_unique.
  - apply sort_strict, cashByYear_NoDup.
  - apply sort_strict, firstSeen_NoDup.
  - intros y. rewrite !sort_In, cashByYear_keys.
    unfold yearsSeen. rewrite firstSeen_In, in_map_iff. split.
    + intros (line & Hin & E). split; [eauto | tauto].
    + intros [(line & E & Hin) _]. eauto.
Qed.

Lemma yearly_lines (h : host) (c : cache) :
  forallb (fun y => noNaNTotal pzero
                      (amountsOfYear h y (rowsExcept (lit "yearly.csv") c)))
          (yearsSeen h (rowsExcept (lit "yearly.csv") c)) = true ->
  yearly h c =
  lit "Financial Year,Cash Balance"
  :: map (fun y => balanceLine y
                     (total (amountsOfYear h y (rowsExcept (lit "yearly.csv") c))))
         (sort leb (yearsSeen h (rowsExcept (lit "yearly.csv") c))).
Proof.
  intros Hok. unfold yearly. f_equal. rewrite yearly_keys_sorted.
  apply map_ext_in. intros y Hy. unfold balanceLine. do 2 f_equal.
  apply (proj1 (sort_In _ _ _)) in Hy.
  rewrite forallb_forall in Hok. specialize (Hok y Hy).
  rewrite cashByYear_rows, getOwn_accum. cbn [getOwn].
  change (valuesOf (yearOf h) amount y (cashRows (rowsExcept (lit "yearly.csv") c)))
    with (amountsOfYear h y (rowsExcept (lit "yearly.csv") c)).
  assert (Hne : amountsOfYear h y (rowsExcept (lit "yearly.csv") c) <> []).
  { unfold yearsSeen in Hy. apply firstSeen_In in Hy as [Hy _].
    apply in_map_iff in Hy as (line & E & Hin).
    unfold amountsOfYear. intros Hnil. apply map_eq_nil in Hnil.
    assert (Hf : In line (filter (fun l => eqb (yearOf h l) y)
                            (cashRows (rowsExcept (lit "yearly.csv") c)))).
    { apply filter_In. split; [assumption | now apply eqb_eq]. }
    rewrite Hnil in Hf. contradiction. }
  destruct (fold_Some_nonempty _ None Hne) as [b Hb].
  rewrite Hb. apply toFixed2_sameValue.
  eapply restart_total_value; eassumption.
Qed.

(** X8.  While no running total is NaN, the balance that Yearly Cash Flow
    writes for a year is the binary64 sum, left to right in cache order, of
    debit minus credit over the Cash lines of that year in the files other
    than [yearly.csv]. *)
Theorem yearly_balances (h : host) (c : cache) :
  forallb (fun y => noNaNTotal pzero
                      (amountsOfYear h y (rowsExcept (lit "yearly.csv") c)))
          (yearsSeen h (rowsExcept (lit "yearly.csv") c)) = true ->
  yearly h c =
  lit "Financial Year,Cash Balance"
  :: map (fun y => balanceLine y
                     (total (amountsOfYear h y (rowsExcept (lit "yearly.csv") c))))
         (sort leb (yearsSeen h (rowsExcept (lit "yearly.csv") c))).
Proof. exact (yearly_lines h c). Qed.

(** The files of two years, with one named yearly.csv, meet the condition
    of X8. *)
Lemma yearly_balances_witness :
  yearly utcHost (loadFiles dirYears [aCsv; lit "yearly.csv"]) =
  lit "Financial Year,Cash Balance"
  :: map (fun y => balanceLine y
                     (total (amountsOfYear utcHost y
                               (rowsExcept (lit "yearly.csv")
                                  (loadFiles dirYears [aCsv; lit "yearly.csv"])))))
         (sort leb (yearsSeen utcHost
                      (rowsExcept (lit "yearly.csv")
                         (loadFiles dirYears [aCsv; lit "yearly.csv"])))).
Proof.
  refine (yearly_balances utcHost _ _). vm_compute. reflexivity.
Defined.

(** X9.  Yearly Cash Flow reads nothing but the Cash lines: two caches whose
    files other than [yearly.csv] hold the same Cash lines in the same order
    give the same output, whatever their other lines are. *)
Theorem yearly_reads_cash_only (h : host) (c c' : cache) :
  cashRows (rowsExcept (lit "yearly.csv") c)
  = cashRows (rowsExcept (lit "yearly.csv") c') ->
  yearly h c = yearly h c'.
Proof.
  intros H. unfold yearly. now rewrite !cashByYear_rows, H.
Qed.

(** The scenario and its Cash line alone meet the condition of X9. *)
Lemma yearly_reads_cash_only_witness :
  yearly utcHost cacheScenario
  = yearly utcHost [(bCsv, [[lit "2023-01-01"; lit "Cash"; []; lit "100"; lit "0"]])].
Proof.
  refine (yearly_reads_cash_only utcHost _ _ _). vm_compute. reflexivity.
Defined.

(** *** The Financial Statement job *)

(** X10.  The Financial Statement reads nothing but the lines of the
    accounts of its taxonomy: two caches whose files other than [fs.csv]
    hold the same amounts, in the same order, for each of these accounts
    give the same statement, whatever their other lines are. *)
Theorem fs_reads_taxonomy_only (c c' : cache) :
  (forall a, In a taxonomy ->
             amountsOf a (rowsExcept (lit "fs.csv") c)
             = amountsOf a (rowsExcept (lit "fs.csv") c')) ->
  fs c = fs c'.
Proof.
  intros H. unfold fs. rewrite !fsLines_statement. apply statement_ext.
  intros a Ha. rewrite !fsBalances_value by assumption. now rewrite (H a Ha).
Qed.

(** The scenario and the scenario with a line of an unlisted account meet
    the condition of X10. *)
Lemma fs_reads_taxonomy_only_witness :
  fs cacheScenario
  = fs [(aCsv, [[lit "2023-01-01"; lit "Cash"; []; lit "100"; lit "0"];
                [lit "2023-01-15"; lit "Petty Cash"; []; lit "7"; lit "0"];
                [lit "2023-02-01"; lit "Sales Revenue"; []; lit "0"; lit "100"]])].
Proof.
  refine (fs_reads_taxonomy_only _ _ _).
  intros a Ha. unfold taxonomy in Ha.
  repeat (destruct Ha as [<-|Ha]; [vm_compute; reflexivity|]).
  destruct Ha.
Defined.

Lemma add_NaN_l (x : number) : add NaN x = NaN.
Proof. reflexivity. Qed.

Lemma add_NaN_r (x : number) : add x NaN = NaN.
Proof. now destruct x. Qed.

Lemma fold_add_NaN (xs : list number) : fold_left add xs NaN = NaN.
Proof. induction xs as [|x xs IH]; [reflexivity|]. cbn [fold_left]. exact IH. Qed.

Lemma fold_add_In_NaN (xs : list number) (acc : number) :
  In NaN xs -> fold_left add xs acc = NaN.
Proof.
  revert acc; induction xs as [|x xs IH]; intros acc H; [contradiction|].
  cbn [fold_left]. destruct H as [->|H].
  - rewrite add_NaN_r. apply fold_add_NaN.
  - now apply IH.
Qed.

Lemma statement_line (v : jsstring -> number) (a : jsstring) :
  In a taxonomy -> In (balanceLine a (v a)) (statement v).
Proof.
  intros Ha. unfold taxonomy in Ha. unfold statement.
  assert (G : forall g, In a g -> In (balanceLine a (v a)) (groupLines v g)).
  { intros g Hg. unfold groupLines.
    apply (in_map (fun account => balanceLine account (v account))). exact Hg. }
  rewrite !in_app_iff in Ha. rewrite !in_app_iff.
  destruct Ha as [Ha|[Ha|[Ha|[Ha|Ha]]]].
  - right. left. now apply G.
  - right. right. left. now apply G.
  - do 4 right. left. now apply G.
  - do 6 right. left. now apply G.
  - do 8 right. left. now apply G.
Qed.

(** X11.  In the Financial Statement one amount that is NaN blanks its
    account: when a line of an account of the taxonomy (in a file other than
    [fs.csv]) has a NaN amount, the account is shown as 0.00 and counts as 0
    in the totals, whatever its other lines are. *)
Theorem fs_nan_blanks_account (c : cache) (line : row) :
  In line (rowsExcept (lit "fs.csv") c) ->
  In (accountKey line) taxonomy ->
  amount line = NaN ->
  valueOf (fsBalances c) (accountKey line) = pzero
  /\ In (accountKey line ++ lit ",0.00") (fs c).
Proof.
  intros Hin Ha Hnan.
  assert (E : valueOf (fsBalances c) (accountKey line) = pzero).
  { rewrite fsBalances_value by assumption. unfold total.
    rewrite fold_add_In_NaN; [reflexivity|].
    unfold amountsOf. rewrite <- Hnan.
    apply in_map. apply filter_In. split; [assumption | apply eqb_refl]. }
  split; [exact E|].
  unfold fs. rewrite fsLines_statement.
  pose proof (statement_line (valueOf (fsBalances c)) _ Ha) as H.
  rewrite E in H. exact H.
Qed.

(** A Cash line of 100 and a Cash line whose debit is no number meet the
    conditions of X11. *)
Lemma fs_nan_blanks_account_witness :
  valueOf (fsBalances
             [(aCsv, [[lit "2023-01-01"; lit "Cash"; []; lit "100"; lit "0"];
                      [lit "2023-01-02"; lit "Cash"; []; lit "abc"; lit "0"]])])
          (accountKey [lit "2023-01-02"; lit "Cash"; []; lit "abc"; lit "0"]) = pzero
  /\ In (accountKey [lit "2023-01-02"; lit "Cash"; []; lit "abc"; lit "0"] ++ lit ",0.00")
        (fs [(aCsv, [[lit "2023-01-01"; lit "Cash"; []; lit "100"; lit "0"];
                     [lit "2023-01-02"; lit "Cash"; []; lit "abc"; lit "0"]])]).
Proof.
  refine (fs_nan_blanks_account _ _ _ _ _).
  - vm_compute. tauto.
  - vm_compute. tauto.
  - vm_compute. reflexivity.
Defined.

(** *** The Account Balances job *)

Lemma proto_not_function : ~ In protoAccessor inheritedFunctions.
Proof.
  intros H. apply existsb_eqb_In in H. vm_compute in H. discriminate.
Qed.

Lemma isInherited_iff (k : jsstring) :
  isInherited k = true <-> k = protoAccessor \/ In k inheritedFunctions.
Proof.
  unfold isInherited. rewrite existsb_eqb_In. simpl. intuition congruence.
Qed.

Lemma setOwn_NoDup {V : Type} (o : obj V) (k : jsstring) (v : V) :
  NoDup (map fst o) -> NoDup (map fst (setOwn o k v)).
Proof.
  intros H. rewrite keys_setOwn.
  destruct (existsb (eqb k) (map fst o)) eqn:E; [assumption|].
  apply NoDup_app; [assumption | repeat constructor; intros [] |].
  intros x Hx [<-|[]]. apply existsb_eqb_In in Hx. congruence.
Qed.

Lemma getOwn_setOwn (o : obj slot) (k k' : jsstring) (v : slot) :
  getOwn (setOwn o k v) k' = if eqb k' k then Some v else getOwn o k'.
Proof.
  destruct (eqb k' k) eqn:E.
  - apply eqb_eq in E. subst. apply getOwn_setOwn_same.
  - apply eqb_neq in E. now apply getOwn_setOwn_other.
Qed.

(** One line keeps the balances in order, and puts a string under the
    account exactly when the account is the name of an inherited function. *)
Lemma accountsStep_ok (bal : obj slot) (line : row) :
  balancesOk bal ->
  balancesOk (accountsStep bal line)
  /\ (forall k, getOwn (accountsStep bal line) k = Some Str <->
                getOwn bal k = Some Str
                \/ (k = accountKey line /\ In k inheritedFunctions)).
Proof.
  intros (Hnd & Hp & Hs & Hn). unfold accountsStep.
  set (a := accountKey line).
  destruct (getOwn bal a) as [[b|]|] eqn:G.
  - assert (Ha : ~ In a inheritedFunctions) by (eapply Hn; exact G).
    assert (Hap : a <> protoAccessor) by (intros E; rewrite E in G; congruence).
    split.
    + split; [now apply setOwn_NoDup|]. split; [|split].
      * rewrite getOwn_setOwn_other; [assumption | congruence].
      * intros k. rewrite getOwn_setOwn.
        destruct (eqb k a) eqn:E; [discriminate | apply Hs].
      * intros k b'. rewrite getOwn_setOwn.
        destruct (eqb k a) eqn:E; [|apply Hn].
        apply eqb_eq in E. now subst.
    + intros k. rewrite getOwn_setOwn. destruct (eqb k a) eqn:E.
      * apply eqb_eq in E. subst k. split; [discriminate|].
        intros [H|[_ H]]; [congruence | contradiction].
      * apply eqb_neq in E. tauto.
  - assert (Ha : In a inheritedFunctions) by (apply Hs; exact G).
    assert (Hap : a <> protoAccessor) by (intros E; rewrite E in G; congruence).
    split.
    + split; [now apply setOwn_NoDup|]. split; [|split].
      * rewrite getOwn_setOwn_other; [assumption | congruence].
      * intros k. rewrite getOwn_setOwn.
        destruct (eqb k a) eqn:E; [|apply Hs].
        apply eqb_eq in E. now subst.
      * intros k b'. rewrite getOwn_setOwn.
        destruct (eqb k a) eqn:E; [discriminate | apply Hn].
    + intros k. rewrite getOwn_setOwn. destruct (eqb k a) eqn:E.
      * apply eqb_eq in E. subst k. tauto.
      * apply eqb_neq in E. tauto.
  - destruct (eqb a protoAccessor) eqn:Ep.
    + apply eqb_eq in Ep. split; [repeat split; assumption|].
      intros k. split; [tauto|]. intros [H|[-> H]]; [assumption|].
      rewrite Ep in H. exfalso. now apply proto_not_function.
    + apply eqb_neq in Ep. destruct (isInherited a) eqn:Ei.
      * assert (Ha : In a inheritedFunctions).
        { apply isInherited_iff in Ei. tauto. }
        split.
        -- split; [now apply setOwn_NoDup|]. split; [|split].
           ++ rewrite getOwn_setOwn_other; [assumption | congruence].
           ++ intros k. rewrite getOwn_setOwn.
              destruct (eqb k a) eqn:E; [|apply Hs].
              apply eqb_eq in E. now subst.
           ++ intros k b'. rewrite getOwn_setOwn.
              destruct (eqb k a) eqn:E; [discriminate | apply Hn].
        -- intros k. rewrite getOwn_setOwn. destruct (eqb k a) eqn:E.
           ++ apply eqb_eq in E. subst k. tauto.
           ++ apply eqb_neq in E. tauto.
      * assert (Ha : ~ In a inheritedFunctions).
        { intros H. assert (isInherited a = true) by (apply isInherited_iff; tauto).
          congruence. }
        split.
        -- split; [now apply setOwn_NoDup|]. split; [|split].
           ++ rewrite getOwn_setOwn_other; [assumption | congruence].
           ++ intros k. rewrite getOwn_setOwn.
              destruct (eqb k a) eqn:E; [discriminate | apply Hs].
           ++ intros k b'. rewrite getOwn_setOwn.
              destruct (eqb k a) eqn:E; [|apply Hn].
              apply eqb_eq in E. now subst.
        -- intros k. rewrite getOwn_setOwn. destruct (eqb k a) eqn:E.
           ++ apply eqb_eq in E. subst k. split; [discriminate|].
              intros [H|[_ H]]; [congruence | contradiction].
           ++ apply eqb_neq in E. tauto.
Qed.

Lemma accountsSteps_ok (rows : list row) (bal : obj slot) :
  balancesOk bal ->
  balancesOk (fold_left accountsStep rows bal)
  /\ (forall k, getOwn (fold_left accountsStep rows bal) k = Some Str <->
                getOwn bal k = Some Str
                \/ (In k inheritedFunctions
                    /\ exists line, In line rows /\ accountKey line = k)).
Proof.
  revert bal; induction rows as [|line rows IH]; intros bal Hok; cbn [fold_left].
  - split; [assumption|]. intros k. split; [tauto|].
    intros [H|(_ & line & [] & _)]. assumption.
  - destruct (accountsStep_ok bal line Hok) as [Hok' Hstr].
    destruct (IH _ Hok') as [Hok'' Hstr'].
    split; [assumption|]. intros k. rewrite Hstr', Hstr. split.
    + intros [[H|[-> H]]|(H & l & Hl & E)].
      * now left.
      * right. split; [assumption|]. exists line. split; [now left | reflexivity].
      * right. split; [assumption|]. exists l. split; [now right | assumption].
    + intros [H|(H & l & [->|Hl] & E)].
      * left. now left.
      * left. right. split; [now symmetry | assumption].
      * right. split; [assumption|]. exists l. tauto.
Qed.

Lemma accountLines_TypeError (es : list (jsstring * slot)) :
  accountLines es = TypeError <-> exists k, In (k, Str) es.
Proof.
  induction es as [|[k [b|]] es IH]; cbn [accountLines].
  - split; [discriminate | intros (k & [])].
  - destruct (accountLines es) eqn:E.
    + split; [discriminate|]. intros (k' & [H|H]); [discriminate|].
      pose proof (proj2 IH (ex_intro _ k' H)). discriminate.
    + split; [|reflexivity]. intros _.
      destruct (proj1 IH eq_refl) as (k' & Hk'). exists k'. now right.
  - split; [|reflexivity]. intros _. exists k. now left.
Qed.

Lemma balancesOk_empty : balancesOk [].
Proof. repeat split; try constructor; intros; discriminate. Qed.

Lemma getOwn_Some_In {V : Type} (o : obj V) (k : jsstring) (v : V) :
  getOwn o k = Some v -> In (k, v) o.
Proof.
  induction o as [|[k' v'] o IH]; cbn [getOwn]; [discriminate|].
  destruct (eqb k k') eqn:E.
  - apply eqb_eq in E. intros [= ->]. subst. now left.
  - intros H. right. now apply IH.
Qed.

Lemma accounts_TypeError_rows (c : cache) :
  accounts c = TypeError <->
  exists line, In line (allRows c) /\ In (accountKey line) inheritedFunctions.
Proof.
  unfold accounts. rewrite accountBalances_rows.
  destruct (accountsSteps_ok (allRows c) [] balancesOk_empty)
    as [(Hnd & _) Hstr].
  set (bal := fold_left accountsStep (allRows c) []) in *.
  assert (E : accountLines (entries bal) = TypeError <->
              exists k, getOwn bal k = Some Str).
  { rewrite accountLines_TypeError. split.
    - intros (k & Hk). exists k. apply In_getOwn; [assumption|].
      now apply (proj1 (entries_In _ _)).
    - intros (k & Hk). exists k. apply entries_In. now apply getOwn_Some_In. }
  split.
  - intros H. destruct (accountLines (entries bal)) eqn:El; [discriminate|].
    destruct (proj1 E eq_refl) as (k & Hk).
    apply Hstr in Hk as [Hk|(Hin & line & Hl & Ek)]; [discriminate|].
    exists line. split; [assumption | now rewrite Ek].
  - intros (line & Hl & Hin).
    assert (Hk : exists k, getOwn bal k = Some Str).
    { exists (accountKey line). apply Hstr. right. split; [assumption|]. eauto. }
    apply E in Hk. now rewrite Hk.
Qed.

(** X12.  Account Balances throws (and writes no file) exactly when some
    cached line has an account that is the name of a function every object
    inherits ([constructor], [toString], [valueOf], ...); in every other
    case it completes with its lines. *)
Theorem accounts_throws_iff (c : cache) :
  accounts c = TypeError <->
  exists line, In line (allRows c) /\ In (accountKey line) inheritedFunctions.
Proof. exact (accounts_TypeError_rows c). Qed.

Lemma accountsSteps_proto (rows : list row) (bal : obj slot) :
  getOwn bal protoAccessor = None ->
  fold_left accountsStep rows bal = fold_left accountsStep (filter notProto rows) bal.
Proof.
  revert bal; induction rows as [|line rows IH]; intros bal Hp; [reflexivity|].
  cbn [fold_left filter]. unfold notProto at 1.
  destruct (eqb (accountKey line) protoAccessor) eqn:E; cbn [negb].
  - assert (Es : accountsStep bal line = bal).
    { unfold accountsStep. apply eqb_eq in E. rewrite E, Hp.
      now rewrite eqb_refl. }
    rewrite Es. now apply IH.
  - cbn [fold_left]. apply IH.
    apply eqb_neq in E. unfold accountsStep.
    destruct (getOwn bal (accountKey line)) as [[b|]|].
    + rewrite getOwn_setOwn_other; [assumption | congruence].
    + rewrite getOwn_setOwn_other; [assumption | congruence].
    + apply eqb_neq in E. rewrite E.
      destruct (isInherited (accountKey line));
        (rewrite getOwn_setOwn_other; [assumption | apply eqb_neq in E; congruence]).
Qed.

(** X13.  Account Balances passes over every line whose account is
    [__proto__]: such lines give no output line and change no balance, so
    two caches that agree once these lines are left out give the same
    output. *)
Theorem accounts_skips_proto (c c' : cache) :
  filter notProto (allRows c) = filter notProto (allRows c') ->
  accounts c = accounts c'.
Proof.
  intros H. unfold accounts. rewrite !accountBalances_rows.
  rewrite (accountsSteps_proto (allRows c)), (accountsSteps_proto (allRows c'))
    by reflexivity.
  now rewrite H.
Qed.

(** A Cash line with and without a [__proto__] line beside it meets the
    condition of X13. *)
Lemma accounts_skips_proto_witness :
  accounts [(aCsv, [[lit "2023-01-01"; lit "__proto__"; []; lit "5"; lit "0"];
                    [lit "2023-01-01"; lit "Cash"; []; lit "1"; lit "0"]])]
  = accounts [(aCsv, [[lit "2023-01-01"; lit "Cash"; []; lit "1"; lit "0"]])].
Proof.
  refine (accounts_skips_proto _ _ _). vm_compute. reflexivity.
Defined.

(** *** The year of a ledger line *)

(** X14.  On a host whose local time is UTC or ahead of it by less than a
    day at that instant, a line whose date is written [YYYY-MM-DD], with a
    month and a day that exist, is counted under the year written in the
    date. *)
Theorem year_east_of_utc (h : host) (date : jsstring) (rest : row) (t : Z) :
  isoDateOnly date = Some t ->
  0 <= localTZA h t < msPerDay ->
  yearOf h (date :: rest) = intToString (writtenYear date).
Proof.
  intros Hs Hoff. unfold yearOf. cbn [nth_error]. unfold newDate.
  rewrite Hs. cbn [getFullYear yearToString]. f_equal.
  apply isoDateOnly_inv in Hs as (_ & Hm & Hd & ->).
  pose proof (MakeDay_bounds _ _ _ Hm Hd) as [HB _].
  apply YearFromTime_unique. rewrite Day_shift.
  rewrite Z.div_small by exact Hoff. lia.
Qed.

(** New Year's Day of 2023 on the host on UTC meets the conditions of X14. *)
Lemma year_east_of_utc_witness :
  yearOf utcHost [lit "2023-01-01"; lit "Cash"; []; lit "100"; lit "0"]
  = intToString (writtenYear (lit "2023-01-01")).
Proof.
  refine (year_east_of_utc utcHost _ _ 1672531200000 _ _).
  - vm_compute. reflexivity.
  - unfold msPerDay. simpl. lia.
Defined.

(** X15.  On a host whose local time is behind UTC by at most a day at that
    instant, a line whose date is written [YYYY-MM-DD], with a month and a
    day that exist, is counted under the year before the one written when
    the date is the first of January, and under the year written on every
    other day. *)
Theorem year_west_of_utc (h : host) (date : jsstring) (rest : row) (t : Z) :
  isoDateOnly date = Some t ->
  - msPerDay <= localTZA h t < 0 ->
  yearOf h (date :: rest)
  = intToString (if (writtenMonth date =? 1) && (writtenDay date =? 1)
                 then writtenYear date - 1 else writtenYear date).
Proof.
  intros Hs Hoff. unfold yearOf. cbn [nth_error]. unfold newDate.
  rewrite Hs. cbn [getFullYear yearToString]. f_equal.
  apply isoDateOnly_inv in Hs as (_ & Hm & Hd & ->).
  pose proof (MakeDay_bounds _ _ _ Hm Hd) as [HB HE].
  apply YearFromTime_unique. rewrite Day_shift.
  set (y := writtenYear date) in *. set (m := writtenMonth date) in *.
  set (d := writtenDay date) in *.
  assert (Hq : localTZA h (msPerDay * MakeDay y m d) / msPerDay = -1).
  { unfold msPerDay in *. Z.div_mod_to_equations. lia. }
  rewrite Hq.
  pose proof (DaysInYear (y - 1)) as HY.
  replace (y - 1 + 1) with y in HY by lia.
  destruct (m =? 1) eqn:E1; destruct (d =? 1) eqn:E2;
    cbn [andb]; rewrite ?Z.eqb_eq, ?Z.eqb_neq in *.
  - replace (y - 1 + 1) with y by lia.
    destruct (InLeapYear (y - 1)); lia.
  - assert (MakeDay y m d <> DayFromYear y) by (intros X; apply HE in X; lia).
    lia.
  - assert (MakeDay y m d <> DayFromYear y) by (intros X; apply HE in X; lia).
    lia.
  - assert (MakeDay y m d <> DayFromYear y) by (intros X; apply HE in X; lia).
    lia.
Qed.

(** The second of January 2023 on the host five hours behind UTC meets the
    conditions of X15. *)
Lemma year_west_of_utc_witness :
  yearOf westHost [lit "2023-01-02"; lit "Cash"; []; lit "100"; lit "0"]
  = intToString (if (writtenMonth (lit "2023-01-02") =? 1)
                    && (writtenDay (lit "2023-01-02") =? 1)
                 then writtenYear (lit "2023-01-02") - 1
                 else writtenYear (lit "2023-01-02")).
Proof.
  refine (year_west_of_utc westHost _ _ 1672617600000 _ _).
  - vm_compute. reflexivity.
  - unfold msPerDay. simpl. lia.
Defined.

Lemma filter_all {A : Type} (f : A -> bool) (l : list A) :
  (forall x, In x l -> f x = true) -> filter f l = l.
Proof.
  induction l as [|x l IH]; cbn [filter]; [reflexivity|].
  intros H. rewrite (H x (or_introl eq_refl)). f_equal.
  apply IH. intros y Hy. apply H. now right.
Qed.

Lemma getOwn_None_In {V : Type} (o : obj V) (k : jsstring) (v : V) :
  getOwn o k = None -> ~ In (k, v) o.
Proof.
  induction o as [|[k' v'] o IH]; cbn [getOwn]; [tauto|].
  destruct (eqb k k') eqn:E; [discriminate|].
  intros H [X|X].
  - injection X as -> ->. now rewrite eqb_refl in E.
  - now apply IH.
Qed.

Lemma rowsExcept_absent (c : cache) (k : jsstring) :
  getOwn c k = None -> rowsExcept k c = allRows c.
Proof.
  intros H. unfold rowsExcept, filesExcept, allRows, values.
  rewrite filter_all; [reflexivity|].
  intros [k' v] Hin. cbn [fst]. apply (proj1 (entries_In _ _)) in Hin.
  destruct (eqb k' k) eqn:E; [|reflexivity].
  apply eqb_eq in E. subst k'. exfalso. exact (getOwn_None_In _ _ _ H Hin).
Qed.

Lemma orZero_sameValue (x : number) : isNaN x = false -> sameValue (orZero x) x.
Proof.
  destruct x as [s| | |]; cbn; intros H; try discriminate; try (now left).
  right. exists false, s. split; reflexivity.
Qed.

Lemma noNaNTotal_total (xs : list number) (acc : number) :
  isNaN acc = false -> noNaNTotal acc xs = true -> isNaN (fold_left add xs acc) = false.
Proof.
  revert acc. induction xs as [|x xs IH]; intros acc Ha; cbn [noNaNTotal fold_left];
    [trivial|].
  intros H. apply andb_true_iff in H as [H1 H2]. apply IH; [|assumption].
  now apply negb_true_iff in H1.
Qed.

(** *** The jobs together *)

(** X16.  Account Balances and the Financial Statement agree on the accounts
    they share: when no cached file is named [fs.csv], no account is a name
    every object inherits and no running total is NaN, every account of the
    taxonomy that occurs in the data has the same line, account and balance,
    in both outputs. *)
Theorem accounts_fs_agree (c : cache) :
  getOwn c (lit "fs.csv") = None ->
  forallb (fun line => negb (isInherited (accountKey line))) (allRows c) = true ->
  forallb (fun a => noNaNTotal pzero (amountsOf a (allRows c)))
          (accountsSeen (allRows c)) = true ->
  exists lines,
    accounts c = Normal lines
    /\ forall a, In a taxonomy -> In a (accountsSeen (allRows c)) ->
         In (balanceLine a (total (amountsOf a (allRows c)))) lines
         /\ In (balanceLine a (total (amountsOf a (allRows c)))) (fs c).
Proof.
  intros Hfs Hinh Hnan. eexists. split; [now apply accounts_lines|].
  intros a Ha Hseen. split.
  - right. apply in_map_iff. exists a. split; [reflexivity|].
    now apply enumeration_In.
  - unfold fs. rewrite fsLines_statement.
    pose proof (statement_line (valueOf (fsBalances c)) _ Ha) as H.
    rewrite fsBalances_value, (rowsExcept_absent _ _ Hfs) in H by assumption.
    unfold balanceLine in *.
    rewrite (toFixed2_sameValue _ (total (amountsOf a (allRows c)))) in H;
      [exact H|].
    apply orZero_sameValue. apply noNaNTotal_total; [reflexivity|].
    rewrite forallb_forall in Hnan. now apply Hnan.
Qed.

(** The scenario meets the conditions of X16. *)
Lemma accounts_fs_agree_witness :
  exists lines,
    accounts cacheScenario = Normal lines
    /\ forall a, In a taxonomy -> In a (accountsSeen (allRows cacheScenario)) ->
         In (balanceLine a (total (amountsOf a (allRows cacheScenario)))) lines
         /\ In (balanceLine a (total (amountsOf a (allRows cacheScenario))))
               (fs cacheScenario).
Proof.
  refine (accounts_fs_agree cacheScenario _ _ _); vm_compute; reflexivity.
Defined.

(** *** Ledgers of whole amounts *)

Lemma orZeroText_nonempty (x : option jsstring) : orZeroText x <> [].
Proof. destruct x as [[|c s]|]; cbn; discriminate. Qed.

Lemma isDigit_not_ws (c : N) : isDigit c = true -> isWhiteSpace c = false.
Proof.
  unfold isDigit. intros H. apply andb_true_iff in H as [H1 H2].
  apply N.leb_le in H1, H2. unfold isWhiteSpace. cbn [existsb].
  repeat match goal with
         | |- context [N.eqb c ?k] =>
             replace (N.eqb c k) with false by (symmetry; apply N.eqb_neq; lia)
         end.
  reflexivity.
Qed.

Lemma spanDigits_all (ds : jsstring) :
  forallb isDigit ds = true -> spanDigits ds = (ds, []).
Proof.
  induction ds as [|c ds IH]; cbn [forallb spanDigits]; [reflexivity|].
  intros H. apply andb_true_iff in H as [Hc Hs]. now rewrite Hc, IH.
Qed.

Lemma parseFloat_digits (ds : jsstring) :
  ds <> [] -> forallb isDigit ds = true -> digitsVal ds < 2 ^ 53 ->
  parseFloat ds = wholeNumber (digitsVal ds).
Proof.
  intros Hne Hd Hb. pose proof (digitsVal_bounds ds Hd) as [H0 _].
  destruct ds as [|c s]; [congruence|].
  pose proof Hd as Hd'. cbn [forallb] in Hd'. apply andb_true_iff in Hd' as [Hc Hs].
  unfold parseFloat. cbn [trimStart]. rewrite (isDigit_not_ws c Hc).
  assert (Ec : N.eqb c chMinus = false /\ N.eqb c chPlus = false /\ N.eqb c 73 = false).
  { unfold isDigit in Hc. apply andb_true_iff in Hc as [H1 H2].
    apply N.leb_le in H1, H2. unfold chMinus, chPlus.
    repeat split; apply N.eqb_neq; lia. }
  destruct Ec as (E1 & E2 & E3). rewrite E1, E2.
  unfold unsignedLiteral.
  change (startsWith (lit "Infinity") (c :: s))
    with (N.eqb 73 c && startsWith (lit "nfinity") s).
  rewrite N.eqb_sym, E3. cbn [andb].
  unfold unsignedDecimal. rewrite (spanDigits_all _ Hd).
  unfold ofDecimal.
  destruct (digitsVal (c :: s)) as [|p|p] eqn:Ev; [reflexivity| |lia].
  cbn [Z.leb Z.compare]. rewrite Z.pow_0_r, Z.mul_1_r.
  unfold ofZ. apply ofZ_whole. lia.
Qed.

Lemma amount_whole (line : row) :
  isWhole line = true ->
  digitsVal (debitText line) + digitsVal (creditText line) < 2 ^ 53 ->
  amount line = wholeNumber (wholeAmount line).
Proof.
  intros Hw Hb. unfold isWhole in Hw. apply andb_true_iff in Hw as [Hd Hc].
  pose proof (digitsVal_bounds _ Hd) as [D0 _].
  pose proof (digitsVal_bounds _ Hc) as [C0 _].
  unfold amount, debitOf, creditOf, wholeAmount.
  fold (debitText line). fold (creditText line).
  rewrite !parseFloat_digits
    by (try apply orZeroText_nonempty; try assumption; lia).
  apply sub_whole; lia.
Qed.

Lemma turnover_nonneg (rows : list row) :
  forallb isWhole rows = true -> 0 <= turnover rows.
Proof.
  induction rows as [|line rows IH]; cbn [forallb turnover fold_right]; [lia|].
  intros H. apply andb_true_iff in H as [Hw Hr]. specialize (IH Hr).
  unfold isWhole in Hw. apply andb_true_iff in Hw as [Hd Hc].
  pose proof (digitsVal_bounds _ Hd). pose proof (digitsVal_bounds _ Hc).
  fold (turnover rows). lia.
Qed.

Lemma turnover_filter (f : row -> bool) (rows : list row) :
  forallb isWhole rows = true ->
  forallb isWhole (filter f rows) = true
  /\ turnover (filter f rows) <= turnover rows.
Proof.
  induction rows as [|line rows IH]; cbn [forallb filter]; [split; [reflexivity | lia]|].
  intros H. apply andb_true_iff in H as [Hw Hr]. destruct (IH Hr) as [I1 I2].
  pose proof Hw as Hw'. unfold isWhole in Hw'. apply andb_true_iff in Hw' as [Hd Hc].
  pose proof (digitsVal_bounds _ Hd). pose proof (digitsVal_bounds _ Hc).
  destruct (f line); cbn [forallb turnover fold_right];
    fold (turnover rows); fold (turnover (filter f rows)).
  - rewrite Hw, I1. split; [reflexivity | lia].
  - split; [assumption | lia].
Qed.

(** Adding the amounts of whole lines from a whole number stays exact while
    the figures added so far stay below 2^53. *)
Lemma fold_add_whole (rows : list row) (z : Z) :
  forallb isWhole rows = true ->
  Z.abs z + turnover rows < 2 ^ 53 ->
  fold_left add (map amount rows) (wholeNumber z)
  = wholeNumber (z + fold_right Z.add 0 (map wholeAmount rows))
  /\ noNaNTotal (wholeNumber z) (map amount rows) = true.
Proof.
  revert z. induction rows as [|line rows IH]; intros z Hw Hb.
  - cbn. rewrite Z.add_0_r. split; reflexivity.
  - cbn [forallb] in Hw. apply andb_true_iff in Hw as [Hl Hr].
    pose proof (turnover_nonneg rows Hr) as Ht.
    cbn [turnover fold_right] in Hb. fold (turnover rows) in Hb.
    pose proof Hl as Hl'. unfold isWhole in Hl'. apply andb_true_iff in Hl' as [Hd Hc].
    pose proof (digitsVal_bounds _ Hd) as [D0 _].
    pose proof (digitsVal_bounds _ Hc) as [C0 _].
    assert (Ea : add (wholeNumber z) (amount line) = wholeNumber (z + wholeAmount line)).
    { rewrite amount_whole by (try assumption; lia).
      apply add_whole; unfold wholeAmount; lia. }
    cbn [map fold_left noNaNTotal fold_right]. rewrite Ea.
    destruct (IH (z + wholeAmount line) Hr) as [I1 I2];
      [unfold wholeAmount; lia|].
    rewrite I1, I2. split.
    + f_equal. lia.
    + destruct (z + wholeAmount line); reflexivity.
Qed.

Lemma total_whole (a : jsstring) (rows : list row) :
  forallb isWhole rows = true -> turnover rows < 2 ^ 53 ->
  total (amountsOf a rows) = wholeNumber (wholeBalance a rows)
  /\ noNaNTotal pzero (amountsOf a rows) = true.
Proof.
  intros Hw Hb. unfold total, amountsOf, wholeBalance.
  destruct (turnover_filter (fun line => eqb (accountKey line) a) rows Hw) as [F1 F2].
  pose proof (turnover_nonneg _ F1).
  change pzero with (wholeNumber 0).
  destruct (fold_add_whole (filter (fun line => eqb (accountKey line) a) rows) 0 F1)
    as [E1 E2]; [cbn [Z.abs]; lia|].
  rewrite E1, E2. split; reflexivity.
Qed.

Lemma wholeBalance_bound (a : jsstring) (rows : list row) :
  forallb isWhole rows = true ->
  Z.abs (wholeBalance a rows) <= turnover rows.
Proof.
  intros Hw. unfold wholeBalance.
  destruct (turnover_filter (fun line => eqb (accountKey line) a) rows Hw) as [F1 F2].
  revert F1 F2. generalize (filter (fun line => eqb (accountKey line) a) rows).
  intros l F1 F2. transitivity (turnover l); [|assumption]. clear F2.
  induction l as [|line l IH]; cbn [map fold_right turnover forallb] in *; [lia|].
  apply andb_true_iff in F1 as [Hl Hr]. specialize (IH Hr).
  unfold isWhole in Hl. apply andb_true_iff in Hl as [Hd Hc].
  pose proof (digitsVal_bounds _ Hd) as [D0 _].
  pose proof (digitsVal_bounds _ Hc) as [C0 _].
  fold (turnover l). unfold wholeAmount at 1. lia.
Qed.

Lemma toFixed2_whole (n : Z) :
  Z.abs n < 2 ^ 53 -> toFixed2 (wholeNumber n) = wholeText n.
Proof.
  intros Hn. unfold wholeText.
  assert (G : forall p, Zpos p < 2 ^ 53 ->
     forall s, toFixed2 (S754_finite s (Z.to_pos (Zpos p * 2 ^ (53 - Zpos (digits2_pos p))))
                            (Zpos (digits2_pos p) - 53))
     = (if s then lit "-" else []) ++ natDigits (Zpos p) ++ lit ".00").
  { intros p Hp s. pose proof (digits2_bounds p) as [B1 B2].
    set (d := Zpos (digits2_pos p)) in *.
    assert (Hd : 0 < d <= 53).
    { split; [unfold d; lia|].
      destruct (Z_le_gt_dec d 53); [assumption|].
      assert (2 ^ 53 <= 2 ^ (d - 1)) by (apply Z.pow_le_mono_r; lia). lia. }
    assert (P : 0 < 2 ^ (53 - d)) by (apply Z.pow_pos_nonneg; lia).
    cbn [toFixed2]. rewrite Z2Pos.id by nia.
    assert (E : (0 <=? d - 53) && (10 ^ 21 <=? Zpos p * 2 ^ (53 - d) * 2 ^ (d - 53)) = false).
    { destruct (0 <=? d - 53) eqn:E0; [|reflexivity]. apply Z.leb_le in E0.
      replace d with 53 by lia. cbn [Z.sub Z.add Z.opp Z.pos_sub andb].
      apply Z.leb_gt. rewrite !Z.pow_0_r, !Z.mul_1_r.
      apply Z.lt_trans with (2 ^ 53); [assumption | reflexivity]. }
    rewrite E. f_equal.
    assert (S : scaled100 (Z.to_pos (Zpos p * 2 ^ (53 - d))) (d - 53) = Zpos p * 100).
    { unfold scaled100. rewrite Z2Pos.id by nia.
      destruct (0 <=? d - 53) eqn:E0.
      - apply Z.leb_le in E0. replace d with 53 by lia.
        change (53 - 53) with 0. rewrite Z.pow_0_r. lia.
      - apply Z.leb_gt in E0.
        replace (- (d - 53)) with (53 - d) by lia.
        replace (1 - (d - 53)) with (1 + (53 - d)) by lia.
        rewrite Z.pow_add_r by lia. change (2 ^ 1) with 2.
        replace (Zpos p * 2 ^ (53 - d) * 200 + 2 ^ (53 - d))
          with ((Zpos p * 200 + 1) * 2 ^ (53 - d)) by ring.
        rewrite Z.div_mul_cancel_r by lia.
        replace (Zpos p * 200 + 1) with (1 + (Zpos p * 100) * 2) by ring.
        rewrite Z.div_add by lia. reflexivity. }
    rewrite S. unfold fixed2Digits.
    rewrite Z.div_mul, Z.mod_mul by lia.
    change (0 / 10) with 0. change (0 mod 10) with 0. reflexivity. }
  destruct n as [|p|p]; cbn [wholeNumber].
  - reflexivity.
  - rewrite G by lia. reflexivity.
  - rewrite G by lia. reflexivity.
Qed.

(** X18.  A ledger of whole amounts is summed exactly: when no account is a
    name every object inherits, every debit and credit field is missing,
    empty or a run of decimal digits, and all these figures together stay
    below 2^53, Account Balances writes for every account the integer sum
    of debit minus credit over its lines, followed by [.00]. *)
Theorem whole_ledger_exact (c : cache) :
  forallb (fun line => negb (isInherited (accountKey line))) (allRows c) = true ->
  forallb isWhole (allRows c) = true ->
  turnover (allRows c) < 2 ^ 53 ->
  accounts c =
  Normal (lit "Account,Balance"
          :: map (fun a => wholeLine a (wholeBalance a (allRows c)))
                 (enumeration (accountsSeen (allRows c)))).
Proof.
  intros Hinh Hw Hb.
  rewrite accounts_lines; [|assumption|].
  - do 2 f_equal. apply map_ext. intros a. unfold balanceLine, wholeLine.
    destruct (total_whole a _ Hw Hb) as [-> _].
    rewrite toFixed2_whole; [reflexivity|].
    pose proof (wholeBalance_bound a _ Hw). lia.
  - apply forallb_forall. intros a _. now apply total_whole.
Qed.

Lemma orZero_whole (n : Z) : orZero (wholeNumber n) = wholeNumber n.
Proof. destruct n; reflexivity. Qed.

Lemma turnover_split (f : row -> bool) (rows : list row) :
  turnover (filter f rows) + turnover (filter (fun r => negb (f r)) rows)
  = turnover rows.
Proof.
  induction rows as [|line rows IH]; cbn [filter]; [reflexivity|].
  destruct (f line); cbn [negb turnover fold_right];
    fold (turnover rows); fold (turnover (filter f rows));
    fold (turnover (filter (fun r => negb (f r)) rows)); lia.
Qed.

Lemma filter_filter_other (a b : jsstring) (rows : list row) :
  a <> b ->
  filter (fun line => eqb (accountKey line) b)
         (filter (fun line => negb (eqb (accountKey line) a)) rows)
  = filter (fun line => eqb (accountKey line) b) rows.
Proof.
  intros Hab. induction rows as [|line rows IH]; cbn [filter]; [reflexivity|].
  destruct (eqb (accountKey line) a) eqn:Ea; cbn [negb filter].
  - apply eqb_eq in Ea. rewrite Ea.
    replace (eqb a b) with false by (symmetry; now apply eqb_neq). exact IH.
  - destruct (eqb (accountKey line) b); [now rewrite IH | exact IH].
Qed.

(** The balances of distinct accounts together stay within the turnover. *)
Lemma groupWhole_bound (accts : list jsstring) (rows : list row) :
  NoDup accts -> forallb isWhole rows = true ->
  fold_right Z.add 0 (map (fun a => Z.abs (wholeBalance a rows)) accts)
  <= turnover rows.
Proof.
  intros Hnd. revert rows. induction Hnd as [|a accts Hnotin Hnd IH]; intros rows Hw.
  - cbn. now apply turnover_nonneg.
  - cbn [map fold_right].
    destruct (turnover_filter (fun line => negb (eqb (accountKey line) a)) rows Hw)
      as [F1 _].
    specialize (IH _ F1).
    assert (E : map (fun b => Z.abs (wholeBalance b
                       (filter (fun line => negb (eqb (accountKey line) a)) rows))) accts
                = map (fun b => Z.abs (wholeBalance b rows)) accts).
    { apply map_ext_in. intros b Hb. unfold wholeBalance.
      rewrite filter_filter_other; [reflexivity|]. intros ->. contradiction. }
    rewrite E in IH.
    pose proof (turnover_split (fun line => eqb (accountKey line) a) rows) as Hs.
    cbv beta in Hs.
    destruct (turnover_filter (fun line => eqb (accountKey line) a) rows Hw) as [G1 _].
    assert (Z.abs (wholeBalance a rows)
            <= turnover (filter (fun line => eqb (accountKey line) a) rows)).
    { pose proof (wholeBalance_bound a _ G1) as B. unfold wholeBalance in *.
      assert (Ef : filter (fun line => eqb (accountKey line) a)
                     (filter (fun line => eqb (accountKey line) a) rows)
                   = filter (fun line => eqb (accountKey line) a) rows).
      { apply filter_all. intros x Hx. now apply filter_In in Hx. }
      now rewrite Ef in B. }
    lia.
Qed.

Lemma groupTotal_whole (w : jsstring -> Z) (group : list jsstring) (z : Z) :
  Z.abs z + fold_right Z.add 0 (map (fun a => Z.abs (w a)) group) < 2 ^ 53 ->
  fold_left (fun t a => add t (wholeNumber (w a))) group (wholeNumber z)
  = wholeNumber (z + groupWhole w group).
Proof.
  revert z. induction group as [|a group IH]; intros z Hb.
  - cbn. now rewrite Z.add_0_r.
  - cbn [map fold_right] in Hb.
    assert (0 <= fold_right Z.add 0 (map (fun a => Z.abs (w a)) group)).
    { clear. induction group; cbn [map fold_right]; lia. }
    cbn [fold_left]. rewrite add_whole by lia. rewrite IH by lia.
    unfold groupWhole. cbn [map fold_right]. f_equal. lia.
Qed.

Lemma sum_abs_app (w : jsstring -> Z) (g1 g2 : list jsstring) :
  fold_right Z.add 0 (map (fun a => Z.abs (w a)) (g1 ++ g2))
  = fold_right Z.add 0 (map (fun a => Z.abs (w a)) g1)
    + fold_right Z.add 0 (map (fun a => Z.abs (w a)) g2).
Proof. induction g1; cbn [app map fold_right]; lia. Qed.

Lemma groupWhole_abs (w : jsstring -> Z) (g : list jsstring) :
  Z.abs (groupWhole w g) <= fold_right Z.add 0 (map (fun a => Z.abs (w a)) g).
Proof. unfold groupWhole. induction g; cbn [map fold_right]; lia. Qed.

Lemma balanceLine_whole (a : jsstring) (n : Z) :
  Z.abs n < 2 ^ 53 -> balanceLine a (wholeNumber n) = wholeLine a n.
Proof. intros H. unfold balanceLine, wholeLine. now rewrite toFixed2_whole. Qed.

Lemma statement_whole (w : jsstring -> Z) :
  fold_right Z.add 0 (map (fun a => Z.abs (w a)) taxonomy) < 2 ^ 53 ->
  statement (fun a => wholeNumber (w a)) = wholeStatement w.
Proof.
  intros Hb. unfold taxonomy in Hb. rewrite !sum_abs_app in Hb.
  pose proof (groupWhole_abs w Revenues). pose proof (groupWhole_abs w Expenses).
  pose proof (groupWhole_abs w Assets). pose proof (groupWhole_abs w Liabilities).
  pose proof (groupWhole_abs w Equity).
  assert (N : forall g, 0 <= fold_right Z.add 0 (map (fun a => Z.abs (w a)) g)).
  { intros g. induction g; cbn [map fold_right]; lia. }
  pose proof (N Revenues). pose proof (N Expenses). pose proof (N Assets).
  pose proof (N Liabilities). pose proof (N Equity).
  assert (T : forall g,
             fold_right Z.add 0 (map (fun a => Z.abs (w a)) g) < 2 ^ 53 ->
             groupTotal (fun a => wholeNumber (w a)) g = wholeNumber (groupWhole w g)).
  { intros g Hg. unfold groupTotal. change pzero with (wholeNumber 0).
    rewrite groupTotal_whole by (cbn [Z.abs]; lia). reflexivity. }
  assert (L : forall g,
             fold_right Z.add 0 (map (fun a => Z.abs (w a)) g) < 2 ^ 53 ->
             groupLines (fun a => wholeNumber (w a)) g
             = map (fun a => wholeLine a (w a)) g).
  { intros g Hg. unfold groupLines. apply map_ext_in. intros a Ha.
    apply balanceLine_whole.
    assert (Z.abs (w a) <= fold_right Z.add 0 (map (fun a => Z.abs (w a)) g)).
    { clear - Ha N. induction g as [|b g IH]; [contradiction|].
      cbn [map fold_right]. specialize (N g). destruct Ha as [->|Ha]; [lia|].
      specialize (IH Ha). lia. }
    lia. }
  unfold statement, wholeStatement. cbv zeta.
  rewrite !T, !L by lia.
  rewrite sub_whole by lia. rewrite !add_whole by lia.
  unfold wholeLine. rewrite !toFixed2_whole by lia.
  reflexivity.
Qed.

(** The scenario meets the conditions of X18. *)
Lemma whole_ledger_exact_witness :
  accounts cacheScenario =
  Normal (lit "Account,Balance"
          :: map (fun a => wholeLine a (wholeBalance a (allRows cacheScenario)))
                 (enumeration (accountsSeen (allRows cacheScenario)))).
Proof.
  refine (whole_ledger_exact cacheScenario _ _ _); vm_compute; reflexivity.
Defined.

(** X19.  On a ledger of whole amounts every figure of the Financial
    Statement is exact: when every debit and credit field of the files
    other than [fs.csv] is missing, empty or a run of decimal digits, and
    all these figures together stay below 2^53, each account line shows the
    integer balance of the account and each total line shows the integer
    sum of the lines it totals. *)
Theorem whole_statement_exact (c : cache) :
  forallb isWhole (rowsExcept (lit "fs.csv") c) = true ->
  turnover (rowsExcept (lit "fs.csv") c) < 2 ^ 53 ->
  fs c = wholeStatement (fun a => wholeBalance a (rowsExcept (lit "fs.csv") c)).
Proof.
  intros Hw Hb. unfold fs. rewrite fsLines_statement.
  rewrite (statement_ext _ (fun a => wholeNumber (wholeBalance a (rowsExcept (lit "fs.csv") c)))).
  - apply statement_whole.
    eapply Z.le_lt_trans; [|exact Hb].
    apply groupWhole_bound; [|assumption].
    vm_compute. repeat constructor; cbn; intuition discriminate.
  - intros a Ha. rewrite fsBalances_value by assumption.
    destruct (total_whole a _ Hw Hb) as [-> _]. apply orZero_whole.
Qed.

Lemma whole_sum_bound (rows : list row) :
  forallb isWhole rows = true ->
  Z.abs (fold_right Z.add 0 (map wholeAmount rows)) <= turnover rows.
Proof.
  induction rows as [|line l IH]; cbn [map fold_right turnover forallb]; [lia|].
  intros F1. apply andb_true_iff in F1 as [Hl Hr]. specialize (IH Hr).
  unfold isWhole in Hl. apply andb_true_iff in Hl as [Hd Hc].
  pose proof (digitsVal_bounds _ Hd) as [D0 _].
  pose proof (digitsVal_bounds _ Hc) as [C0 _].
  fold (turnover l). unfold wholeAmount at 1. lia.
Qed.

(** The scenario meets the conditions of X19. *)
Lemma whole_statement_exact_witness :
  fs cacheScenario
  = wholeStatement (fun a => wholeBalance a (rowsExcept (lit "fs.csv") cacheScenario)).
Proof.
  refine (whole_statement_exact cacheScenario _ _); vm_compute; reflexivity.
Defined.

(** X20.  On a ledger of whole amounts Yearly Cash Flow is exact: when
    every debit and credit field of the files other than [yearly.csv] is
    missing, empty or a run of decimal digits, and all these figures
    together stay below 2^53, the line of a year shows the integer sum of
    debit minus credit over the Cash lines of that year. *)
Theorem whole_yearly_exact (h : host) (c : cache) :
  forallb isWhole (rowsExcept (lit "yearly.csv") c) = true ->
  turnover (rowsExcept (lit "yearly.csv") c) < 2 ^ 53 ->
  yearly h c =
  lit "Financial Year,Cash Balance"
  :: map (fun y => wholeLine y (wholeYear h y (rowsExcept (lit "yearly.csv") c)))
         (sort leb (yearsSeen h (rowsExcept (lit "yearly.csv") c))).
Proof.
  intros Hw Hb. set (rows := rowsExcept (lit "yearly.csv") c) in *.
  assert (G : forall y,
            total (amountsOfYear h y rows) = wholeNumber (wholeYear h y rows)
            /\ noNaNTotal pzero (amountsOfYear h y rows) = true
            /\ Z.abs (wholeYear h y rows) < 2 ^ 53).
  { intros y. unfold total, amountsOfYear, wholeYear, cashRows.
    destruct (turnover_filter isCash rows Hw) as [F1 F2].
    destruct (turnover_filter (fun line => eqb (yearOf h line) y) _ F1) as [G1 G2].
    pose proof (turnover_nonneg _ G1). pose proof (whole_sum_bound _ G1).
    change pzero with (wholeNumber 0).
    destruct (fold_add_whole _ 0 G1) as [E1 E2]; [cbn [Z.abs]; lia|].
    rewrite E1, E2. repeat split. lia. }
  subst rows. rewrite yearly_lines.
  - f_equal. apply map_ext. intros y. destruct (G y) as (-> & _ & B).
    now apply balanceLine_whole.
  - apply forallb_forall. intros y _. apply G.
Qed.

(** The files of two years meet the conditions of X20. *)
Lemma whole_yearly_exact_witness :
  yearly utcHost (loadFiles dirYears [aCsv; lit "yearly.csv"]) =
  lit "Financial Year,Cash Balance"
  :: map (fun y => wholeLine y
                     (wholeYear utcHost y
                        (rowsExcept (lit "yearly.csv")
                           (loadFiles dirYears [aCsv; lit "yearly.csv"]))))
         (sort leb (yearsSeen utcHost
                      (rowsExcept (lit "yearly.csv")
                         (loadFiles dirYears [aCsv; lit "yearly.csv"])))).
Proof.
  refine (whole_yearly_exact utcHost _ _ _); vm_compute; reflexivity.
Defined.

(** *** Files with CRLF line ends *)

Lemma parse_lines (ls : list jsstring) :
  ls <> [] -> Forall (fun l => ~ In chLF l) ls ->
  trim (join [chLF] ls) = join [chLF] ls ->
  parseContent (join [chLF] ls) = map (split chComma) ls.
Proof.
  intros Hne Hall Htrim. unfold parseContent. rewrite Htrim.
  now rewrite split_join.
Qed.

Lemma split_snoc (sep c : N) (l : jsstring) :
  c <> sep ->
  split sep (l ++ [c])
  = removelast (split sep l) ++ [last (split sep l) [] ++ [c]].
Proof.
  intros Hc. induction l as [|x l IH]; cbn [app split].
  - replace (N.eqb c sep) with false by (symmetry; now apply N.eqb_neq). reflexivity.
  - destruct (N.eqb x sep).
    + rewrite IH. pose proof (split_nonempty sep l) as Hne.
      destruct (split sep l) as [|p ps]; [contradiction|]. reflexivity.
    + rewrite IH. pose proof (split_nonempty sep l) as Hne.
      destruct (split sep l) as [|p ps] eqn:E; [contradiction|].
      destruct ps as [|q ps]; reflexivity.
Qed.

Lemma join_crlf (ls : list jsstring) :
  join [chCR; chLF] ls
  = join [chLF] (map (fun l => l ++ [chCR]) (removelast ls) ++ [last ls []]).
Proof.
  induction ls as [|l ls IH]; [reflexivity|].
  destruct ls as [|l' ls]; [reflexivity|].
  rewrite join_cons by discriminate. rewrite IH.
  change (removelast (l :: l' :: ls)) with (l :: removelast (l' :: ls)).
  change (last (l :: l' :: ls) []) with (last (l' :: ls) []).
  cbn [map app]. rewrite join_cons by (destruct (map _ _); discriminate).
  rewrite <- app_assoc. reflexivity.
Qed.

(** X21.  The parser cuts lines at line feeds only: in a text whose lines
    are joined by a carriage return and a line feed (and that has no white
    space at either end) every row but the last keeps the carriage return
    at the end of its last field. *)
Theorem crlf_keeps_carriage_return (ls : list jsstring) :
  ls <> [] ->
  Forall (fun l => ~ In chLF l) ls ->
  trim (join [chCR; chLF] ls) = join [chCR; chLF] ls ->
  parseContent (join [chCR; chLF] ls)
  = map (fun l => withCR (split chComma l)) (removelast ls)
    ++ [split chComma (last ls [])].
Proof.
  intros Hne Hall Htrim. rewrite join_crlf in *.
  rewrite parse_lines; [| |  |exact Htrim].
  - rewrite map_app, map_map. cbn [map]. f_equal.
    apply map_ext. intros l. unfold withCR. apply split_snoc. discriminate.
  - destruct (map _ _); discriminate.
  - apply Forall_app. split.
    + rewrite Forall_forall in *. intros x Hx.
      apply in_map_iff in Hx as (l & <- & Hl).
      intros Hin. apply in_app_iff in Hin as [Hin|[E|[]]]; [|discriminate].
      apply (Hall l); [|assumption].
      clear - Hl. induction ls as [|a ls IH]; [contradiction|].
      destruct ls as [|b ls]; [contradiction|].
      destruct Hl as [->|Hl]; [now left | right; now apply IH].
    + constructor; [|constructor]. rewrite Forall_forall in Hall.
      apply Hall. destruct ls as [|a ls]; [contradiction|].
      clear. revert a. induction ls as [|b ls IH]; intros a; [now left|].
      right. apply IH.
Qed.

(** Two ledger lines joined by CRLF meet the conditions of X21. *)
Lemma crlf_keeps_carriage_return_witness :
  parseContent (join [chCR; chLF] [lit "2023-01-01,Cash,,100,"; lit "2023-01-02,Cash,,5,0"])
  = map (fun l => withCR (split chComma l))
        (removelast [lit "2023-01-01,Cash,,100,"; lit "2023-01-02,Cash,,5,0"])
    ++ [split chComma (last [lit "2023-01-01,Cash,,100,"; lit "2023-01-02,Cash,,5,0"] [])].
Proof.
  refine (crlf_keeps_carriage_return _ _ _ _).
  - discriminate.
  - repeat constructor; vm_compute; intuition discriminate.
  - vm_compute. reflexivity.
Defined.

Lemma spanDigits_app (ds : jsstring) (x : N) (r : jsstring) :
  forallb isDigit ds = true -> isDigit x = false ->
  spanDigits (ds ++ x :: r) = (ds, x :: r).
Proof.
  intros Hd Hx. induction ds as [|c ds IH]; cbn [app spanDigits].
  - now rewrite Hx.
  - cbn [forallb] in Hd. apply andb_true_iff in Hd as [Hc Hs].
    now rewrite Hc, IH.
Qed.

Lemma parseFloat_digits_CR (ds : jsstring) :
  ds <> [] -> forallb isDigit ds = true ->
  parseFloat (ds ++ [chCR]) = parseFloat ds.
Proof.
  intros Hne Hd. destruct ds as [|c s]; [congruence|].
  pose proof Hd as Hd'. cbn [forallb] in Hd'. apply andb_true_iff in Hd' as [Hc Hs].
  unfold parseFloat. cbn [app trimStart]. rewrite (isDigit_not_ws c Hc).
  assert (Ec : N.eqb c chMinus = false /\ N.eqb c chPlus = false /\ N.eqb c 73 = false).
  { unfold isDigit in Hc. apply andb_true_iff in Hc as [H1 H2].
    apply N.leb_le in H1, H2. unfold chMinus, chPlus.
    repeat split; apply N.eqb_neq; lia. }
  destruct Ec as (E1 & E2 & E3). rewrite E1, E2.
  unfold unsignedLiteral.
  change (startsWith (lit "Infinity") (c :: s ++ [chCR]))
    with (N.eqb 73 c && startsWith (lit "nfinity") (s ++ [chCR])).
  change (startsWith (lit "Infinity") (c :: s))
    with (N.eqb 73 c && startsWith (lit "nfinity") s).
  rewrite N.eqb_sym, E3. cbn [andb].
  unfold unsignedDecimal.
  change (c :: s ++ [chCR]) with ((c :: s) ++ chCR :: []).
  rewrite (spanDigits_app _ chCR [] Hd eq_refl), (spanDigits_all _ Hd).
  reflexivity.
Qed.

(** X22.  A carriage return after the credit figure does not change the
    amount of a line of five fields: [parseFloat] stops at it. *)
Theorem carriage_return_after_figure (date account x debit credit : jsstring) :
  credit <> [] -> forallb isDigit credit = true ->
  amount (withCR [date; account; x; debit; credit])
  = amount [date; account; x; debit; credit].
Proof.
  intros Hne Hd. unfold amount, withCR, creditOf, debitOf.
  cbn [removelast last app nth_error orZeroText].
  f_equal.
  destruct credit as [|c s]; [congruence|]. cbn [app orZeroText].
  apply (parseFloat_digits_CR (c :: s)); [discriminate | assumption].
Qed.

Lemma sub_NaN_r (x : number) : sub x NaN = NaN.
Proof. destruct x; reflexivity. Qed.

(** The first line of the scenario meets the conditions of X22. *)
Lemma carriage_return_after_figure_witness :
  amount (withCR [lit "2023-01-01"; lit "Cash"; []; lit "100"; lit "0"])
  = amount [lit "2023-01-01"; lit "Cash"; []; lit "100"; lit "0"].
Proof.
  refine (carriage_return_after_figure _ _ _ _ _ _ _); [discriminate | reflexivity].
Defined.

(** X23.  A carriage return after an empty credit field makes the amount of
    a line of five fields NaN, whatever its debit is: the field is then not
    empty, so it is not replaced by 0, and it holds no number. *)
Theorem carriage_return_alone_is_NaN (date account x debit : jsstring) :
  amount (withCR [date; account; x; debit; []]) = NaN.
Proof.
  unfold amount, withCR, creditOf. cbn [removelast last app nth_error orZeroText].
  change (parseFloat [chCR]) with NaN. apply sub_NaN_r.
Qed.

End Extras.

(** ** Properties of the ticket controller *)

Module TicketFacts.
Import Tickets.

Lemma resolveOpen_not_open (c : Z) (t : Ticket) :
  ticket_companyId (resolveOpen c t) = c -> ticket_status (resolveOpen c t) <> open.
Proof.
  unfold resolveOpen.
  destruct (ticket_companyId t =? c) eqn:Ec; cbn [andb].
  - destruct (ticket_status t) eqn:Es; cbn; intros _; rewrite ?Es; discriminate.
  - apply Z.eqb_neq in Ec. intros H. contradiction.
Qed.

(** X24.  A request that fails writes nothing: when [create] ends in a
    [ConflictException] or in the [TypeError], the database is as it was
    before the request, since every check comes before [Ticket.create]. *)
Theorem failed_request_writes_nothing {DB : Type} (o : orm DB) (db : DB)
    (body : newTicketDto) :
  (forall dto, fst (create o db body) <> Created dto) ->
  snd (create o db body) = db.
Proof.
  unfold create. destruct (choose o db (type body) (companyId body))
    as [reason|[category [assignee|]]]; [reflexivity| |reflexivity].
  destruct (Ticket_create o db _) as [ticket db1]. cbn [fst snd].
  intros H. now destruct (H (dtoOf ticket)).
Qed.

(** A strike-off request on an empty database fails, and meets the
    condition of X24. *)
Lemma failed_request_writes_nothing_witness :
  snd (create tableOrm noTables {| type := strikeOff; companyId := 1 |}) = noTables.
Proof.
  refine (failed_request_writes_nothing _ _ _ _). intros dto. discriminate.
Defined.

(** X25.  A strike-off request for a company without a director ends in a
    [TypeError], not in a [ConflictException]: [directors[0]] is
    [undefined], and reading its [id] throws before [Ticket.create] is
    called. *)
Theorem strikeOff_without_director {DB : Type} (o : orm DB) (db : DB)
    (body : newTicketDto) :
  type body = strikeOff ->
  User_findAll o db (companyId body) director = [] ->
  create o db body = (TypeError, db).
Proof.
  intros Ht Hd. unfold create, choose. rewrite Ht, Hd. reflexivity.
Qed.

(** The empty database meets the conditions of X25. *)
Lemma strikeOff_without_director_witness :
  create tableOrm noTables {| type := strikeOff; companyId := 1 |} = (TypeError, noTables).
Proof.
  refine (strikeOff_without_director _ _ _ _ _); reflexivity.
Defined.

(** X26.  When a request creates a ticket: a management report needs an
    accountant; a registration address change needs that no such ticket of
    the company is open, and one corporate secretary or else, with none,
    one director; a strike-off needs exactly one director; any other type
    is refused. *)
Theorem create_succeeds_iff {DB : Type} (o : orm DB) (db : DB) (body : newTicketDto) :
  (exists dto, fst (create o db body) = Created dto) <->
  match type body with
  | managementReport =>
      User_findOne o db (companyId body) accountant <> None
  | registrationAddressChange =>
      Ticket_findOne o db (companyId body) registrationAddressChange open = None
      /\ ((exists s, User_findAll o db (companyId body) corporateSecretary = [s])
          \/ (User_findAll o db (companyId body) corporateSecretary = []
              /\ exists d, User_findAll o db (companyId body) director = [d]))
  | strikeOff => exists d, User_findAll o db (companyId body) director = [d]
  | otherType => False
  end.
Proof.
  unfold create, choose. destruct (type body).
  - destruct (User_findOne o db (companyId body) accountant) as [u|].
    + destruct (Ticket_create o db _) as [ticket db1]. cbn [fst].
      split; [intros _; discriminate | intros _; eauto].
    + cbn [fst]. split; [intros [dto H]; discriminate | intros H; now destruct H].
  - destruct (Ticket_findOne o db (companyId body) registrationAddressChange open)
      as [t|].
    { cbn [fst]. split; [intros [dto H]; discriminate | intros [H _]; discriminate]. }
    destruct (User_findAll o db (companyId body) corporateSecretary)
      as [|s [|s' secs]]; cbn [length Nat.ltb Nat.leb Nat.eqb nth_error].
    + destruct (User_findAll o db (companyId body) director)
        as [|d [|d' dirs]]; cbn [length Nat.ltb Nat.leb Nat.eqb nth_error fst].
      * split; [intros [dto H]; discriminate|].
        intros [_ [[s0 H]|[_ [d0 H]]]]; discriminate.
      * destruct (Ticket_create o db _) as [ticket db1]. cbn [fst].
        split; [|intros _; eauto].
        intros _. split; [reflexivity|]. right. split; [reflexivity | eauto].
      * split; [intros [dto H]; discriminate|].
        intros [_ [[s0 H]|[_ [d0 H]]]]; discriminate.
    + destruct (Ticket_create o db _) as [ticket db1]. cbn [fst].
      split; [|intros _; eauto].
      intros _. split; [reflexivity|]. left. eauto.
    + cbn [fst]. split; [intros [dto H]; discriminate|].
      intros [_ [[s0 H]|[H _]]]; discriminate.
  - destruct (User_findAll o db (companyId body) director)
      as [|d [|d' dirs]]; cbn [length Nat.ltb Nat.leb Nat.eqb nth_error fst].
    + split; [intros [dto H]; discriminate | intros [d0 H]; discriminate].
    + destruct (Ticket_create o db _) as [ticket db1]. cbn [fst].
      split; [intros _; eauto | intros _; eauto].
    + split; [intros [dto H]; discriminate | intros [d0 H]; discriminate].
  - cbn [fst]. split; [intros [dto H]; discriminate | intros []].
Qed.

Lemma openAddressChanges_perm (c : Z) (l l' : list Ticket) :
  Permutation l l' ->
  length (openAddressChanges c l) = length (openAddressChanges c l').
Proof.
  intros H. induction H as [|x l l' H IH|x y l|l l' l'' H1 IH1 H2 IH2];
    unfold openAddressChanges in *; cbn [filter].
  - reflexivity.
  - destruct (isOpenAddressChange c x); cbn [length]; lia.
  - destruct (isOpenAddressChange c x), (isOpenAddressChange c y); reflexivity.
  - congruence.
Qed.

Lemma resolveOpen_fewer (c c' : Z) (l : list Ticket) :
  (length (openAddressChanges c' (map (resolveOpen c) l))
   <= length (openAddressChanges c' l))%nat.
Proof.
  unfold openAddressChanges. induction l as [|t l IH]; cbn [map filter]; [lia|].
  assert (E : isOpenAddressChange c' (resolveOpen c t) = true ->
              isOpenAddressChange c' t = true).
  { unfold resolveOpen.
    destruct ((ticket_companyId t =? c) && statusEqb (ticket_status t) open);
      [|trivial].
    unfold isOpenAddressChange. cbn. rewrite andb_false_r. discriminate. }
  destruct (isOpenAddressChange c' (resolveOpen c t)) eqn:E1.
  - rewrite (E eq_refl). cbn [length]. lia.
  - destruct (isOpenAddressChange c' t); cbn [length]; lia.
Qed.

Lemma tableOrm_lawful : lawful tableOrm.
Proof.
  split.
  - intros db c H. cbn in *. unfold openAddressChanges, isOpenAddressChange.
    induction (tickets db) as [|t l IH]; [reflexivity|].
    cbn [find filter] in *.
    destruct ((ticket_companyId t =? c)
              && typeEqb (ticket_type t) registrationAddressChange
              && statusEqb (ticket_status t) open); [discriminate | now apply IH].
  - intros db v. cbn. apply Permutation_sym, Permutation_cons_append.
  - intros db v. cbn. repeat split.
  - intros db c. cbn. apply Permutation_refl.
Qed.

(** X27.  The response to a strike-off reports the status [open] although
    the ticket it has just created is stored as [resolved]: the update that
    follows [Ticket.create] resolves every open ticket of the company, the
    new one included, and the response is built from the instance as
    created. *)
Theorem strikeOff_response_says_open {DB : Type} (o : orm DB) (db : DB)
    (body : newTicketDto) (dto : TicketDto) :
  type body = strikeOff ->
  lawful o ->
  fst (create o db body) = Created dto ->
  dto_status dto = open
  /\ (exists t, In t (findAll o (snd (create o db body)))
                /\ ticket_id t = dto_id dto /\ ticket_status t = resolved)
  /\ forall t, In t (findAll o (snd (create o db body))) ->
               ticket_companyId t = companyId body -> ticket_status t <> open.
Proof.
  intros Ht L. unfold create, choose. rewrite Ht.
  destruct (1 <? length (User_findAll o db (companyId body) director))%nat;
    [discriminate|].
  destruct (nth_error (User_findAll o db (companyId body) director) 0)
    as [assignee|]; [|discriminate].
  match goal with |- context [Ticket_create o db ?v] =>
    pose proof (law_create o L db v) as Hc;
    pose proof (law_created o L db v) as (_ & Hco & Hs);
    destruct (Ticket_create o db v) as [ticket db1] end.
  cbn [fst snd isStrikeOff new_companyId new_status] in *. intros [= <-].
  pose proof (law_resolve o L db1 (companyId body)) as Hr. unfold findAll.
  split; [exact Hs|]. split.
  - exists (resolveOpen (companyId body) ticket). split.
    + eapply Permutation_in; [apply Permutation_sym, Hr|].
      apply in_map. eapply Permutation_in; [apply Permutation_sym, Hc|]. now left.
    + unfold resolveOpen. rewrite Hco, Hs, Z.eqb_refl. cbn. split; reflexivity.
  - intros t Hin. eapply Permutation_in in Hin; [|exact Hr].
    apply in_map_iff in Hin as (t0 & <- & _). apply resolveOpen_not_open.
Qed.

(** A strike-off for the company with one director meets the conditions of
    X27. *)
Lemma strikeOff_response_says_open_witness :
  dto_status (dtoOf (fst (Ticket_create tableOrm oneDirector
                            {| new_companyId := 1; new_assigneeId := 7;
                               new_category := management; new_type := strikeOff;
                               new_status := open |}))) = open
  /\ (exists t,
        In t (findAll tableOrm
                (snd (create tableOrm oneDirector {| type := strikeOff; companyId := 1 |})))
        /\ ticket_id t = 1 /\ ticket_status t = resolved)
  /\ forall t,
       In t (findAll tableOrm
               (snd (create tableOrm oneDirector {| type := strikeOff; companyId := 1 |}))) ->
       ticket_companyId t = 1 -> ticket_status t <> open.
Proof.
  refine (strikeOff_response_says_open tableOrm oneDirector
            {| type := strikeOff; companyId := 1 |} _ _ tableOrm_lawful _);
    reflexivity.
Defined.

(** X28.  A request run alone keeps the rule that no company has two open
    registration address change tickets, whatever its type is and however
    it ends. *)
Theorem one_open_address_change {DB : Type} (o : orm DB) (db : DB)
    (body : newTicketDto) :
  lawful o ->
  atMostOneOpen (findAll o db) ->
  atMostOneOpen (findAll o (snd (create o db body))).
Proof.
  intros L Hinv c'. unfold findAll in *.
  unfold create.
  destruct (choose o db (type body) (companyId body))
    as [reason|[category [assignee|]]] eqn:Ech; cbn [snd]; try apply Hinv.
  match goal with |- context [Ticket_create o db ?v] =>
    pose proof (law_create o L db v) as Hc;
    pose proof (law_created o L db v) as (Ht & Hco & Hs);
    destruct (Ticket_create o db v) as [ticket db1] end.
  cbn [fst snd new_type new_companyId new_status] in *.
  destruct (type body) eqn:Ety; cbn [isStrikeOff].
  - (* managementReport *)
    rewrite (openAddressChanges_perm _ _ _ Hc).
    unfold openAddressChanges. cbn [filter]. unfold isOpenAddressChange at 1.
    rewrite Ht. cbn [typeEqb]. rewrite andb_false_r. cbn [andb]. apply Hinv.
  - (* registrationAddressChange *)
    rewrite (openAddressChanges_perm _ _ _ Hc).
    unfold openAddressChanges. cbn [filter].
    destruct (isOpenAddressChange c' ticket) eqn:Eo; [|apply Hinv].
    assert (Ec : c' = companyId body).
    { unfold isOpenAddressChange in Eo. rewrite Hco in Eo.
      apply andb_true_iff in Eo as [Eo _]. apply andb_true_iff in Eo as [Eo _].
      apply Z.eqb_eq in Eo. congruence. }
    subst c'. unfold choose in Ech.
    destruct (Ticket_findOne o db (companyId body) registrationAddressChange open)
      eqn:Ef; [discriminate|].
    apply (law_findOne o L) in Ef. unfold openAddressChanges in Ef.
    rewrite Ef. cbn [length]. lia.
  - (* strikeOff *)
    rewrite (openAddressChanges_perm _ _ _ (law_resolve o L db1 (companyId body))).
    eapply Nat.le_trans; [apply resolveOpen_fewer|].
    rewrite (openAddressChanges_perm _ _ _ Hc).
    unfold openAddressChanges. cbn [filter]. unfold isOpenAddressChange at 1.
    rewrite Ht. cbn [typeEqb]. rewrite andb_false_r. cbn [andb]. apply Hinv.
  - discriminate.
Qed.

(** The company with one director and no ticket meets the conditions of
    X28. *)
Lemma one_open_address_change_witness :
  atMostOneOpen
    (findAll tableOrm
       (snd (create tableOrm oneDirector
               {| type := registrationAddressChange; companyId := 1 |}))).
Proof.
  refine (one_open_address_change tableOrm oneDirector _ tableOrm_lawful _).
  intros c. cbn. lia.
Defined.

(** X29.  A registration address change for a company that has no open
    one is assigned to the only corporate secretary of the company, and to
    its only director when it has no corporate secretary. *)
Theorem address_change_assignee {DB : Type} (o : orm DB) (db : DB)
    (body : newTicketDto) (u : User) :
  type body = registrationAddressChange ->
  Ticket_findOne o db (companyId body) registrationAddressChange open = None ->
  User_findAll o db (companyId body) corporateSecretary = [u]
  \/ (User_findAll o db (companyId body) corporateSecretary = []
      /\ User_findAll o db (companyId body) director = [u]) ->
  create o db body
  = (Created (dtoOf (fst (Ticket_create o db
                            {| new_companyId := companyId body;
                               new_assigneeId := user_id u;
                               new_category := corporate;
                               new_type := registrationAddressChange;
                               new_status := open |}))),
     snd (Ticket_create o db
            {| new_companyId := companyId body;
               new_assigneeId := user_id u;
               new_category := corporate;
               new_type := registrationAddressChange;
               new_status := open |})).
Proof.
  intros Ht Hf Hu. unfold create, choose. rewrite Ht, Hf.
  destruct Hu as [Hs|[Hs Hd]].
  - rewrite Hs. cbn [length Nat.ltb Nat.leb Nat.eqb nth_error].
    destruct (Ticket_create o db _) as [ticket db1]. reflexivity.
  - rewrite Hs, Hd. cbn [length Nat.ltb Nat.leb Nat.eqb nth_error].
    destruct (Ticket_create o db _) as [ticket db1]. reflexivity.
Qed.

(** The company with one director and no corporate secretary meets the
    conditions of X29. *)
Lemma address_change_assignee_witness :
  create tableOrm oneDirector {| type := registrationAddressChange; companyId := 1 |}
  = (Created (dtoOf (fst (Ticket_create tableOrm oneDirector
                            {| new_companyId := 1;
                               new_assigneeId := 7;
                               new_category := corporate;
                               new_type := registrationAddressChange;
                               new_status := open |}))),
     snd (Ticket_create tableOrm oneDirector
            {| new_companyId := 1;
               new_assigneeId := 7;
               new_category := corporate;
               new_type := registrationAddressChange;
               new_status := open |})).
Proof.
  refine (address_change_assignee tableOrm oneDirector
            {| type := registrationAddressChange; companyId := 1 |}
            {| user_id := 7 |} _ _ _).
  - reflexivity.
  - reflexivity.
  - right. split; reflexivity.
Defined.

End TicketFacts.
